(** * GalaChain DEX: swap engine, position paging and fee configuration

    A shallow embedding of the TypeScript sources

    - [chaincode/dex/swap.helper.ts]       ([processSwapSteps]),
    - [chaincode/dex/getUserPositions.ts]  ([getUserPositions]),
    - [chaincode/dex/configurePoolDexFee]  ([configurePoolDexFee]),
    - [api/utils/dex/format.helper.ts]     ([requirePosititve]),

    together with the properties the specification states about them.

    Conventions.  A [BigNumber] with a finite value is a rational number
    ([Q]); [plus], [minus] and [multipliedBy] are exact, as they are in
    bignumber.js, and [dividedBy] rounds to [DECIMAL_PLACES] fractional
    digits, half away from zero.  Comparisons are the boolean tests of
    [Q].  JavaScript integers (ticks, counters) are [Z].  A function that
    can throw returns a completion: either a value or the error thrown.
    Loops that the source does not bound take a [fuel] argument; [None]
    means the fuel ran out before the loop ended. *)

From Stdlib Require Import ZArith QArith Qabs Qround Lia Lqa Ascii DecimalString.
From stdpp Require Import base option strings gmap list pretty.

Local Open Scope Z_scope.

(** ** Errors and completions *)

Inductive ErrorKind :=
  | ConflictError
  | NotFoundError
  | UnauthorizedError
  | ValidationFailedError.

Record ChainError := mkError { errKind : ErrorKind; errMessage : string }.

(** The completion of a call that yields a value of type [A]. *)
Inductive Completion (A : Type) :=
  | Returns (a : A)
  | Throws (e : ChainError).
Arguments Returns {A} a.
Arguments Throws {A} e.

(** ** Decimal arithmetic (bignumber.js) *)

Module BigNum.

Definition BigNumber := Q.

Definition isEqualTo (x y : Q) : bool := Qeq_bool x y.
Definition isLessThan (x y : Q) : bool := negb (Qle_bool y x).
Definition isGreaterThan (x y : Q) : bool := negb (Qle_bool x y).
Definition plus (x y : Q) : Q := (x + y)%Q.
Definition minus (x y : Q) : Q := (x - y)%Q.
Definition multipliedBy (x y : Q) : Q := (x * y)%Q.

(** Nearest integer, ties away from zero (ROUND_HALF_UP). *)
Definition roundHalfUp (q : Q) : Z :=
  Z.sgn (Qnum q) * ((2 * Z.abs (Qnum q) + Z.pos (Qden q)) / (2 * Z.pos (Qden q))).

(** Truncation toward zero (ROUND_DOWN). *)
Definition roundDown (q : Q) : Z := Z.quot (Qnum q) (Z.pos (Qden q)).

Definition pow10 (dp : nat) : positive := Z.to_pos (10 ^ Z.of_nat dp).

(** [x.dividedBy(y)]: the quotient rounded to [dp] decimal places.  The
    callers below divide by a strictly positive [y] only. *)
Definition dividedBy (dp : nat) (x y : Q) : Q :=
  (roundHalfUp (x / y * inject_Z (Z.pos (pow10 dp))) # pow10 dp)%Q.

(** [x.toFixed(dp, ROUND_DOWN)] read back as a number. *)
Definition truncateTo (dp : nat) (x : Q) : Q :=
  (roundDown (x * inject_Z (Z.pos (pow10 dp))) # pow10 dp)%Q.

End BigNum.

Import BigNum.

(** ** Data model of the swap engine *)

(** The fields of [Pool] that the functions below read or write. *)
Record Pool := mkPool {
  token0 : string;
  token1 : string;
  fee : Q;
  bitmap : gmap string string;
  tickSpacing : Z;
  protocolFees : Q;
  feeGrowthGlobal0 : Q;
  feeGrowthGlobal1 : Q
}.

Record SwapState := mkSwapState {
  amountSpecifiedRemaining : Q;
  amountCalculated : Q;
  sqrtPrice : Q;
  tick : Z;
  liquidity : Q;
  feeGrowthGlobalX : Q;
  protocolFee : Q
}.

Definition set_sqrtPrice (v : Q) (s : SwapState) : SwapState :=
  mkSwapState (amountSpecifiedRemaining s) (amountCalculated s) v (tick s)
              (liquidity s) (feeGrowthGlobalX s) (protocolFee s).
Definition set_amounts (r c : Q) (s : SwapState) : SwapState :=
  mkSwapState r c (sqrtPrice s) (tick s) (liquidity s) (feeGrowthGlobalX s)
              (protocolFee s).
Definition set_protocolFee (v : Q) (s : SwapState) : SwapState :=
  mkSwapState (amountSpecifiedRemaining s) (amountCalculated s) (sqrtPrice s)
              (tick s) (liquidity s) (feeGrowthGlobalX s) v.
Definition set_feeGrowthGlobalX (v : Q) (s : SwapState) : SwapState :=
  mkSwapState (amountSpecifiedRemaining s) (amountCalculated s) (sqrtPrice s)
              (tick s) (liquidity s) v (protocolFee s).
Definition set_liquidity (v : Q) (s : SwapState) : SwapState :=
  mkSwapState (amountSpecifiedRemaining s) (amountCalculated s) (sqrtPrice s)
              (tick s) v (feeGrowthGlobalX s) (protocolFee s).
Definition set_tick (v : Z) (s : SwapState) : SwapState :=
  mkSwapState (amountSpecifiedRemaining s) (amountCalculated s) (sqrtPrice s)
              v (liquidity s) (feeGrowthGlobalX s) (protocolFee s).

(** What [computeSwapStep] returns:
    [[sqrtPriceNext, amountIn, amountOut, feeAmount]]. *)
Record SwapStepResult := mkSwapStepResult {
  stepSqrtPrice : Q;
  stepAmountIn : Q;
  stepAmountOut : Q;
  stepFeeAmount : Q
}.

(** The imports of [swap.helper.ts] whose code lies outside the files at
    hand, and the number of decimal places that bignumber.js is set to
    divide with.  [Ledger] is the state behind [ctx]; a call that awaits
    the ledger takes it and gives it back. *)
Class DexApi (Ledger : Type) := {
  MIN_TICK : Z;
  MAX_TICK : Z;
  DECIMAL_PLACES : nat;
  nextInitialisedTickWithInSameWord :
    gmap string string -> Z -> Z -> bool -> Q -> Z * bool;
  tickToSqrtPrice : Z -> Q;
  sqrtPriceToTick : Q -> Z;
  computeSwapStep : Q -> Q -> Q -> Q -> Q -> SwapStepResult;
  genPoolHash : Pool -> string;
  fetchOrCreateAndCrossTick :
    Ledger -> string -> Z -> Q -> Q -> Completion Q * Ledger
}.

(** Modelled from the spec: [f18], which is imported from the api package
    and not among the files at hand; "the f18 reduction truncates
    (round-toward-zero) to 18 fractional digits". *)
Definition f18 (x : Q) : Q := truncateTo 18 x.

Definition insufficientLiquidity : ChainError :=
  mkError ConflictError "Not enough liquidity available in pool".

(** ** The swap engine: [processSwapSteps] *)

(** How a run of the engine ends: the error thrown, if any, and the swap
    state and the ledger as the run left them.  [state] is one object
    that the loop updates in place, so a run that throws leaves behind
    whatever the earlier iterations wrote. *)
Record SwapRun (Ledger : Type) := mkSwapRun {
  thrown : option ChainError;
  finalState : SwapState;
  finalLedger : Ledger
}.
Arguments mkSwapRun {Ledger} thrown finalState finalLedger.
Arguments thrown {Ledger} s.
Arguments finalState {Ledger} s.
Arguments finalLedger {Ledger} s.

(** Modelled from the spec: the transaction boundary of the ledger, to
    which every error surfaces and "which aborts the ledger write"; what
    a run wrote reaches the ledger only when the run returns. *)
Definition committed {Ledger : Type} (before : Ledger) (r : SwapRun Ledger) : Ledger :=
  match thrown r with
  | Some _ => before
  | None => finalLedger r
  end.

Section SwapEngine.

Context {Ledger : Type} `{Api : DexApi Ledger}.
Variable pool : Pool.
Variable sqrtPriceLimit : Q.
Variables exactInput zeroForOne : bool.

(** The condition of the while loop (lines 59-63). *)
Definition loopCondition (state : SwapState) : bool :=
  negb (isEqualTo (f18 (amountSpecifiedRemaining state)) 0)
  && negb (isEqualTo (sqrtPrice state) sqrtPriceLimit).

(** The bounds test on the next tick (line 85). *)
Definition outOfBounds (tickNext : Z) : bool :=
  (tickNext <? MIN_TICK) || (tickNext >? MAX_TICK).

(** The price target handed to [computeSwapStep] (lines 95-101). *)
Definition stepTarget (sqrtPriceNext : Q) : Q :=
  if (if zeroForOne then isLessThan sqrtPriceNext sqrtPriceLimit
      else isGreaterThan sqrtPriceNext sqrtPriceLimit)
  then sqrtPriceLimit else sqrtPriceNext.

(** Lines 107-116. *)
Definition adjustAmounts (r : SwapStepResult) (state : SwapState) : SwapState :=
  if exactInput then
    set_amounts
      (minus (amountSpecifiedRemaining state) (plus (stepAmountIn r) (stepFeeAmount r)))
      (minus (amountCalculated state) (stepAmountOut r)) state
  else
    set_amounts
      (plus (amountSpecifiedRemaining state) (stepAmountOut r))
      (plus (amountCalculated state) (plus (stepAmountIn r) (stepFeeAmount r))) state.

(** Lines 118-123: the part of the fee left for liquidity providers,
    and the state with the protocol's part booked. *)
Definition applyProtocolFee (feeAmount : Q) (state : SwapState) : Q * SwapState :=
  if isGreaterThan (protocolFees pool) 0 then
    let delta := multipliedBy feeAmount (protocolFees pool) in
    (minus feeAmount delta, set_protocolFee (plus (protocolFee state) delta) state)
  else (feeAmount, state).

(** Lines 125-128. *)
Definition updateFeeGrowth (feeAmount : Q) (state : SwapState) : SwapState :=
  if isGreaterThan (liquidity state) 0 then
    set_feeGrowthGlobalX
      (plus (feeGrowthGlobalX state)
            (dividedBy DECIMAL_PLACES feeAmount (liquidity state))) state
  else state.

(** The fee-growth arguments of the tick crossing (lines 138-139). *)
Definition crossingFeeGrowth (state : SwapState) : Q * Q :=
  (if zeroForOne then feeGrowthGlobalX state else feeGrowthGlobal0 pool,
   if zeroForOne then feeGrowthGlobal1 pool else feeGrowthGlobalX state).

Definition tickAfterCrossing (tickNext : Z) : Z :=
  if zeroForOne then tickNext - 1 else tickNext.

(** Lines 130-151. *)
Definition moveTick (ledger : Ledger) (sqrtPriceStart sqrtPriceNext : Q)
    (tickNext : Z) (initialised : bool) (state : SwapState) : SwapRun Ledger :=
  if isEqualTo (sqrtPrice state) sqrtPriceNext then
    if initialised then
      let '(a, b) := crossingFeeGrowth state in
      match fetchOrCreateAndCrossTick ledger (genPoolHash pool) tickNext a b with
      | (Returns liquidityNet, ledger') =>
          let liquidityNet :=
            if zeroForOne then multipliedBy liquidityNet (-1) else liquidityNet in
          mkSwapRun None
            (set_tick (tickAfterCrossing tickNext)
               (set_liquidity (plus (liquidity state) liquidityNet) state))
            ledger'
      | (Throws e, ledger') => mkSwapRun (Some e) state ledger'
      end
    else mkSwapRun None (set_tick (tickAfterCrossing tickNext) state) ledger
  else if negb (isEqualTo (sqrtPrice state) sqrtPriceStart) then
    mkSwapRun None (set_tick (sqrtPriceToTick (sqrtPrice state)) state) ledger
  else mkSwapRun None state ledger.

(** The result of [computeSwapStep] in the iteration that starts in
    [state] with next tick [tickNext] (lines 93-105). *)
Definition stepResult (tickNext : Z) (state : SwapState) : SwapStepResult :=
  computeSwapStep (sqrtPrice state) (stepTarget (tickToSqrtPrice tickNext))
    (liquidity state) (amountSpecifiedRemaining state) (fee pool).

(** The state after the fee-growth update of line 127, before the tick
    is moved. *)
Definition afterFees (tickNext : Z) (state : SwapState) : SwapState :=
  let r := stepResult tickNext state in
  let state1 := adjustAmounts r (set_sqrtPrice (stepSqrtPrice r) state) in
  let '(feeAmount, state2) := applyProtocolFee (stepFeeAmount r) state1 in
  updateFeeGrowth feeAmount state2.

(** One pass through the body of the while loop (lines 64-151). *)
Definition swapIteration (ledger : Ledger) (state : SwapState) : SwapRun Ledger :=
  let sqrtPriceStart := sqrtPrice state in
  let '(tickNext, initialised) :=
    nextInitialisedTickWithInSameWord (bitmap pool) (tick state)
      (tickSpacing pool) zeroForOne (sqrtPrice state) in
  if outOfBounds tickNext then mkSwapRun (Some insufficientLiquidity) state ledger
  else
    moveTick ledger sqrtPriceStart (tickToSqrtPrice tickNext) tickNext
      initialised (afterFees tickNext state).

(** [processSwapSteps]; [None] when [fuel] iterations did not end the
    loop. *)
Fixpoint processSwapSteps (fuel : nat) (ledger : Ledger) (state : SwapState)
    : option (SwapRun Ledger) :=
  if loopCondition state then
    match fuel with
    | O => None
    | S fuel' =>
        let run := swapIteration ledger state in
        match thrown run with
        | Some _ => Some run
        | None => processSwapSteps fuel' (finalLedger run) (finalState run)
        end
    end
  else Some (mkSwapRun None state ledger).

(** The ledger and the state with which the successive iterations of a
    run start. *)
Fixpoint iterationStarts (fuel : nat) (ledger : Ledger) (state : SwapState)
    : list (Ledger * SwapState) :=
  if loopCondition state then
    match fuel with
    | O => []
    | S fuel' =>
        let run := swapIteration ledger state in
        (ledger, state)
          :: match thrown run with
             | Some _ => []
             | None => iterationStarts fuel' (finalLedger run) (finalState run)
             end
    end
  else [].

(** The next tick that the iteration starting in [state] looks up
    (lines 76-82). *)
Definition nextTick (state : SwapState) : Z :=
  fst (nextInitialisedTickWithInSameWord (bitmap pool) (tick state)
         (tickSpacing pool) zeroForOne (sqrtPrice state)).

Definition nextInitialised (state : SwapState) : bool :=
  snd (nextInitialisedTickWithInSameWord (bitmap pool) (tick state)
         (tickSpacing pool) zeroForOne (sqrtPrice state)).

(** What line 127 adds to [feeGrowthGlobalX] in the iteration that
    starts in [state]: nothing unless liquidity is positive. *)
Definition feeGrowthIncrement (state : SwapState) : Q :=
  let r := stepResult (nextTick state) state in
  if isGreaterThan (liquidity state) 0 then
    dividedBy DECIMAL_PLACES
      (fst (applyProtocolFee (stepFeeAmount r) state)) (liquidity state)
  else 0%Q.

(** The distance of the tick pointer from the bound it moves to. *)
Definition tickDistance (state : SwapState) : nat :=
  Z.to_nat (if zeroForOne then tick state - MIN_TICK + 1
            else MAX_TICK - tick state + 1).

(** The sum of the increments over the iterations of a run. *)
Definition totalFeeGrowth (starts : list (Ledger * SwapState)) : Q :=
  foldr (fun x acc => (feeGrowthIncrement (snd x) + acc)%Q) 0%Q starts.

End SwapEngine.

(** ** Totals over the iterations of a run *)

Section SwapTotals.

Context {Ledger : Type} `{Api : DexApi Ledger}.
Variable pool : Pool.
Variable sqrtPriceLimit : Q.
Variable zeroForOne : bool.

(** What [computeSwapStep] returns in the iteration that starts in
    [state]. *)
Definition iterationStep (state : SwapState) : SwapStepResult :=
  stepResult pool sqrtPriceLimit zeroForOne (nextTick pool zeroForOne state) state.

(** The sum of one of the amounts of the steps over the iterations. *)
Definition totalOver (amount : SwapStepResult -> Q)
    (starts : list (Ledger * SwapState)) : Q :=
  foldr (fun x acc => (amount (iterationStep (snd x)) + acc)%Q) 0%Q starts.

(** Whether the step of the iteration that starts in [state] ends on the
    price of the next tick (line 131). *)
Definition reachesNextTick (exactInput : bool) (state : SwapState) : bool :=
  isEqualTo
    (sqrtPrice (afterFees pool sqrtPriceLimit exactInput zeroForOne
                  (nextTick pool zeroForOne state) state))
    (tickToSqrtPrice (nextTick pool zeroForOne state)).

(** The call of [fetchOrCreateAndCrossTick] that the iteration starting
    with [ledger] and [state] makes when it crosses a tick (lines
    134-140). *)
Definition crossingCall (exactInput : bool) (ledger : Ledger) (state : SwapState)
    : Completion Q * Ledger :=
  let tickNext := nextTick pool zeroForOne state in
  let state1 := afterFees pool sqrtPriceLimit exactInput zeroForOne tickNext state in
  fetchOrCreateAndCrossTick ledger (genPoolHash pool) tickNext
    (fst (crossingFeeGrowth pool zeroForOne state1))
    (snd (crossingFeeGrowth pool zeroForOne state1)).

(** What the iteration adds to the liquidity (lines 141-144): the net
    liquidity of the tick it crosses, negated when [zeroForOne]. *)
Definition liquidityChange (exactInput : bool) (start : Ledger * SwapState) : Q :=
  if reachesNextTick exactInput (snd start)
     && nextInitialised pool zeroForOne (snd start)
  then match fst (crossingCall exactInput (fst start) (snd start)) with
       | Returns liquidityNet =>
           if zeroForOne then multipliedBy liquidityNet (-1) else liquidityNet
       | Throws _ => 0%Q
       end
  else 0%Q.

(** The sum of those changes over the iterations of a run. *)
Definition totalLiquidityChange (exactInput : bool)
    (starts : list (Ledger * SwapState)) : Q :=
  foldr (fun x acc => (liquidityChange exactInput x + acc)%Q) 0%Q starts.

End SwapTotals.

(** ** Position paging: [getUserPositions] *)

Module Paging.

Record DexPositionOwner := mkOwner {
  ownerPoolHash : string;
  (** [tickRangeMap], in the order [Object.entries] lists it. *)
  tickRangeMap : list (string * list string)
}.

(** A page of the ledger's range scan.  [metadataBookmark] is the empty
    string when the page reports no further cursor: the source treats
    [undefined] and the empty string alike (lines 77, 91, 116). *)
Record Page := mkPage {
  results : list DexPositionOwner;
  metadataBookmark : string
}.

Record PositionInfo := mkPositionInfo {
  infoPoolHash : string;
  infoTickRange : string;
  infoPositionId : string
}.

Record DexPositionData := mkPositionData {
  poolHash : string;
  tickUpper : Z;
  tickLower : Z;
  positionLiquidity : Q;
  positionId : string;
  token0ClassKey : string;
  token1ClassKey : string;
  positionFee : Q
}.

Record TokenClass := mkTokenClass { image : string; symbol : string }.

Record IPosition := mkIPosition {
  iPoolHash : string;
  iTickUpper : Z;
  iTickLower : Z;
  iLiquidity : string;
  iPositionId : string;
  token0Img : string;
  token1Img : string;
  iToken0ClassKey : string;
  iToken1ClassKey : string;
  iFee : Q;
  token0Symbol : string;
  token1Symbol : string
}.

Record GetUserPositionsDto := mkDto {
  user : string;
  limit : Z;
  bookmark : string
}.

Record GetUserPositionsResDto := mkResDto {
  positions : list IPosition;
  nextBookMark : string
}.

(** The imports of [getUserPositions.ts].  The function only reads the
    ledger, so the ledger is part of the interface rather than threaded
    through the calls. *)
Class PositionsApi := {
  (** [getObjectsByPartialCompositeKeyWithPagination] for
      [DexPositionOwner.INDEX_KEY], by user and cursor, page size 10. *)
  getObjectsByPartialCompositeKeyWithPagination : string -> string -> Page;
  splitBookmark : string -> string * string;
  (** [Number(localBookmark)], an integer by the data model. *)
  Number : string -> Z;
  genBookMark : string -> string -> string;
  (** [parseTickRange], giving [(tickLower, tickUpper)]. *)
  parseTickRange : string -> Z * Z;
  (** [getDexPosition ctx poolHash tickUpper tickLower positionId]. *)
  getDexPosition : string -> Z -> Z -> string -> Completion DexPositionData;
  (** [fetchTokenClass] after [TokenInstanceKey.fungibleKey]. *)
  fetchTokenClass : string -> Completion TokenClass;
  toFixed : Q -> string
}.

Definition invalidBookmark : ChainError :=
  mkError ValidationFailedError "Invalid bookmark".

(** [Array.prototype.slice] with one argument: a negative start counts
    from the end. *)
Definition slice {A} (start : Z) (l : list A) : list A :=
  if start <? 0
  then drop (Z.to_nat (Z.max (Z.of_nat (length l) + start) 0)) l
  else drop (Z.to_nat start) l.

(** Lines 66-74. *)
Definition flattenOwner (owner : DexPositionOwner) : list PositionInfo :=
  flat_map (fun entry : string * list string =>
              map (fun id => mkPositionInfo (ownerPoolHash owner) (fst entry) id)
                  (snd entry))
           (tickRangeMap owner).

Definition flattenPage (page : Page) : list PositionInfo :=
  flat_map flattenOwner (results page).

(** The variables of the paging loop (lines 46-51). *)
Record PagingState := mkPaging {
  currentPageBookmark : string;
  positionsToSkip : Z;
  positionsRequired : Z;
  newLocalBookmark : Z;
  isLastIteration : bool;
  userPositions : list DexPositionData
}.

Definition nonEmpty (s : string) : bool := negb (String.eqb s "").

Section GetUserPositions.

Context `{Api : PositionsApi}.

(** The [for] loop of lines 100-113 over [selectedPositionId], whose
    length is [len]; [index] is the index of the head of [selected]. *)
Fixpoint fetchSelected (len index : Z) (selected : list PositionInfo)
    (s : PagingState) : Completion PagingState :=
  match selected with
  | [] => Returns s
  | positionInfo :: rest =>
      let '(lower, upper) := parseTickRange (infoTickRange positionInfo) in
      match getDexPosition (infoPoolHash positionInfo) upper lower
              (infoPositionId positionInfo) with
      | Throws e => Throws e
      | Returns position =>
          let s' :=
            mkPaging (currentPageBookmark s) (positionsToSkip s)
              (positionsRequired s - 1) (newLocalBookmark s)
              (index =? len - 1) (userPositions s ++ [position]) in
          if positionsRequired s' =? 0 then Returns s'
          else fetchSelected len (index + 1) rest s'
      end
  end.

(** One pass through the body of the do-while loop (lines 54-116).
    The boolean is [true] when the pass ends in [break]; otherwise
    control goes to the loop condition, as it also does after
    [continue]. *)
Definition pagingIteration (user : string) (s : PagingState)
    : Completion (PagingState * bool) :=
  let userPositionInfo :=
    getObjectsByPartialCompositeKeyWithPagination user (currentPageBookmark s) in
  let newLocal := positionsToSkip s + positionsRequired s in
  let positionInfoList := flattenPage userPositionInfo in
  let len := Z.of_nat (length positionInfoList) in
  if len =? 0 then
    if nonEmpty (metadataBookmark userPositionInfo) then
      Returns (mkPaging (metadataBookmark userPositionInfo) (positionsToSkip s)
                 (positionsRequired s) newLocal (isLastIteration s)
                 (userPositions s), false)
    else
      Returns (mkPaging "" (positionsToSkip s) (positionsRequired s) newLocal
                 true (userPositions s), true)
  else if positionsToSkip s >=? len then
    Returns (mkPaging (metadataBookmark userPositionInfo) (positionsToSkip s - len)
               (positionsRequired s) newLocal (isLastIteration s)
               (userPositions s), false)
  else
    let selectedPositionId := slice (positionsToSkip s) positionInfoList in
    match fetchSelected (Z.of_nat (length selectedPositionId)) 0 selectedPositionId
            (mkPaging (currentPageBookmark s) 0 (positionsRequired s) newLocal
               (isLastIteration s) (userPositions s)) with
    | Throws e => Throws e
    | Returns s' =>
        Returns (mkPaging
                   (if isLastIteration s' then metadataBookmark userPositionInfo
                    else currentPageBookmark s')
                   (positionsToSkip s') (positionsRequired s')
                   (newLocalBookmark s') (isLastIteration s') (userPositions s'),
                 false)
    end.

(** The condition of the do-while loop (line 117). *)
Definition pagingCondition (s : PagingState) : bool :=
  negb (positionsRequired s =? 0) && nonEmpty (currentPageBookmark s).

(** The do-while loop; [None] when [fuel] passes did not end it. *)
Fixpoint pagingLoop (fuel : nat) (user : string) (s : PagingState)
    : option (Completion PagingState) :=
  match fuel with
  | O => None
  | S fuel' =>
      match pagingIteration user s with
      | Throws e => Some (Throws e)
      | Returns (s', true) => Some (Returns s')
      | Returns (s', false) =>
          if pagingCondition s' then pagingLoop fuel' user s'
          else Some (Returns s')
      end
  end.

(** The state in which the last pass of the loop starts. *)
Fixpoint lastPassStart (fuel : nat) (user : string) (s : PagingState)
    : PagingState :=
  match fuel with
  | O => s
  | S fuel' =>
      match pagingIteration user s with
      | Returns (s', false) =>
          if pagingCondition s' then lastPassStart fuel' user s' else s
      | _ => s
      end
  end.

(** [addMetaDataToUserPositions] (lines 139-170). *)
Fixpoint addMetaDataToUserPositions (positions : list DexPositionData)
    : Completion (list IPosition) :=
  match positions with
  | [] => Returns []
  | position :: rest =>
      match fetchTokenClass (token0ClassKey position) with
      | Throws e => Throws e
      | Returns token0Class =>
          match fetchTokenClass (token1ClassKey position) with
          | Throws e => Throws e
          | Returns token1Class =>
              match addMetaDataToUserPositions rest with
              | Throws e => Throws e
              | Returns tail =>
                  Returns
                    (mkIPosition (poolHash position) (tickUpper position)
                       (tickLower position) (toFixed (positionLiquidity position))
                       (positionId position) (image token0Class)
                       (image token1Class) (token0ClassKey position)
                       (token1ClassKey position) (positionFee position)
                       (symbol token0Class) (symbol token1Class) :: tail)
              end
          end
      end
  end.

(** The state in which the loop is entered (lines 44-51). *)
Definition initialPaging (dto : GetUserPositionsDto) : PagingState :=
  let '(chainBookmark, localBookmark) := splitBookmark (bookmark dto) in
  mkPaging chainBookmark (Number localBookmark) (limit dto)
    (Number localBookmark + limit dto) false [].

(** The bookmark handed back (lines 125-128). *)
Definition newBookmark (s : PagingState) : string :=
  if negb (nonEmpty (currentPageBookmark s)) && isLastIteration s then ""
  else genBookMark (currentPageBookmark s)
         (if isLastIteration s then "" else pretty (newLocalBookmark s)).

(** Lines 119-133, from the state in which the loop ended. *)
Definition finishPaging (s : PagingState) : Completion GetUserPositionsResDto :=
  if negb (positionsToSkip s =? 0) then Throws invalidBookmark
  else
    match addMetaDataToUserPositions (userPositions s) with
    | Throws e => Throws e
    | Returns userPositionWithMetadata =>
        Returns (mkResDto userPositionWithMetadata (newBookmark s))
    end.

Definition getUserPositions (fuel : nat) (dto : GetUserPositionsDto)
    : option (Completion GetUserPositionsResDto) :=
  match pagingLoop fuel (user dto) (initialPaging dto) with
  | None => None
  | Some (Throws e) => Some (Throws e)
  | Some (Returns s) => Some (finishPaging s)
  end.

(** The pages that the range scan visits from [cursor] to the end of the
    user's index: each page but the last reports the cursor of the
    next. *)
Inductive scan (user : string) : string -> list Page -> Prop :=
  | scan_last cursor :
      metadataBookmark (getObjectsByPartialCompositeKeyWithPagination user cursor) = "" ->
      scan user cursor [getObjectsByPartialCompositeKeyWithPagination user cursor]
  | scan_more cursor pages :
      nonEmpty (metadataBookmark
                  (getObjectsByPartialCompositeKeyWithPagination user cursor)) = true ->
      scan user
        (metadataBookmark (getObjectsByPartialCompositeKeyWithPagination user cursor))
        pages ->
      scan user cursor
        (getObjectsByPartialCompositeKeyWithPagination user cursor :: pages).

(** The position that the loop fetches for an entry of the flattened list
    (lines 101-108). *)
Definition positionDataOf (info : PositionInfo) : Completion DexPositionData :=
  let '(lower, upper) := parseTickRange (infoTickRange info) in
  getDexPosition (infoPoolHash info) upper lower (infoPositionId info).

(** The positions of a list of entries, fetched in order up to the first
    error. *)
Fixpoint fetchAll (infos : list PositionInfo) : Completion (list DexPositionData) :=
  match infos with
  | [] => Returns []
  | info :: rest =>
      match positionDataOf info with
      | Throws e => Throws e
      | Returns position =>
          match fetchAll rest with
          | Throws e => Throws e
          | Returns positions => Returns (position :: positions)
          end
      end
  end.

(** The positions of a list of entries with their token metadata. *)
Definition positionsFor (infos : list PositionInfo) : Completion (list IPosition) :=
  match fetchAll infos with
  | Throws e => Throws e
  | Returns data => addMetaDataToUserPositions data
  end.

(** What a request for [limit] positions after the first [skip] of the
    entries on [pages] is to be answered with. *)
Definition expectedPositions (skip limit : nat) (pages : list Page)
    : Completion (list IPosition) :=
  if (length (flat_map flattenPage pages) <? skip)%nat then Throws invalidBookmark
  else positionsFor (take limit (drop skip (flat_map flattenPage pages))).

(** The cursor and the local bookmark of the state [s] stand for the
    entries [rest]: a page consumed in part and the pages after it, from
    the local bookmark on; or nothing, when the index is exhausted; or
    the pages from the next cursor on. *)
Definition continues (user : string) (s : PagingState) (rest : list PositionInfo)
    : Prop :=
  (isLastIteration s = false
   /\ exists pages,
        scan user (currentPageBookmark s) pages
        /\ (Z.to_nat (newLocalBookmark s) < length (flat_map flattenPage pages))%nat
        /\ drop (Z.to_nat (newLocalBookmark s)) (flat_map flattenPage pages) = rest)
  \/ (isLastIteration s = true /\ currentPageBookmark s = "" /\ rest = [])
  \/ (isLastIteration s = true
      /\ nonEmpty (currentPageBookmark s) = true
      /\ exists pages,
           scan user (currentPageBookmark s) pages
           /\ flat_map flattenPage pages = rest).

End GetUserPositions.

(** The number of positions on a list of pages. *)
Definition countPositions (pages : list Page) : Z :=
  Z.of_nat (length (flat_map flattenPage pages)).

(** While positions remain to be skipped none has been fetched, so the
    number required is still the limit. *)
Definition skipping (s : PagingState) : Prop :=
  (0 <= positionsToSkip s)%Z
  /\ ((0 < positionsToSkip s)%Z -> positionsRequired s <> 0%Z).

End Paging.

(** ** Protocol-fee configuration: [configurePoolDexFee] *)

Module FeeConfig.

Record DexFeeConfig := mkFeeConfig { authorities : list string }.

Record ConfigurePoolDexFeeDto := mkDto {
  dtoToken0 : string;
  dtoToken1 : string;
  dtoFee : Q;
  protocolFee : Q
}.

Record ConfigurePoolDexFeeResDto := mkResDto { resProtocolFee : Q }.

(** What the function sees of [ctx]: the caller, the fee configuration
    object, if the ledger has one, and the pools by composite key. *)
Record Context := mkContext {
  callingUser : string;
  feeConfig : option DexFeeConfig;
  pools : gmap string Pool
}.

Definition set_pools (m : gmap string Pool) (ctx : Context) : Context :=
  mkContext (callingUser ctx) (feeConfig ctx) m.

Definition set_protocolFees (f : Q) (p : Pool) : Pool :=
  mkPool (token0 p) (token1 p) (fee p) (bitmap p) (tickSpacing p) f
         (feeGrowthGlobal0 p) (feeGrowthGlobal1 p).

Definition configNotDefined : ChainError :=
  mkError NotFoundError
    "Protocol fee configuration has yet to be defined. Dex fee configuration is not defined.".

Definition notAuthorized (caller : string) : ChainError :=
  mkError UnauthorizedError
    ("CallingUser " ++ caller ++ " is not authorized to create or update").

Section ConfigurePoolDexFee.

(** [validateTokenOrder] and the composite key of a pool,
    [createCompositeKey(Pool.INDEX_KEY, [token0, token1, fee.toString()])],
    come from files not at hand. *)
Variable validateTokenOrder : string -> string -> Completion (string * string).
Variable createCompositeKey : string -> string -> Q -> string.
(** The messages of the two errors raised below this function. *)
Variable poolNotFoundMessage : string -> string.
Variable feeOutOfRangeMessage : string.

(** Modelled from the spec: [fetchDexProtocolFeeConfig], which lives in
    [dexUtils]; it yields the configuration object, or nothing when
    "protocol-fee config missing". *)
Definition fetchDexProtocolFeeConfig (ctx : Context) : option DexFeeConfig :=
  feeConfig ctx.

(** Modelled from the spec: the ledger's [getObjectByKey], which
    "fails NotFound" when no object is stored under the key. *)
Definition getObjectByKey (ctx : Context) (key : string) : Completion Pool :=
  match pools ctx !! key with
  | Some pool => Returns pool
  | None => Throws (mkError NotFoundError (poolNotFoundMessage key))
  end.

(** Modelled from the spec: [Pool.configureProtocolFee], a method of
    the pool entity, which "validates 0 <= f <= 1" before it sets the
    fraction. *)
Definition configureProtocolFee (f : Q) (pool : Pool) : Completion Pool :=
  if Qle_bool 0 f && Qle_bool f 1 then Returns (set_protocolFees f pool)
  else Throws (mkError ValidationFailedError feeOutOfRangeMessage).

(** Modelled from the spec: [putChainObject]; the pool goes back under
    the key it was read from. *)
Definition putChainObject (ctx : Context) (key : string) (pool : Pool) : Context :=
  set_pools (<[key := pool]> (pools ctx)) ctx.

(** [configurePoolDexFee] (lines 29-54): the completion and the
    context as the call leaves it. *)
Definition configurePoolDexFee (ctx : Context) (dto : ConfigurePoolDexFeeDto)
    : Completion ConfigurePoolDexFeeResDto * Context :=
  match fetchDexProtocolFeeConfig ctx with
  | None => (Throws configNotDefined, ctx)
  | Some protocolFeeConfig =>
      if negb (bool_decide (callingUser ctx ∈ authorities protocolFeeConfig))
      then (Throws (notAuthorized (callingUser ctx)), ctx)
      else
        match validateTokenOrder (dtoToken0 dto) (dtoToken1 dto) with
        | Throws e => (Throws e, ctx)
        | Returns (t0, t1) =>
            let key := createCompositeKey t0 t1 (dtoFee dto) in
            match getObjectByKey ctx key with
            | Throws e => (Throws e, ctx)
            | Returns pool =>
                match configureProtocolFee (protocolFee dto) pool with
                | Throws e => (Throws e, ctx)
                | Returns pool' =>
                    (Returns (mkResDto (protocolFee dto)),
                     putChainObject ctx key pool')
                end
            end
        end
  end.

End ConfigurePoolDexFee.

End FeeConfig.

(** ** Argument checking: [requirePosititve] *)

Module Format.

(** The values a [BigNumber] can hold. *)
Inductive BigNumberValue :=
  | Finite (q : Q)
  | NaN
  | Infinity (negative : bool).

(** The arguments the variadic helper can be given: a [BigNumber] or a
    value of another type. *)
Inductive JsValue :=
  | JsBigNumber (b : BigNumberValue)
  | JsNumber (q : Q)
  | JsString (s : string)
  | JsBoolean (b : bool)
  | JsUndefined
  | JsNull.

(** [b.lt(new BigNumber(0))]. *)
Definition ltZero (b : BigNumberValue) : bool :=
  match b with
  | Finite q => isLessThan q 0
  | NaN => false
  | Infinity negative => negative
  end.

Definition uintOutOfBounds : ChainError :=
  mkError ConflictError "Uint Out of Bounds error :Uint".

(** [requirePosititve] (lines 18-26). *)
Fixpoint requirePosititve (params : list JsValue) : Completion unit :=
  match params with
  | [] => Returns tt
  | positive :: rest =>
      match positive with
      | JsBigNumber b =>
          if ltZero b then Throws uintOutOfBounds else requirePosititve rest
      | _ => requirePosititve rest
      end
  end.

(** The arguments that make the helper throw. *)
Definition isNegativeDecimal (v : JsValue) : bool :=
  match v with
  | JsBigNumber b => ltZero b
  | _ => false
  end.

(** [positive instanceof BigNumber]. *)
Definition isBigNumber (v : JsValue) : bool :=
  match v with
  | JsBigNumber _ => true
  | _ => false
  end.

End Format.

(** ** Tick records *)

Module TickStore.

Record TickData := mkTickData {
  liquidityGross : Q;
  liquidityNet : Q;
  feeGrowthOutside0 : Q;
  feeGrowthOutside1 : Q;
  initialised : bool
}.

Definition tickNotFound : ChainError :=
  mkError NotFoundError "Tick data not found".

Definition cross (feeGrowthGlobal0 feeGrowthGlobal1 : Q) (t : TickData) : TickData :=
  mkTickData (liquidityGross t) (liquidityNet t)
    (minus feeGrowthGlobal0 (feeGrowthOutside0 t))
    (minus feeGrowthGlobal1 (feeGrowthOutside1 t)) (initialised t).

(** Modelled from the spec: [fetchOrCreateAndCrossTick] of
    [tickData.helper], which "loads the tick record (fails with not
    found [...] when the bitmap bit is set but the record is missing).
    On crossing, updates feeGrowthOutside{0,1} := feeGrowthGlobal{0,1} -
    feeGrowthOutside{0,1}, persists, and returns liquidityNet". *)
Definition fetchOrCreateAndCrossTick (ledger : gmap (string * Z) TickData)
    (poolHash : string) (tick : Z) (feeGrowthGlobal0 feeGrowthGlobal1 : Q)
    : Completion Q * gmap (string * Z) TickData :=
  match ledger !! (poolHash, tick) with
  | None => (Throws tickNotFound, ledger)
  | Some t =>
      (Returns (liquidityNet t),
       <[(poolHash, tick) := cross feeGrowthGlobal0 feeGrowthGlobal1 t]> ledger)
  end.

End TickStore.

(** ** An instance to run the functions on

    The helpers that lie outside the files at hand are replaced by simple
    stand-ins, so that the definitions above can be evaluated: a price
    that is linear in the tick, words of the bitmap that hold one tick
    each, and a swap step that always reaches its target and reports the
    same amounts.  The theorems below hold for every instance; this one
    provides their concrete cases. *)

Module Example.

Definition linearSqrtPrice (t : Z) : Q := ((1000000 + t) # 1000000)%Q.

Definition linearTick (p : Q) : Z := Qfloor ((p - 1) * 1000000)%Q.

Definition oneTickPerWord (bitmap : gmap string string) (tick spacing : Z)
    (zeroForOne : bool) (sqrtPrice : Q) : Z * bool :=
  let next := if zeroForOne then tick - spacing else tick + spacing in
  (next, bool_decide (is_Some (bitmap !! pretty next))).

(** A step that reaches the target, with 900 paid in, 890 paid out and a
    fee of 100. *)
Definition fullStep (sqrtPriceCurrent sqrtPriceTarget liquidity amountRemaining fee : Q)
    : SwapStepResult :=
  mkSwapStepResult sqrtPriceTarget 900 890 100.

(** A step that does nothing at all. *)
Definition idleStep (sqrtPriceCurrent sqrtPriceTarget liquidity amountRemaining fee : Q)
    : SwapStepResult :=
  mkSwapStepResult sqrtPriceCurrent 0 0 0.

Definition hashOf (p : Pool) : string := token0 p ++ "$" ++ token1 p.

#[local] Instance api : DexApi (gmap (string * Z) TickStore.TickData) := {|
  MIN_TICK := -887272;
  MAX_TICK := 887272;
  DECIMAL_PLACES := 20;
  nextInitialisedTickWithInSameWord := oneTickPerWord;
  tickToSqrtPrice := linearSqrtPrice;
  sqrtPriceToTick := linearTick;
  computeSwapStep := fullStep;
  genPoolHash := hashOf;
  fetchOrCreateAndCrossTick := TickStore.fetchOrCreateAndCrossTick
|}.

Definition idleApi : DexApi (gmap (string * Z) TickStore.TickData) := {|
  MIN_TICK := -887272;
  MAX_TICK := 887272;
  DECIMAL_PLACES := 20;
  nextInitialisedTickWithInSameWord := oneTickPerWord;
  tickToSqrtPrice := linearSqrtPrice;
  sqrtPriceToTick := linearTick;
  computeSwapStep := idleStep;
  genPoolHash := hashOf;
  fetchOrCreateAndCrossTick := TickStore.fetchOrCreateAndCrossTick
|}.

(** A pool with tick spacing 60 whose only initialised tick is the
    lowest one, and which diverts [protocolFees] of the fee. *)
Definition poolWith (protocolFees : Q) : Pool :=
  mkPool "GALA" "USDC" (3 # 1000) {[ "-887272" := "1" ]} 60 protocolFees 0 0.

Definition tickRecord : TickStore.TickData := TickStore.mkTickData 500 500 0 0 true.

Definition ledger : gmap (string * Z) TickStore.TickData :=
  {[ ("GALA$USDC", -887272) := tickRecord ]}.

(** A swap of [amount] that starts one tick spacing above the lowest
    tick, with liquidity 1000. *)
Definition stateWith (amount : Q) : SwapState :=
  mkSwapState amount 0 (linearSqrtPrice (-887212)) (-887212) 1000 0 0.

Definition priceLimit : Q := (1 # 10000)%Q.

(** The same swap of 1000 in a pool that has no liquidity in range. *)
Definition drained : SwapState :=
  mkSwapState 1000 0 (linearSqrtPrice (-887212)) (-887212) 0 0 0.

(** The state after the one step that a swap of 1000 takes from
    [stateWith 1000] in a pool that diverts a quarter of the fee. *)
Definition afterOneStep : SwapState :=
  mkSwapState (1000 - (900 + 100)) (0 - 890) (linearSqrtPrice (-887272))
    (-887273) (1000 + 500 * -1)
    (0 + dividedBy 20 (100 - 100 * (1 # 4)) 1000) (0 + 100 * (1 # 4)).

End Example.

(** ** An instance of the paging interface

    Bookmarks follow the structure the specification gives,
    [<chainBookmark>|<localBookmark>]; the ledger holds the positions of
    one user on three pages, the second of them an owner record without
    positions, and no record for anybody else. *)

Module PagingExample.

Import Paging.

(** The text before the first [sep] and the text after it. *)
Fixpoint splitOn (sep : ascii) (s : string) : string * string :=
  match s with
  | EmptyString => (EmptyString, EmptyString)
  | String c rest =>
      if Ascii.eqb c sep then (EmptyString, rest)
      else let '(before, after) := splitOn sep rest in (String c before, after)
  end.

(** A decimal numeral as an integer; the empty string counts as 0, as
    it does for [Number]. *)
Definition numberOf (s : string) : Z :=
  match NilEmpty.int_of_string s with
  | Some i => Z.of_int i
  | None => 0
  end.

(** Modelled from the spec: [splitBookmark] of [dexUtils]; a bookmark is
    "structured as <chainBookmark>|<localBookmark>". *)
Definition splitAtBar (bookmark : string) : string * string :=
  splitOn "|"%char bookmark.

(** Modelled from the spec: [genBookMark], the inverse of the above. *)
Definition joinWithBar (chainBookmark localBookmark : string) : string :=
  chainBookmark ++ "|" ++ localBookmark.

Definition tickRangeOf (tickRange : string) : Z * Z :=
  let '(lower, upper) := splitOn ":"%char tickRange in
  (numberOf lower, numberOf upper).

Definition pageOf (user cursor : string) : Page :=
  if negb (String.eqb user "alice") then mkPage [] ""
  else if String.eqb cursor "" then
    mkPage [mkOwner "poolA" [("-60:60", ["a1"; "a2"]); ("0:120", ["a3"])]] "k2"
  else if String.eqb cursor "k2" then
    mkPage [mkOwner "poolB" []] "k3"
  else if String.eqb cursor "k3" then
    mkPage [mkOwner "poolC" [("10:20", ["c1"; "c2"; "c3"; "c4"])]] ""
  else mkPage [] "".

Definition positionOf (poolHash : string) (tickUpper tickLower : Z)
    (positionId : string) : Completion DexPositionData :=
  Returns (mkPositionData poolHash tickUpper tickLower 1 positionId
             "GALA" "USDC" (3 # 1000)).

Definition tokenClassOf (key : string) : Completion TokenClass :=
  Returns (mkTokenClass (key ++ ".png") key).

#[local] Instance api : PositionsApi := {|
  getObjectsByPartialCompositeKeyWithPagination := pageOf;
  splitBookmark := splitAtBar;
  Number := numberOf;
  genBookMark := joinWithBar;
  parseTickRange := tickRangeOf;
  getDexPosition := positionOf;
  fetchTokenClass := tokenClassOf;
  toFixed := fun q => pretty (Qfloor q)
|}.

End PagingExample.

(** ** An instance of the fee configuration

    One pool, one authority, tokens that are given in order. *)

Module FeeConfigExample.

Import FeeConfig.

Definition orderOf (token0 token1 : string) : Completion (string * string) :=
  Returns (token0, token1).

Definition keyOf (token0 token1 : string) (fee : Q) : string :=
  token0 ++ "$" ++ token1.

Definition notFound (key : string) : string := "Object not found: " ++ key.

Definition outOfRange : string := "protocolFee must be between 0 and 1".

Definition configure : Context -> ConfigurePoolDexFeeDto
                       -> Completion ConfigurePoolDexFeeResDto * Context :=
  configurePoolDexFee orderOf keyOf notFound outOfRange.

Definition contextOf (caller : string) : Context :=
  mkContext caller (Some (mkFeeConfig ["admin"]))
    {[ "GALA$USDC" := Example.poolWith 0 ]}.

Definition unconfigured : Context :=
  mkContext "admin" None {[ "GALA$USDC" := Example.poolWith 0 ]}.

Definition request (protocolFee : Q) : ConfigurePoolDexFeeDto :=
  mkDto "GALA" "USDC" (3 # 1000) protocolFee.

End FeeConfigExample.

(** * Properties *)

(** ** Facts about the decimal operations *)

Section BigNumFacts.

Local Open Scope Q_scope.

Lemma isEqualTo_spec (x y : Q) : isEqualTo x y = true <-> x == y.
Proof. apply Qeq_bool_iff. Qed.

Lemma isGreaterThan_spec (x y : Q) : isGreaterThan x y = true <-> y < x.
Proof.
  unfold isGreaterThan. rewrite negb_true_iff, <- not_true_iff_false, Qle_bool_iff.
  split; [apply Qnot_le_lt | apply Qlt_not_le].
Qed.

Lemma isGreaterThan_false (x y : Q) : isGreaterThan x y = false <-> x <= y.
Proof.
  unfold isGreaterThan. rewrite negb_false_iff. apply Qle_bool_iff.
Qed.

Lemma isLessThan_spec (x y : Q) : isLessThan x y = true <-> x < y.
Proof. apply isGreaterThan_spec. Qed.

Lemma Qnum_nonneg (q : Q) : 0 <= q <-> (0 <= Qnum q)%Z.
Proof. unfold Qle. simpl. lia. Qed.

Lemma Qnum_zero (q : Q) : q == 0 <-> Qnum q = 0%Z.
Proof. unfold Qeq. simpl. lia. Qed.

Lemma roundHalfUp_nonneg (q : Q) : 0 <= q -> (0 <= roundHalfUp q)%Z.
Proof.
  rewrite Qnum_nonneg. intros Hq. unfold roundHalfUp.
  apply Z.mul_nonneg_nonneg; [lia |].
  apply Z.div_pos; lia.
Qed.

Lemma roundHalfUp_zero (q : Q) : q == 0 -> roundHalfUp q = 0%Z.
Proof.
  rewrite Qnum_zero. intros Hq. unfold roundHalfUp. rewrite Hq. reflexivity.
Qed.

(** Rounding is a function of the number, not of the fraction that
    stands for it. *)
Lemma roundHalfUp_floor (q : Q) :
  roundHalfUp q = (Z.sgn (Qnum q) * Qfloor (Qabs q + (1 # 2)))%Z.
Proof.
  unfold roundHalfUp. f_equal.
  destruct q as [n d]. unfold Qfloor, Qabs, Qplus. simpl Qnum. simpl Qden.
  f_equal; lia.
Qed.

Lemma sgn_Qnum_comp (p q : Q) : p == q -> Z.sgn (Qnum p) = Z.sgn (Qnum q).
Proof.
  unfold Qeq. destruct p as [n d], q as [m e]. simpl. intros Heq.
  destruct n, m; simpl in *; try reflexivity; lia.
Qed.

#[local] Instance roundHalfUp_comp : Proper (Qeq ==> eq) roundHalfUp.
Proof.
  intros p q Heq. rewrite !roundHalfUp_floor.
  rewrite (sgn_Qnum_comp p q Heq). f_equal.
  apply Qfloor_comp. rewrite Heq. reflexivity.
Qed.

#[local] Instance dividedBy_comp (dp : nat) : Proper (Qeq ==> Qeq ==> Qeq) (dividedBy dp).
Proof.
  intros x x' Hx y y' Hy. unfold dividedBy.
  assert (H : x / y * inject_Z (Z.pos (pow10 dp)) == x' / y' * inject_Z (Z.pos (pow10 dp)))
    by (rewrite Hx, Hy; reflexivity).
  rewrite (roundHalfUp_comp _ _ H). reflexivity.
Qed.

Lemma dividedBy_nonneg (dp : nat) (x y : Q) : 0 <= x -> 0 < y -> 0 <= dividedBy dp x y.
Proof.
  intros Hx Hy. unfold dividedBy. apply Qnum_nonneg. simpl.
  apply roundHalfUp_nonneg.
  apply Qmult_le_0_compat; [| apply Qnum_nonneg; simpl; lia].
  apply Qle_shift_div_l; [assumption |]. rewrite Qmult_0_l. assumption.
Qed.

Lemma dividedBy_zero (dp : nat) (x y : Q) : x == 0 -> dividedBy dp x y == 0.
Proof.
  intros Hx. unfold dividedBy. apply Qnum_zero. simpl.
  apply roundHalfUp_zero. rewrite Hx. unfold Qdiv. ring.
Qed.

Lemma f18_zero (x : Q) : x == 0 -> f18 x == 0.
Proof.
  intros Hx. unfold f18, truncateTo. apply Qnum_zero. simpl.
  unfold roundDown. apply Qnum_zero in Hx. simpl. rewrite Hx. reflexivity.
Qed.

End BigNumFacts.

(** ** The swap engine *)

Section SwapFacts.

Context {Ledger : Type} `{Api : DexApi Ledger}.
Variable pool : Pool.
Variable sqrtPriceLimit : Q.
Variables exactInput zeroForOne : bool.

Local Open Scope Q_scope.

Local Abbreviation iteration := (swapIteration pool sqrtPriceLimit exactInput zeroForOne).
Local Abbreviation run := (processSwapSteps pool sqrtPriceLimit exactInput zeroForOne).
Local Abbreviation starts := (iterationStarts pool sqrtPriceLimit exactInput zeroForOne).
Local Abbreviation fees := (afterFees pool sqrtPriceLimit exactInput zeroForOne).
Local Abbreviation next := (nextTick pool zeroForOne).
Local Abbreviation step := (stepResult pool sqrtPriceLimit zeroForOne).

(** The iteration, with the two results of the tick lookup named. *)
Lemma swapIteration_eq (ledger : Ledger) (state : SwapState) :
  iteration ledger state =
  if outOfBounds (next state) then mkSwapRun (Some insufficientLiquidity) state ledger
  else moveTick pool zeroForOne ledger (sqrtPrice state)
         (tickToSqrtPrice (next state)) (next state)
         (nextInitialised pool zeroForOne state) (fees (next state) state).
Proof.
  unfold swapIteration, nextTick, nextInitialised.
  destruct (nextInitialisedTickWithInSameWord _ _ _ _ _) as [tickNext initialised].
  reflexivity.
Qed.

(** Moving the tick pointer touches neither the fee growth nor the
    protocol fee, also when the tick crossing throws. *)
Lemma moveTick_fees (ledger : Ledger) (p0 p1 : Q) (t : Z) (i : bool) (s : SwapState) :
  let r := moveTick pool zeroForOne ledger p0 p1 t i s in
  feeGrowthGlobalX (finalState r) = feeGrowthGlobalX s
  /\ protocolFee (finalState r) = protocolFee s.
Proof.
  unfold moveTick.
  destruct (isEqualTo (sqrtPrice s) p1).
  - destruct i; [| split; reflexivity].
    destruct (crossingFeeGrowth pool zeroForOne s) as [a b].
    destruct (fetchOrCreateAndCrossTick ledger (genPoolHash pool) t a b) as [[ln | e] l'];
      split; reflexivity.
  - destruct (negb (isEqualTo (sqrtPrice s) p0)); split; reflexivity.
Qed.

Lemma afterFees_liquidity (t : Z) (s : SwapState) : liquidity (fees t s) = liquidity s.
Proof.
  unfold afterFees, applyProtocolFee, updateFeeGrowth, adjustAmounts.
  destruct (isGreaterThan (protocolFees pool) 0), exactInput; simpl;
    destruct (isGreaterThan (liquidity s) 0); reflexivity.
Qed.

Lemma afterFees_protocolFee (t : Z) (s : SwapState) :
  protocolFee (fees t s) =
  if isGreaterThan (protocolFees pool) 0
  then protocolFee s + stepFeeAmount (step t s) * protocolFees pool
  else protocolFee s.
Proof.
  unfold afterFees, applyProtocolFee, updateFeeGrowth, adjustAmounts.
  destruct (isGreaterThan (protocolFees pool) 0), exactInput; simpl;
    destruct (isGreaterThan (liquidity s) 0); reflexivity.
Qed.

Lemma afterFees_feeGrowth (t : Z) (s : SwapState) :
  feeGrowthGlobalX (fees t s) =
  if isGreaterThan (liquidity s) 0
  then feeGrowthGlobalX s
       + dividedBy DECIMAL_PLACES
           (fst (applyProtocolFee pool (stepFeeAmount (step t s)) s)) (liquidity s)
  else feeGrowthGlobalX s.
Proof.
  unfold afterFees, applyProtocolFee, updateFeeGrowth, adjustAmounts.
  destruct (isGreaterThan (protocolFees pool) 0), exactInput; simpl;
    destruct (isGreaterThan (liquidity s) 0); reflexivity.
Qed.

(** C5.  In an iteration that passes the bounds test in a pool with
    [protocolFees > 0], [delta = feeAmount * protocolFees] is added to the
    protocol fee of the swap and only [feeAmount - delta] reaches the fee
    growth, which takes it divided by the liquidity when that is
    positive; with a fee of 100 and a fraction of 1/4 the protocol fee
    grows by 25 and the fee growth by 75 / liquidity. *)
Theorem protocol_fee_diverted_before_fee_growth
    (ledger : Ledger) (state : SwapState) :
  0 < protocolFees pool ->
  outOfBounds (next state) = false ->
  let feeAmount := stepFeeAmount (step (next state) state) in
  let delta := feeAmount * protocolFees pool in
  let state' := finalState (iteration ledger state) in
  protocolFee state' = protocolFee state + delta
  /\ feeGrowthGlobalX state' =
       (if isGreaterThan (liquidity state) 0
        then feeGrowthGlobalX state
             + dividedBy DECIMAL_PLACES (feeAmount - delta) (liquidity state)
        else feeGrowthGlobalX state)
  /\ (feeAmount == 100 -> protocolFees pool == 1 # 4 -> 0 < liquidity state ->
      protocolFee state' == protocolFee state + 25
      /\ feeGrowthGlobalX state'
         == feeGrowthGlobalX state + dividedBy DECIMAL_PLACES 75 (liquidity state)).
Proof.
  intros Hpos Hin feeAmount delta state'.
  assert (Hgt : isGreaterThan (protocolFees pool) 0 = true)
    by (apply isGreaterThan_spec; assumption).
  assert (HP : protocolFee state' = protocolFee state + delta).
  { subst state'. rewrite swapIteration_eq, Hin.
    rewrite (proj2 (moveTick_fees _ _ _ _ _ _)), afterFees_protocolFee, Hgt.
    reflexivity. }
  assert (HG : feeGrowthGlobalX state' =
               if isGreaterThan (liquidity state) 0
               then feeGrowthGlobalX state
                    + dividedBy DECIMAL_PLACES (feeAmount - delta) (liquidity state)
               else feeGrowthGlobalX state).
  { subst state'. rewrite swapIteration_eq, Hin.
    rewrite (proj1 (moveTick_fees _ _ _ _ _ _)), afterFees_feeGrowth.
    unfold applyProtocolFee. rewrite Hgt. reflexivity. }
  split; [exact HP |]. split; [exact HG |].
  intros Hfee Hfrac Hliq. split.
  - rewrite HP. subst delta. rewrite Hfee, Hfrac. ring.
  - rewrite HG. rewrite (proj2 (isGreaterThan_spec _ _) Hliq).
    apply Qplus_inj_l. apply dividedBy_comp; [| reflexivity].
    subst delta. rewrite Hfee, Hfrac. ring.
Qed.

(** C6.  In an iteration whose step ends on the price of the next tick:
    if that tick is initialised it is crossed by
    [fetchOrCreateAndCrossTick] with the fee-growth pair
    [(state.feeGrowthGlobalX, pool.feeGrowthGlobal1)] when [zeroForOne]
    and [(pool.feeGrowthGlobal0, state.feeGrowthGlobalX)] otherwise, the
    [liquidityNet] it returns is multiplied by -1 exactly when
    [zeroForOne] and added to the liquidity, and the tick pointer goes to
    [tickNext - 1] when [zeroForOne] and to [tickNext] otherwise; the
    pointer moves the same way when the tick is not initialised. *)
Theorem reached_tick_is_crossed (ledger : Ledger) (state : SwapState) :
  outOfBounds (next state) = false ->
  let tickNext := next state in
  let state1 := fees tickNext state in
  sqrtPrice state1 == tickToSqrtPrice tickNext ->
  let r := iteration ledger state in
  let pointer := if zeroForOne then (tickNext - 1)%Z else tickNext in
  (nextInitialised pool zeroForOne state = true ->
   let a := if zeroForOne then feeGrowthGlobalX state1 else feeGrowthGlobal0 pool in
   let b := if zeroForOne then feeGrowthGlobal1 pool else feeGrowthGlobalX state1 in
   let call := fetchOrCreateAndCrossTick ledger (genPoolHash pool) tickNext a b in
   finalLedger r = snd call
   /\ match fst call with
      | Returns liquidityNet =>
          thrown r = None
          /\ liquidity (finalState r) =
               liquidity state + (if zeroForOne then liquidityNet * -1 else liquidityNet)
          /\ tick (finalState r) = pointer
      | Throws e => thrown r = Some e /\ finalState r = state1
      end)
  /\ (nextInitialised pool zeroForOne state = false ->
      thrown r = None /\ finalLedger r = ledger
      /\ liquidity (finalState r) = liquidity state
      /\ tick (finalState r) = pointer).
Proof.
  intros Hin tickNext state1 Hprice r pointer.
  apply isEqualTo_spec in Hprice.
  subst r. rewrite swapIteration_eq, Hin. fold tickNext. fold state1.
  unfold moveTick. rewrite Hprice.
  split; intros Hinit; rewrite Hinit.
  - unfold crossingFeeGrowth. cbv zeta.
    destruct (fetchOrCreateAndCrossTick _ _ _ _ _) as [[liquidityNet | e] ledger'];
      simpl; repeat split; try reflexivity.
    subst state1. rewrite afterFees_liquidity. reflexivity.
  - simpl. repeat split; try reflexivity.
    subst state1. apply afterFees_liquidity.
Qed.

(** An iteration whose next tick is out of bounds throws and writes
    nothing. *)
Lemma out_of_bounds_iteration (ledger : Ledger) (state : SwapState) :
  outOfBounds (next state) = true ->
  iteration ledger state = mkSwapRun (Some insufficientLiquidity) state ledger.
Proof. intros Hout. rewrite swapIteration_eq, Hout. reflexivity. Qed.

(** An iteration that does not throw has passed the bounds test. *)
Lemma completed_iteration_in_bounds (ledger : Ledger) (state : SwapState) :
  thrown (iteration ledger state) = None -> outOfBounds (next state) = false.
Proof.
  intros Hnone. destruct (outOfBounds (next state)) eqn:Hout; [| reflexivity].
  rewrite (out_of_bounds_iteration _ _ Hout) in Hnone. discriminate.
Qed.

(** C2, as the code has it.  When an iteration of a run finds the next
    tick outside [[MIN_TICK, MAX_TICK]], the run ends there with the
    Conflict error "Not enough liquidity available in pool"; the swap
    state and the ledger are left as they stood when that iteration
    started, that is, as the earlier iterations wrote them, and it is the
    transaction boundary that keeps those writes from the ledger. *)
Theorem out_of_bounds_tick_aborts
    (fuel : nat) (ledger l : Ledger) (state s : SwapState) :
  (l, s) ∈ starts fuel ledger state ->
  outOfBounds (next s) = true ->
  run fuel ledger state = Some (mkSwapRun (Some insufficientLiquidity) s l)
  /\ errKind insufficientLiquidity = ConflictError
  /\ errMessage insufficientLiquidity = "Not enough liquidity available in pool"
  /\ committed ledger (mkSwapRun (Some insufficientLiquidity) s l) = ledger.
Proof.
  intros Hin Hout. split; [| repeat split].
  revert ledger state Hin. induction fuel as [| fuel IH]; intros ledger state Hin.
  - simpl in Hin. destruct (loopCondition sqrtPriceLimit state);
      apply elem_of_nil in Hin; contradiction.
  - simpl in Hin |- *.
    destruct (loopCondition sqrtPriceLimit state);
      [| apply elem_of_nil in Hin; contradiction].
    apply elem_of_cons in Hin as [Heq | Hin].
    + injection Heq as -> ->.
      rewrite (out_of_bounds_iteration _ _ Hout). reflexivity.
    + destruct (thrown (iteration ledger state));
        [apply elem_of_nil in Hin; contradiction |].
      apply IH; assumption.
Qed.

(** The same in the first iteration: nothing has been written at all. *)
Lemma out_of_bounds_at_once (fuel : nat) (ledger : Ledger) (state : SwapState) :
  loopCondition sqrtPriceLimit state = true ->
  outOfBounds (next state) = true ->
  run (S fuel) ledger state = Some (mkSwapRun (Some insufficientLiquidity) state ledger).
Proof.
  intros Hcond Hout. simpl. rewrite Hcond, (out_of_bounds_iteration _ _ Hout).
  reflexivity.
Qed.

(** *** Fee growth over a run *)

(** What one completed iteration adds to the fee growth. *)
Lemma iteration_feeGrowth (ledger : Ledger) (state : SwapState) :
  thrown (iteration ledger state) = None ->
  feeGrowthGlobalX (finalState (iteration ledger state))
  == feeGrowthGlobalX state + feeGrowthIncrement pool sqrtPriceLimit zeroForOne state.
Proof.
  intros Hnone. apply completed_iteration_in_bounds in Hnone.
  rewrite swapIteration_eq, Hnone.
  rewrite (proj1 (moveTick_fees _ _ _ _ _ _)), afterFees_feeGrowth.
  unfold feeGrowthIncrement.
  destruct (isGreaterThan (liquidity state) 0); [reflexivity | ring].
Qed.

(** Without positive liquidity an iteration leaves the fee growth as it
    is. *)
Lemma iteration_feeGrowth_unchanged (ledger : Ledger) (state : SwapState) :
  thrown (iteration ledger state) = None ->
  ~ 0 < liquidity state ->
  feeGrowthGlobalX (finalState (iteration ledger state)) = feeGrowthGlobalX state.
Proof.
  intros Hnone Hliq. apply completed_iteration_in_bounds in Hnone.
  rewrite swapIteration_eq, Hnone.
  rewrite (proj1 (moveTick_fees _ _ _ _ _ _)), afterFees_feeGrowth.
  destruct (isGreaterThan (liquidity state) 0) eqn:Hgt; [| reflexivity].
  apply isGreaterThan_spec in Hgt. contradiction.
Qed.

(** The fee growth at the end of a completed run is the fee growth at
    its start plus the increments of its iterations. *)
Lemma run_feeGrowth (fuel : nat) (ledger : Ledger) (state : SwapState)
    (r : SwapRun Ledger) :
  run fuel ledger state = Some r ->
  thrown r = None ->
  feeGrowthGlobalX (finalState r)
  == feeGrowthGlobalX state
     + totalFeeGrowth pool sqrtPriceLimit zeroForOne (starts fuel ledger state).
Proof.
  revert ledger state.
  induction fuel as [| fuel IH]; intros ledger state Hrun Hnone; simpl in *.
  - destruct (loopCondition sqrtPriceLimit state); [discriminate |].
    injection Hrun as <-. simpl. ring.
  - destruct (loopCondition sqrtPriceLimit state).
    + destruct (thrown (iteration ledger state)) eqn:Hthrown.
      * injection Hrun as <-. congruence.
      * simpl. rewrite (IH _ _ Hrun Hnone), (iteration_feeGrowth _ _ Hthrown). ring.
    + injection Hrun as <-. simpl. ring.
Qed.

Lemma run_feeGrowth_unchanged (fuel : nat) (ledger : Ledger) (state : SwapState)
    (r : SwapRun Ledger) :
  run fuel ledger state = Some r ->
  thrown r = None ->
  Forall (fun x => ~ 0 < liquidity (snd x)) (starts fuel ledger state) ->
  feeGrowthGlobalX (finalState r) = feeGrowthGlobalX state.
Proof.
  revert ledger state.
  induction fuel as [| fuel IH]; intros ledger state Hrun Hnone Hall; simpl in *.
  - destruct (loopCondition sqrtPriceLimit state); [discriminate |].
    injection Hrun as <-. reflexivity.
  - destruct (loopCondition sqrtPriceLimit state).
    + apply Forall_cons in Hall as [Hhead Htail]. simpl in Hhead.
      destruct (thrown (iteration ledger state)) eqn:Hthrown.
      * injection Hrun as <-. congruence.
      * rewrite (IH _ _ Hrun Hnone Htail).
        apply iteration_feeGrowth_unchanged; assumption.
    + injection Hrun as <-. reflexivity.
Qed.

Section NonNegativeFees.

(** [computeSwapStep] reports no negative fee, and the pool keeps its
    protocol fraction at or below one. *)
Hypothesis fee_nonneg :
  forall p t l a f, 0 <= stepFeeAmount (computeSwapStep p t l a f).
Hypothesis fraction_le_1 : protocolFees pool <= 1.

Lemma increment_nonneg (state : SwapState) :
  0 <= feeGrowthIncrement pool sqrtPriceLimit zeroForOne state.
Proof.
  unfold feeGrowthIncrement.
  destruct (isGreaterThan (liquidity state) 0) eqn:Hliq; [| apply Qle_refl].
  apply isGreaterThan_spec in Hliq.
  apply dividedBy_nonneg; [| assumption].
  unfold applyProtocolFee, stepResult.
  set (feeAmount := stepFeeAmount _).
  assert (Hfee : 0 <= feeAmount) by apply fee_nonneg.
  destruct (isGreaterThan (protocolFees pool) 0); simpl; [| assumption].
  unfold minus, multipliedBy. nra.
Qed.

Lemma total_nonneg (l : list (Ledger * SwapState)) :
  0 <= totalFeeGrowth pool sqrtPriceLimit zeroForOne l.
Proof.
  induction l as [| x l IH]; simpl; [apply Qle_refl |].
  pose proof (increment_nonneg (snd x)). lra.
Qed.

Lemma total_positive (l : list (Ledger * SwapState)) :
  0 < totalFeeGrowth pool sqrtPriceLimit zeroForOne l
  <-> Exists (fun x => 0 < feeGrowthIncrement pool sqrtPriceLimit zeroForOne (snd x)) l.
Proof.
  induction l as [| x l IH]; simpl.
  - split; [intros H; lra | intros H; inversion H].
  - pose proof (increment_nonneg (snd x)) as Hx.
    pose proof (total_nonneg l) as Hl.
    rewrite Exists_cons. split.
    + intros Hsum.
      destruct (Qlt_le_dec 0 (feeGrowthIncrement pool sqrtPriceLimit zeroForOne (snd x)))
        as [Hpos | Hle]; [left; assumption |].
      right. apply IH. lra.
    + intros [Hpos | Hex]; [lra |]. apply IH in Hex. lra.
Qed.

End NonNegativeFees.

(** C4, as the code has it.  Over a completed run the fee growth never
    decreases, provided [computeSwapStep] reports no negative fee and the
    protocol fraction is at most one; it is strictly greater at exit
    than at entry exactly when some iteration with positive liquidity
    adds a positive quotient of its remaining fee by the liquidity; and
    when liquidity is positive in no iteration it is unchanged. *)
Theorem fee_growth_over_run
    (fuel : nat) (ledger : Ledger) (state : SwapState) (r : SwapRun Ledger) :
  (forall p t l a f, 0 <= stepFeeAmount (computeSwapStep p t l a f)) ->
  protocolFees pool <= 1 ->
  run fuel ledger state = Some r ->
  thrown r = None ->
  feeGrowthGlobalX state <= feeGrowthGlobalX (finalState r)
  /\ (feeGrowthGlobalX state < feeGrowthGlobalX (finalState r)
      <-> Exists (fun x => 0 < liquidity (snd x)
                           /\ 0 < feeGrowthIncrement pool sqrtPriceLimit zeroForOne (snd x))
                 (starts fuel ledger state))
  /\ (Forall (fun x => ~ 0 < liquidity (snd x)) (starts fuel ledger state) ->
      feeGrowthGlobalX (finalState r) = feeGrowthGlobalX state).
Proof.
  intros Hfee Hfrac Hrun Hnone.
  pose proof (run_feeGrowth _ _ _ _ Hrun Hnone) as Hsum.
  pose proof (total_nonneg Hfee Hfrac (starts fuel ledger state)) as Hge.
  pose proof (total_positive Hfee Hfrac (starts fuel ledger state)) as Hpos.
  split; [lra |]. split.
  - rewrite Hsum. split.
    + intros Hlt.
      assert (Htotal : 0 < totalFeeGrowth pool sqrtPriceLimit zeroForOne
                             (starts fuel ledger state)) by lra.
      apply Hpos in Htotal. eapply Exists_impl; [exact Htotal |].
      intros x Hx. split; [| assumption].
      unfold feeGrowthIncrement in Hx.
      destruct (isGreaterThan (liquidity (snd x)) 0) eqn:Hliq.
      * apply isGreaterThan_spec. assumption.
      * lra.
    + intros Hex.
      assert (Htotal : 0 < totalFeeGrowth pool sqrtPriceLimit zeroForOne
                             (starts fuel ledger state)).
      { apply Hpos. eapply Exists_impl; [exact Hex |]. intros x [_ Hx]. exact Hx. }
      lra.
  - apply run_feeGrowth_unchanged; assumption.
Qed.

(** A pool that diverts the whole fee to the protocol leaves nothing for
    the fee growth, whatever the liquidity. *)
Lemma full_diversion_adds_nothing (state : SwapState) :
  protocolFees pool == 1 ->
  feeGrowthIncrement pool sqrtPriceLimit zeroForOne state == 0.
Proof.
  intros Hone. unfold feeGrowthIncrement.
  destruct (isGreaterThan (liquidity state) 0); [| reflexivity].
  apply dividedBy_zero. unfold applyProtocolFee.
  assert (Hgt : isGreaterThan (protocolFees pool) 0 = true)
    by (apply isGreaterThan_spec; rewrite Hone; reflexivity).
  rewrite Hgt. simpl. unfold minus, multipliedBy. rewrite Hone. ring.
Qed.

(** *** Termination *)

(** The loop has no progress test of its own: an iteration that gives
    back the state and the ledger it was given is repeated for ever. *)
Lemma idle_iteration_never_ends (ledger : Ledger) (state : SwapState) :
  loopCondition sqrtPriceLimit state = true ->
  iteration ledger state = mkSwapRun None state ledger ->
  forall fuel, run fuel ledger state = None.
Proof.
  intros Hcond Hidle fuel. induction fuel as [| fuel IH]; simpl; rewrite Hcond.
  - reflexivity.
  - rewrite Hidle. simpl. exact IH.
Qed.

(** Conversely, a measure that every completed iteration decreases,
    unless it ends the loop, bounds the number of iterations. *)
Lemma decreasing_measure_ends_run (measure : SwapState -> nat) :
  (forall ledger state,
      loopCondition sqrtPriceLimit state = true ->
      thrown (iteration ledger state) = None ->
      loopCondition sqrtPriceLimit (finalState (iteration ledger state)) = false
      \/ (measure (finalState (iteration ledger state)) < measure state)%nat) ->
  forall fuel ledger state,
    (measure state < fuel)%nat -> is_Some (run fuel ledger state).
Proof.
  intros Hdecr fuel. induction fuel as [| fuel IH]; intros ledger state Hfuel; [lia |].
  simpl. destruct (loopCondition sqrtPriceLimit state) eqn:Hcond; [| eexists; reflexivity].
  destruct (thrown (iteration ledger state)) eqn:Hthrown; [eexists; reflexivity |].
  destruct (Hdecr _ _ Hcond Hthrown) as [Hend | Hless].
  - destruct fuel; simpl; rewrite Hend; eexists; reflexivity.
  - apply IH. lia.
Qed.

Lemma moveTick_keeps (ledger : Ledger) (p0 p1 : Q) (t : Z) (i : bool) (s : SwapState) :
  let r := moveTick pool zeroForOne ledger p0 p1 t i s in
  sqrtPrice (finalState r) = sqrtPrice s
  /\ amountSpecifiedRemaining (finalState r) = amountSpecifiedRemaining s.
Proof.
  unfold moveTick.
  destruct (isEqualTo (sqrtPrice s) p1).
  - destruct i; [| split; reflexivity].
    destruct (crossingFeeGrowth pool zeroForOne s) as [a b].
    destruct (fetchOrCreateAndCrossTick ledger (genPoolHash pool) t a b) as [[ln | e] l'];
      split; reflexivity.
  - destruct (negb (isEqualTo (sqrtPrice s) p0)); split; reflexivity.
Qed.

Lemma moveTick_crossed (ledger : Ledger) (p0 p1 : Q) (t : Z) (i : bool) (s : SwapState) :
  sqrtPrice s == p1 ->
  thrown (moveTick pool zeroForOne ledger p0 p1 t i s) = None ->
  tick (finalState (moveTick pool zeroForOne ledger p0 p1 t i s))
  = tickAfterCrossing zeroForOne t.
Proof.
  intros Hprice. apply isEqualTo_spec in Hprice. unfold moveTick. rewrite Hprice.
  destruct i; [| reflexivity].
  destruct (crossingFeeGrowth pool zeroForOne s) as [a b].
  destruct (fetchOrCreateAndCrossTick ledger (genPoolHash pool) t a b) as [[ln | e] l'];
    [reflexivity | discriminate].
Qed.

Lemma afterFees_sqrtPrice (t : Z) (s : SwapState) :
  sqrtPrice (fees t s) = stepSqrtPrice (step t s).
Proof.
  unfold afterFees, applyProtocolFee, updateFeeGrowth, adjustAmounts.
  destruct (isGreaterThan (protocolFees pool) 0), exactInput; simpl;
    destruct (isGreaterThan (liquidity s) 0); reflexivity.
Qed.

Lemma afterFees_remaining (t : Z) (s : SwapState) :
  amountSpecifiedRemaining (fees t s) =
  if exactInput
  then amountSpecifiedRemaining s
       - (stepAmountIn (step t s) + stepFeeAmount (step t s))
  else amountSpecifiedRemaining s + stepAmountOut (step t s).
Proof.
  unfold afterFees, applyProtocolFee, updateFeeGrowth, adjustAmounts.
  destruct (isGreaterThan (protocolFees pool) 0), exactInput; simpl;
    destruct (isGreaterThan (liquidity s) 0); reflexivity.
Qed.

Section HelperContracts.

(** What the argument for termination needs of the helpers: the tick
    lookup goes in the direction of the swap, and a step either reaches
    its target price or uses up the amount that remains. *)
Hypothesis lookup_direction :
  forall tick price,
    let tickNext := fst (nextInitialisedTickWithInSameWord (bitmap pool) tick
                           (tickSpacing pool) zeroForOne price) in
    if zeroForOne then (tickNext <= tick)%Z else (tick < tickNext)%Z.
Hypothesis step_reaches_or_exhausts :
  forall price target liquidity remaining fee,
    let r := computeSwapStep price target liquidity remaining fee in
    stepSqrtPrice r == target
    \/ (if exactInput then stepAmountIn r + stepFeeAmount r == remaining
        else stepAmountOut r == - remaining).

Local Abbreviation distance := (tickDistance zeroForOne).

Lemma iteration_ends_or_advances (ledger : Ledger) (state : SwapState) :
  thrown (iteration ledger state) = None ->
  loopCondition sqrtPriceLimit (finalState (iteration ledger state)) = false
  \/ (distance (finalState (iteration ledger state)) < distance state)%nat.
Proof.
  intros Hnone. pose proof (completed_iteration_in_bounds _ _ Hnone) as Hin.
  rewrite swapIteration_eq, Hin in Hnone |- *.
  set (moved := moveTick _ _ _ _ _ _ _ _) in *.
  destruct (moveTick_keeps ledger (sqrtPrice state) (tickToSqrtPrice (next state))
              (next state) (nextInitialised pool zeroForOne state)
              (fees (next state) state)) as [Hprice Hremaining].
  fold moved in Hprice, Hremaining.
  rewrite afterFees_sqrtPrice in Hprice. rewrite afterFees_remaining in Hremaining.
  unfold loopCondition. rewrite Hprice, Hremaining.
  destruct (step_reaches_or_exhausts (sqrtPrice state)
              (stepTarget sqrtPriceLimit zeroForOne (tickToSqrtPrice (next state)))
              (liquidity state) (amountSpecifiedRemaining state) (fee pool))
    as [Hreached | Hexhausted].
  - fold (step (next state) state) in Hreached. unfold stepTarget in Hreached.
    destruct (if zeroForOne then _ else _) eqn:Hclamp.
    + left. apply isEqualTo_spec in Hreached. rewrite Hreached.
      apply andb_false_r.
    + right. subst moved. unfold tickDistance.
      rewrite moveTick_crossed;
        [| rewrite afterFees_sqrtPrice; exact Hreached | exact Hnone].
      pose proof (lookup_direction (tick state) (sqrtPrice state)) as Hdir.
      cbv zeta in Hdir. fold (next state) in Hdir. unfold outOfBounds in Hin.
      apply orb_false_iff in Hin as [Hmin Hmax].
      apply Z.ltb_ge in Hmin. rewrite Z.gtb_ltb in Hmax. apply Z.ltb_ge in Hmax.
      unfold tickAfterCrossing.
      revert Hdir Hmin Hmax. generalize (next state).
      intros tickNext Hdir Hmin Hmax. destruct zeroForOne; lia.
  - left. fold (step (next state) state) in Hexhausted.
    assert (Hzero : (if exactInput
                     then amountSpecifiedRemaining state
                          - (stepAmountIn (step (next state) state)
                             + stepFeeAmount (step (next state) state))
                     else amountSpecifiedRemaining state
                          + stepAmountOut (step (next state) state)) == 0).
    { destruct exactInput; rewrite Hexhausted; ring. }
    apply f18_zero, isEqualTo_spec in Hzero. rewrite Hzero. reflexivity.
Qed.

(** Under these contracts a run ends within as many iterations as there
    are ticks between the pointer and the bound, and one more. *)
Lemma run_ends_under_contracts (ledger : Ledger) (state : SwapState) :
  is_Some (run (S (distance state)) ledger state).
Proof.
  apply (decreasing_measure_ends_run distance); [| lia].
  intros l s _ Hnone. apply iteration_ends_or_advances. exact Hnone.
Qed.

End HelperContracts.

(** *** Runs of one and of two iterations *)

Lemma swapRun_eta (r : SwapRun Ledger) :
  r = mkSwapRun (thrown r) (finalState r) (finalLedger r).
Proof. destruct r. reflexivity. Qed.

(** A run whose first iteration completes and ends the loop. *)
Lemma run_single_iteration (fuel : nat) (ledger : Ledger) (state : SwapState) :
  loopCondition sqrtPriceLimit state = true ->
  thrown (iteration ledger state) = None ->
  loopCondition sqrtPriceLimit (finalState (iteration ledger state)) = false ->
  run (S fuel) ledger state = Some (iteration ledger state)
  /\ starts (S fuel) ledger state = [(ledger, state)].
Proof.
  intros Hcond Hnone Hend. simpl. rewrite Hcond, Hnone. split.
  - destruct fuel; simpl; rewrite Hend; rewrite (swapRun_eta (iteration ledger state)) at 3;
      rewrite Hnone; reflexivity.
  - destruct fuel; simpl; rewrite Hend; reflexivity.
Qed.

(** A run that throws in its second iteration. *)
Lemma run_throws_in_second (fuel : nat) (ledger : Ledger) (state : SwapState) :
  loopCondition sqrtPriceLimit state = true ->
  thrown (iteration ledger state) = None ->
  loopCondition sqrtPriceLimit (finalState (iteration ledger state)) = true ->
  outOfBounds (next (finalState (iteration ledger state))) = true ->
  run (S (S fuel)) ledger state
  = Some (mkSwapRun (Some insufficientLiquidity)
            (finalState (iteration ledger state)) (finalLedger (iteration ledger state))).
Proof.
  intros Hcond Hnone Hnext Hout. simpl. rewrite Hcond, Hnone, Hnext.
  rewrite (out_of_bounds_iteration _ _ Hout). reflexivity.
Qed.

(** The second iteration of a run starts where the first one ended. *)
Lemma second_iteration_start (fuel : nat) (ledger : Ledger) (state : SwapState) :
  loopCondition sqrtPriceLimit state = true ->
  thrown (iteration ledger state) = None ->
  loopCondition sqrtPriceLimit (finalState (iteration ledger state)) = true ->
  (finalLedger (iteration ledger state), finalState (iteration ledger state))
  ∈ starts (S (S fuel)) ledger state.
Proof.
  intros Hcond Hnone Hnext. simpl. rewrite Hcond, Hnone, Hnext.
  apply list_elem_of_further, list_elem_of_here.
Qed.

End SwapFacts.

(** ** Position paging *)

Section PagingFacts.

Import Paging.
Context `{Api : PositionsApi}.

Lemma nonEmpty_false (s : string) : nonEmpty s = false <-> s = "".
Proof.
  unfold nonEmpty. rewrite negb_false_iff. apply String.eqb_eq.
Qed.

(** The [for] loop writes the positions, the counter of required
    positions and the last-element flag, and nothing else. *)
Lemma fetchSelected_keeps (len index : Z) (selected : list PositionInfo)
    (s s' : PagingState) :
  fetchSelected len index selected s = Returns s' ->
  currentPageBookmark s' = currentPageBookmark s
  /\ positionsToSkip s' = positionsToSkip s
  /\ newLocalBookmark s' = newLocalBookmark s.
Proof.
  revert index s. induction selected as [| info rest IH]; intros index s Hrun; simpl in Hrun.
  - injection Hrun as <-. repeat split.
  - destruct (parseTickRange (infoTickRange info)) as [lower upper].
    destruct (getDexPosition _ _ _ _) as [position | e]; [| discriminate].
    simpl in Hrun.
    destruct (positionsRequired s - 1 =? 0)%Z.
    + injection Hrun as <-. repeat split.
    + apply IH in Hrun. simpl in Hrun. exact Hrun.
Qed.

(** The errors of the [for] loop are those of [getDexPosition]. *)
Lemma fetchSelected_throws (len index : Z) (selected : list PositionInfo)
    (s : PagingState) (e : ChainError) :
  fetchSelected len index selected s = Throws e ->
  exists poolHash upper lower id, getDexPosition poolHash upper lower id = Throws e.
Proof.
  revert index s. induction selected as [| info rest IH]; intros index s Hrun; simpl in Hrun.
  - discriminate.
  - destruct (parseTickRange (infoTickRange info)) as [lower upper].
    destruct (getDexPosition _ _ _ _) as [position | e'] eqn:Hget.
    + simpl in Hrun. destruct (positionsRequired s - 1 =? 0)%Z; [discriminate |].
      eapply IH. exact Hrun.
    + injection Hrun as ->. eauto.
Qed.

(** Every pass records [positionsToSkip + positionsRequired] as they
    stand when it starts (line 63). *)
Lemma pagingIteration_newLocal (user : string) (s s' : PagingState) (b : bool) :
  pagingIteration user s = Returns (s', b) ->
  newLocalBookmark s' = (positionsToSkip s + positionsRequired s)%Z.
Proof.
  unfold pagingIteration. intros Hrun.
  destruct (_ =? 0)%Z.
  - destruct (nonEmpty _); injection Hrun as <- <-; reflexivity.
  - destruct (_ >=? _)%Z.
    + injection Hrun as <- <-. reflexivity.
    + destruct (fetchSelected _ _ _ _) as [s1 | e] eqn:Hfetch; [| discriminate].
      injection Hrun as <- <-. simpl.
      apply fetchSelected_keeps in Hfetch. simpl in Hfetch. tauto.
Qed.

Lemma pagingIteration_throws (user : string) (s : PagingState) (e : ChainError) :
  pagingIteration user s = Throws e ->
  exists poolHash upper lower id, getDexPosition poolHash upper lower id = Throws e.
Proof.
  unfold pagingIteration. intros Hrun.
  destruct (_ =? 0)%Z.
  - destruct (nonEmpty _); discriminate.
  - destruct (_ >=? _)%Z; [discriminate |].
    destruct (fetchSelected _ _ _ _) as [s1 | e'] eqn:Hfetch; [discriminate |].
    injection Hrun as ->. eapply fetchSelected_throws. exact Hfetch.
Qed.

Lemma pagingIteration_skipping (user : string) (s s' : PagingState) (b : bool) :
  pagingIteration user s = Returns (s', b) ->
  skipping s ->
  skipping s' /\ (b = true -> currentPageBookmark s' = "").
Proof.
  unfold pagingIteration, skipping. intros Hrun [Hge Hreq].
  destruct (_ =? 0)%Z.
  - destruct (nonEmpty _); injection Hrun as <- <-; simpl; repeat split;
      try assumption; discriminate.
  - destruct (_ >=? _)%Z eqn:Hskip.
    + injection Hrun as <- <-. simpl. rewrite Z.geb_le in Hskip.
      repeat split; [lia | intros; apply Hreq; lia | discriminate].
    + destruct (fetchSelected _ _ _ _) as [s1 | e] eqn:Hfetch; [| discriminate].
      injection Hrun as <- <-. simpl.
      apply fetchSelected_keeps in Hfetch. simpl in Hfetch.
      destruct Hfetch as (_ & -> & _). repeat split; [lia | lia | discriminate].
Qed.

(** When the loop ends with positions still to skip, the chain cursor is
    exhausted. *)
Lemma pagingLoop_skipping (fuel : nat) (user : string) (s s' : PagingState) :
  pagingLoop fuel user s = Some (Returns s') ->
  skipping s ->
  skipping s' /\ ((0 < positionsToSkip s')%Z -> currentPageBookmark s' = "").
Proof.
  revert s. induction fuel as [| fuel IH]; intros s Hrun Hinv; simpl in Hrun; [discriminate |].
  destruct (pagingIteration user s) as [[s1 b] | e] eqn:Hpass; [| discriminate].
  destruct (pagingIteration_skipping _ _ _ _ Hpass Hinv) as [Hinv1 Hbreak].
  destruct b.
  - injection Hrun as <-. split; [assumption |]. intros _. apply Hbreak. reflexivity.
  - destruct (pagingCondition s1) eqn:Hcond.
    + eapply IH; eassumption.
    + injection Hrun as <-. split; [assumption |]. intros Hpos.
      unfold pagingCondition in Hcond. apply andb_false_iff in Hcond as [Hreq | Hcur].
      * apply negb_false_iff, Z.eqb_eq in Hreq. destruct Hinv1 as [_ Hne].
        elim (Hne Hpos Hreq).
      * apply nonEmpty_false. assumption.
Qed.

Lemma pagingLoop_throws (fuel : nat) (user : string) (s : PagingState) (e : ChainError) :
  pagingLoop fuel user s = Some (Throws e) ->
  exists poolHash upper lower id, getDexPosition poolHash upper lower id = Throws e.
Proof.
  revert s. induction fuel as [| fuel IH]; intros s Hrun; simpl in Hrun; [discriminate |].
  destruct (pagingIteration user s) as [[s1 b] | e'] eqn:Hpass.
  - destruct b; [discriminate |].
    destruct (pagingCondition s1); [| discriminate]. eapply IH. exact Hrun.
  - injection Hrun as ->. eapply pagingIteration_throws. exact Hpass.
Qed.

Lemma addMetaData_throws (positions : list DexPositionData) (e : ChainError) :
  addMetaDataToUserPositions positions = Throws e ->
  exists key, fetchTokenClass key = Throws e.
Proof.
  induction positions as [| position rest IH]; simpl; [discriminate |].
  destruct (fetchTokenClass (token0ClassKey position)) as [c0 | e0] eqn:H0.
  - destruct (fetchTokenClass (token1ClassKey position)) as [c1 | e1] eqn:H1.
    + destruct (addMetaDataToUserPositions rest) as [tail | e2]; [discriminate |].
      intros [= ->]. apply IH. reflexivity.
    + intros [= ->]. eauto.
  - intros [= ->]. eauto.
Qed.

Lemma initialPaging_skipping (dto : GetUserPositionsDto) :
  (0 <= Number (snd (splitBookmark (bookmark dto))))%Z ->
  limit dto <> 0%Z ->
  skipping (initialPaging dto).
Proof.
  unfold initialPaging, skipping.
  destruct (splitBookmark (bookmark dto)) as [chain local]. simpl. tauto.
Qed.

(** The error is raised exactly when the loop ends with positions still
    to skip. *)
Lemma invalid_bookmark_iff_left_to_skip (fuel : nat) (dto : GetUserPositionsDto) :
  (forall poolHash upper lower id,
      getDexPosition poolHash upper lower id <> Throws invalidBookmark) ->
  (forall key, fetchTokenClass key <> Throws invalidBookmark) ->
  (0 <= Number (snd (splitBookmark (bookmark dto))))%Z ->
  limit dto <> 0%Z ->
  getUserPositions fuel dto = Some (Throws invalidBookmark)
  <-> exists s,
        pagingLoop fuel (user dto) (initialPaging dto) = Some (Returns s)
        /\ (0 < positionsToSkip s)%Z.
Proof.
  intros Hposition Htoken Hlocal Hlimit. unfold getUserPositions. split.
  - destruct (pagingLoop fuel (user dto) (initialPaging dto)) as [[s | e] |] eqn:Hloop;
      [| | discriminate].
    + intros Hfinish. exists s. split; [reflexivity |].
      destruct (pagingLoop_skipping _ _ _ _ Hloop
                  (initialPaging_skipping _ Hlocal Hlimit)) as [[Hge _] _].
      unfold finishPaging in Hfinish.
      destruct (positionsToSkip s =? 0)%Z eqn:Hzero; simpl in Hfinish.
      * destruct (addMetaDataToUserPositions (userPositions s)) as [l | e] eqn:Hmeta;
          [discriminate |].
        injection Hfinish as ->. apply addMetaData_throws in Hmeta as [key Hkey].
        elim (Htoken _ Hkey).
      * apply Z.eqb_neq in Hzero. lia.
    + intros [= ->]. apply pagingLoop_throws in Hloop as (p & u & l & i & Hget).
      elim (Hposition _ _ _ _ Hget).
  - intros (s & -> & Hpos). unfold finishPaging.
    destruct (positionsToSkip s =? 0)%Z eqn:Hzero; [| reflexivity].
    apply Z.eqb_eq in Hzero. lia.
Qed.

(** Without any condition on the request: the error is raised exactly
    when the loop ends with a counter of positions to skip that is not
    zero, whatever its sign and whatever is left of the chain cursor. *)
Lemma invalid_bookmark_iff_nonzero (fuel : nat) (dto : GetUserPositionsDto) :
  (forall poolHash upper lower id,
      getDexPosition poolHash upper lower id <> Throws invalidBookmark) ->
  (forall key, fetchTokenClass key <> Throws invalidBookmark) ->
  getUserPositions fuel dto = Some (Throws invalidBookmark)
  <-> exists s,
        pagingLoop fuel (user dto) (initialPaging dto) = Some (Returns s)
        /\ positionsToSkip s <> 0%Z.
Proof.
  intros Hposition Htoken. unfold getUserPositions. split.
  - destruct (pagingLoop fuel (user dto) (initialPaging dto)) as [[s | e] |] eqn:Hloop;
      [| | discriminate].
    + intros Hfinish. exists s. split; [reflexivity |].
      unfold finishPaging in Hfinish.
      destruct (positionsToSkip s =? 0)%Z eqn:Hzero; simpl in Hfinish.
      * destruct (addMetaDataToUserPositions (userPositions s)) as [l | e] eqn:Hmeta;
          [discriminate |].
        injection Hfinish as ->. apply addMetaData_throws in Hmeta as [key Hkey].
        elim (Htoken _ Hkey).
      * apply Z.eqb_neq in Hzero. exact Hzero.
    + intros [= ->]. apply pagingLoop_throws in Hloop as (p & u & l & i & Hget).
      elim (Hposition _ _ _ _ Hget).
  - intros (s & -> & Hleft). unfold finishPaging.
    destruct (positionsToSkip s =? 0)%Z eqn:Hzero; [| reflexivity].
    apply Z.eqb_eq in Hzero. contradiction.
Qed.

(** The local bookmark with which the loop ends is the one recorded by
    its last pass. *)
Lemma pagingLoop_newLocal (fuel : nat) (user : string) (s s' : PagingState) :
  pagingLoop fuel user s = Some (Returns s') ->
  newLocalBookmark s' =
  (positionsToSkip (lastPassStart fuel user s)
   + positionsRequired (lastPassStart fuel user s))%Z.
Proof.
  revert s. induction fuel as [| fuel IH]; intros s Hrun; simpl in *; [discriminate |].
  destruct (pagingIteration user s) as [[s1 b] | e] eqn:Hpass; [| discriminate].
  destruct b.
  - injection Hrun as <-. eapply pagingIteration_newLocal. exact Hpass.
  - destruct (pagingCondition s1).
    + apply IH. exact Hrun.
    + injection Hrun as <-. eapply pagingIteration_newLocal. exact Hpass.
Qed.

(** A loop that ends in its first pass started that pass in the state
    built from the request. *)
Lemma single_pass_start (fuel : nat) (user : string) (s : PagingState) :
  is_Some (pagingLoop 1 user s) -> lastPassStart fuel user s = s.
Proof.
  destruct fuel as [| fuel]; [reflexivity |]. simpl.
  destruct (pagingIteration user s) as [[s1 b] | e]; [| reflexivity].
  destruct b; [reflexivity |].
  destruct (pagingCondition s1); [| reflexivity].
  intros [x Hx]. discriminate.
Qed.

(** C3, as the code has it.  A successful call hands back the empty
    bookmark when the loop ends with an empty chain cursor and the last
    element consumed; otherwise the pair of the chain cursor reached and
    a local part that is empty when the last element of the final page
    was consumed and else [positionsToSkip + positionsRequired] as they
    stood when the last pass of the loop started.  That sum is
    [localBookmark + limit] of the request when the loop ends in its
    first pass. *)
Theorem returned_bookmark (fuel : nat) (dto : GetUserPositionsDto)
    (res : GetUserPositionsResDto) :
  getUserPositions fuel dto = Some (Returns res) ->
  exists s,
    pagingLoop fuel (user dto) (initialPaging dto) = Some (Returns s)
    /\ let start := lastPassStart fuel (user dto) (initialPaging dto) in
       nextBookMark res =
         (if negb (nonEmpty (currentPageBookmark s)) && isLastIteration s then ""
          else genBookMark (currentPageBookmark s)
                 (if isLastIteration s then ""
                  else pretty (positionsToSkip start + positionsRequired start)%Z))
       /\ (is_Some (pagingLoop 1 (user dto) (initialPaging dto)) ->
           (positionsToSkip start + positionsRequired start)%Z
           = (Number (snd (splitBookmark (bookmark dto))) + limit dto)%Z).
Proof.
  unfold getUserPositions. intros Hcall.
  destruct (pagingLoop fuel (user dto) (initialPaging dto)) as [[s | e] |] eqn:Hloop;
    [| discriminate | discriminate].
  exists s. split; [reflexivity |]. cbv zeta. split.
  - injection Hcall as Hfinish. unfold finishPaging in Hfinish.
    destruct (negb (positionsToSkip s =? 0)%Z); [discriminate |].
    destruct (addMetaDataToUserPositions (userPositions s)) as [l | e]; [| discriminate].
    injection Hfinish as <-. simpl. unfold newBookmark.
    rewrite (pagingLoop_newLocal _ _ _ _ Hloop). reflexivity.
  - intros Hsingle. rewrite (single_pass_start _ _ _ Hsingle).
    unfold initialPaging. destruct (splitBookmark (bookmark dto)). reflexivity.
Qed.

(** C10, as the code has it.  When the local part of the bookmark equals
    the number of positions on the page at the chain cursor, that page
    is not empty and it reports no further cursor, the call succeeds with
    no positions and the bookmark made of an empty chain part and the
    local part [localBookmark + limit], not the empty bookmark. *)
Theorem bookmark_at_page_end (fuel : nat) (dto : GetUserPositionsDto)
    (chainBookmark localBookmark : string) :
  splitBookmark (bookmark dto) = (chainBookmark, localBookmark) ->
  let page := getObjectsByPartialCompositeKeyWithPagination (user dto) chainBookmark in
  Number localBookmark = Z.of_nat (length (flattenPage page)) ->
  (0 < Number localBookmark)%Z ->
  metadataBookmark page = "" ->
  getUserPositions (S fuel) dto =
  Some (Returns (mkResDto [] (genBookMark "" (pretty (Number localBookmark + limit dto)%Z)))).
Proof.
  intros Hsplit page Hlen Hpos Hlast.
  unfold getUserPositions, initialPaging. rewrite Hsplit.
  simpl pagingLoop. unfold pagingIteration. simpl currentPageBookmark.
  fold page. simpl positionsToSkip. simpl positionsRequired.
  rewrite <- Hlen.
  replace (Number localBookmark =? 0)%Z with false by (symmetry; apply Z.eqb_neq; lia).
  replace (Number localBookmark >=? Number localBookmark)%Z with true
    by (symmetry; apply Z.geb_le; lia).
  rewrite Hlast. unfold pagingCondition. simpl.
  rewrite andb_false_r. unfold finishPaging. simpl.
  rewrite Z.sub_diag. simpl. reflexivity.
Qed.

(** With no position on the page and none to skip, the same request is
    answered with the empty bookmark. *)
Lemma bookmark_at_empty_end (fuel : nat) (dto : GetUserPositionsDto)
    (chainBookmark localBookmark : string) :
  splitBookmark (bookmark dto) = (chainBookmark, localBookmark) ->
  let page := getObjectsByPartialCompositeKeyWithPagination (user dto) chainBookmark in
  Number localBookmark = Z.of_nat (length (flattenPage page)) ->
  Number localBookmark = 0%Z ->
  metadataBookmark page = "" ->
  getUserPositions (S fuel) dto = Some (Returns (mkResDto [] "")).
Proof.
  intros Hsplit page Hlen Hzero Hlast.
  unfold getUserPositions, initialPaging. rewrite Hsplit.
  simpl pagingLoop. unfold pagingIteration. simpl currentPageBookmark.
  fold page. rewrite <- Hlen. simpl positionsToSkip. rewrite Hzero, Hlast.
  simpl. unfold finishPaging. simpl. reflexivity.
Qed.

(** *** The bookmark and the data on the ledger *)

Local Abbreviation pageAt := getObjectsByPartialCompositeKeyWithPagination.

Lemma countPositions_cons (page : Page) (pages : list Page) :
  countPositions (page :: pages)
  = (Z.of_nat (length (flattenPage page)) + countPositions pages)%Z.
Proof.
  unfold countPositions. simpl. rewrite length_app. lia.
Qed.

Lemma countPositions_nonneg (pages : list Page) : (0 <= countPositions pages)%Z.
Proof. unfold countPositions. lia. Qed.

(** A pass never adds to the number of positions to skip. *)
Lemma pagingIteration_skip_le (user : string) (s s' : PagingState) (b : bool) :
  pagingIteration user s = Returns (s', b) ->
  (0 <= positionsToSkip s)%Z ->
  (0 <= positionsToSkip s' <= positionsToSkip s)%Z.
Proof.
  unfold pagingIteration. intros Hrun Hge.
  destruct (_ =? 0)%Z.
  - destruct (nonEmpty _); injection Hrun as <- <-; simpl; lia.
  - destruct (_ >=? _)%Z eqn:Hskip.
    + injection Hrun as <- <-. simpl. rewrite Z.geb_le in Hskip. lia.
    + destruct (fetchSelected _ _ _ _) as [s1 | e] eqn:Hfetch; [| discriminate].
      injection Hrun as <- <-. simpl.
      apply fetchSelected_keeps in Hfetch. simpl in Hfetch.
      destruct Hfetch as (_ & -> & _). lia.
Qed.

Lemma pagingLoop_skip_le (fuel : nat) (user : string) (s s' : PagingState) :
  pagingLoop fuel user s = Some (Returns s') ->
  (0 <= positionsToSkip s)%Z ->
  (0 <= positionsToSkip s' <= positionsToSkip s)%Z.
Proof.
  revert s. induction fuel as [| fuel IH]; intros s Hrun Hge; simpl in Hrun; [discriminate |].
  destruct (pagingIteration user s) as [[s1 b] | e] eqn:Hpass; [| discriminate].
  pose proof (pagingIteration_skip_le _ _ _ _ Hpass Hge) as Hle.
  destruct b; [injection Hrun as <-; exact Hle |].
  destruct (pagingCondition s1); [| injection Hrun as <-; exact Hle].
  specialize (IH _ Hrun (proj1 Hle)). lia.
Qed.

(** The four ways through a pass, by the length of the page and the
    number of positions to skip. *)
Lemma pass_over_empty_page (user : string) (s : PagingState) :
  length (flattenPage (pageAt user (currentPageBookmark s))) = 0%nat ->
  nonEmpty (metadataBookmark (pageAt user (currentPageBookmark s))) = true ->
  pagingIteration user s
  = Returns (mkPaging (metadataBookmark (pageAt user (currentPageBookmark s)))
               (positionsToSkip s) (positionsRequired s)
               (positionsToSkip s + positionsRequired s) (isLastIteration s)
               (userPositions s), false).
Proof.
  intros Hlen Hmore. unfold pagingIteration. rewrite Hlen, Hmore. reflexivity.
Qed.

Lemma pass_over_empty_end (user : string) (s : PagingState) :
  length (flattenPage (pageAt user (currentPageBookmark s))) = 0%nat ->
  metadataBookmark (pageAt user (currentPageBookmark s)) = "" ->
  pagingIteration user s
  = Returns (mkPaging "" (positionsToSkip s) (positionsRequired s)
               (positionsToSkip s + positionsRequired s) true (userPositions s), true).
Proof.
  intros Hlen Hlast. unfold pagingIteration. rewrite Hlen, Hlast. reflexivity.
Qed.

Lemma pass_skips_page (user : string) (s : PagingState) :
  length (flattenPage (pageAt user (currentPageBookmark s))) <> 0%nat ->
  (Z.of_nat (length (flattenPage (pageAt user (currentPageBookmark s))))
   <= positionsToSkip s)%Z ->
  pagingIteration user s
  = Returns (mkPaging (metadataBookmark (pageAt user (currentPageBookmark s)))
               (positionsToSkip s
                - Z.of_nat (length (flattenPage (pageAt user (currentPageBookmark s)))))
               (positionsRequired s)
               (positionsToSkip s + positionsRequired s) (isLastIteration s)
               (userPositions s), false).
Proof.
  intros Hlen Hskip. unfold pagingIteration.
  replace (_ =? 0)%Z with false by (symmetry; apply Z.eqb_neq; lia).
  replace (_ >=? _)%Z with true by (symmetry; apply Z.geb_le; lia).
  reflexivity.
Qed.

Lemma pass_reads_page (user : string) (s s' : PagingState) (b : bool) :
  (positionsToSkip s
   < Z.of_nat (length (flattenPage (pageAt user (currentPageBookmark s)))))%Z ->
  (0 <= positionsToSkip s)%Z ->
  pagingIteration user s = Returns (s', b) ->
  positionsToSkip s' = 0%Z.
Proof.
  intros Hless Hge. unfold pagingIteration.
  replace (_ =? 0)%Z with false by (symmetry; apply Z.eqb_neq; lia).
  replace (_ >=? _)%Z with false
    by (symmetry; apply not_true_iff_false; rewrite Z.geb_le; lia).
  destruct (fetchSelected _ _ _ _) as [s1 | e] eqn:Hfetch; [| discriminate].
  intros [= <- <-]. simpl. apply fetchSelected_keeps in Hfetch. simpl in Hfetch. tauto.
Qed.

(** Once nothing is left to skip, nothing is left to skip at the end. *)
Lemma loop_after_reading (fuel : nat) (user : string) (s s1 s' : PagingState) (b : bool) :
  pagingIteration user s = Returns (s1, b) ->
  positionsToSkip s1 = 0%Z ->
  pagingLoop (S fuel) user s = Some (Returns s') ->
  positionsToSkip s' = 0%Z.
Proof.
  intros Hpass Hzero Hloop. simpl in Hloop. rewrite Hpass in Hloop.
  destruct b; [injection Hloop as <-; exact Hzero |].
  destruct (pagingCondition s1); [| injection Hloop as <-; exact Hzero].
  apply pagingLoop_skip_le in Hloop; lia.
Qed.

Lemma skip_through_pages (user cursor : string) (pages : list Page) :
  scan user cursor pages ->
  forall fuel s,
    currentPageBookmark s = cursor ->
    (0 <= positionsToSkip s)%Z ->
    positionsRequired s <> 0%Z ->
    ((countPositions pages < positionsToSkip s)%Z ->
     (length pages <= fuel)%nat ->
     exists s', pagingLoop fuel user s = Some (Returns s')
                /\ positionsToSkip s' = (positionsToSkip s - countPositions pages)%Z)
    /\ ((positionsToSkip s <= countPositions pages)%Z ->
        forall s', pagingLoop fuel user s = Some (Returns s') -> positionsToSkip s' = 0%Z).
Proof.
  induction 1 as [cursor Hlast | cursor pages Hmore Hscan IH];
    intros fuel s Hcursor Hge Hreq; subst cursor.
  - rewrite countPositions_cons. change (countPositions []) with 0%Z.
    destruct (length (flattenPage (pageAt user (currentPageBookmark s)))) as [| n] eqn:Hlen.
    + pose proof (pass_over_empty_end user s Hlen Hlast) as Hpass. split.
      * intros Hpast Hfuel. destruct fuel as [| fuel]; [simpl in Hfuel; lia |].
        eexists. simpl. rewrite Hpass. split; [reflexivity |]. simpl. lia.
      * intros Hwithin s' Hloop. destruct fuel as [| fuel]; [discriminate |].
        simpl in Hloop. rewrite Hpass in Hloop. injection Hloop as <-. simpl. lia.
    + split.
      * intros Hpast Hfuel. destruct fuel as [| fuel]; [simpl in Hfuel; lia |].
        assert (Hpass := pass_skips_page user s). rewrite Hlen in Hpass.
        specialize (Hpass ltac:(discriminate) ltac:(lia)).
        eexists. simpl. rewrite Hpass. unfold pagingCondition. simpl.
        rewrite Hlast. simpl. rewrite andb_false_r. split; [reflexivity |]. simpl. lia.
      * intros Hwithin s' Hloop. destruct fuel as [| fuel]; [discriminate |].
        destruct (Z.eq_dec (positionsToSkip s) (Z.of_nat (S n))) as [Hall | Hsome].
        -- assert (Hpass := pass_skips_page user s). rewrite Hlen in Hpass.
           specialize (Hpass ltac:(discriminate) ltac:(lia)).
           eapply loop_after_reading; [exact Hpass | simpl; lia | exact Hloop].
        -- destruct (pagingIteration user s) as [[s1 b] | e] eqn:Hpass;
             [| simpl in Hloop; rewrite Hpass in Hloop; discriminate].
           eapply loop_after_reading; [exact Hpass | | exact Hloop].
           eapply pass_reads_page; [| exact Hge | exact Hpass]. rewrite Hlen. lia.
  - rewrite countPositions_cons. pose proof (countPositions_nonneg pages) as Hcount.
    destruct (length (flattenPage (pageAt user (currentPageBookmark s)))) as [| n] eqn:Hlen.
    + pose proof (pass_over_empty_page user s Hlen Hmore) as Hpass.
      set (s1 := mkPaging _ _ _ _ _ _) in Hpass.
      destruct (IH fuel s1 eq_refl Hge Hreq) as [IHpast IHwithin].
      assert (Hcond : pagingCondition s1 = true).
      { unfold pagingCondition. simpl. rewrite Hmore, andb_true_r.
        apply negb_true_iff, Z.eqb_neq. exact Hreq. }
      split.
      * intros Hpast Hfuel. destruct fuel as [| fuel]; [simpl in Hfuel; lia |].
        destruct (IH fuel s1 eq_refl Hge Hreq) as [IHp _].
        destruct IHp as (s' & Hloop & Hskip); [simpl; lia | simpl in Hfuel; lia |].
        exists s'. simpl. rewrite Hpass, Hcond. split; [exact Hloop |].
        rewrite Hskip. simpl. lia.
      * intros Hwithin s' Hloop. destruct fuel as [| fuel]; [discriminate |].
        simpl in Hloop. rewrite Hpass, Hcond in Hloop.
        destruct (IH fuel s1 eq_refl Hge Hreq) as [_ IHw].
        apply IHw; [simpl; lia | exact Hloop].
    + destruct (Z_le_gt_dec (Z.of_nat (S n)) (positionsToSkip s)) as [Hskip | Hread].
      * assert (Hpass := pass_skips_page user s). rewrite Hlen in Hpass.
        specialize (Hpass ltac:(discriminate) Hskip).
        set (s1 := mkPaging _ _ _ _ _ _) in Hpass.
        assert (Hcond : pagingCondition s1 = true).
        { unfold pagingCondition. simpl. rewrite Hmore, andb_true_r.
          apply negb_true_iff, Z.eqb_neq. exact Hreq. }
        split.
        -- intros Hpast Hfuel. destruct fuel as [| fuel]; [simpl in Hfuel; lia |].
           destruct (IH fuel s1 eq_refl ltac:(simpl; lia) Hreq) as [IHp _].
           destruct IHp as (s' & Hloop & Hleft); [simpl; lia | simpl in Hfuel; lia |].
           exists s'. simpl. rewrite Hpass, Hcond. split; [exact Hloop |].
           rewrite Hleft. simpl. lia.
        -- intros Hwithin s' Hloop. destruct fuel as [| fuel]; [discriminate |].
           simpl in Hloop. rewrite Hpass, Hcond in Hloop.
           destruct (IH fuel s1 eq_refl ltac:(simpl; lia) Hreq) as [_ IHw].
           apply IHw; [simpl; lia | exact Hloop].
      * split; [intros Hpast; lia |].
        intros _ s' Hloop. destruct fuel as [| fuel]; [discriminate |].
        destruct (pagingIteration user s) as [[s1 b] | e] eqn:Hpass;
          [| simpl in Hloop; rewrite Hpass in Hloop; discriminate].
        eapply loop_after_reading; [exact Hpass | | exact Hloop].
        eapply pass_reads_page; [| exact Hge | exact Hpass]. rewrite Hlen. lia.
Qed.

(** Read against the ledger: when the scan from the chain cursor of the
    bookmark ends after finitely many pages, the error is raised exactly
    when the local part of the bookmark is larger than the number of
    positions on those pages. *)
Lemma invalid_bookmark_iff_past_the_end
    (fuel : nat) (dto : GetUserPositionsDto) (pages : list Page) :
  (forall poolHash upper lower id,
      getDexPosition poolHash upper lower id <> Throws invalidBookmark) ->
  (forall key, fetchTokenClass key <> Throws invalidBookmark) ->
  (0 <= Number (snd (splitBookmark (bookmark dto))))%Z ->
  limit dto <> 0%Z ->
  scan (user dto) (fst (splitBookmark (bookmark dto))) pages ->
  (length pages <= fuel)%nat ->
  getUserPositions fuel dto = Some (Throws invalidBookmark)
  <-> (countPositions pages < Number (snd (splitBookmark (bookmark dto))))%Z.
Proof.
  intros Hposition Htoken Hlocal Hlimit Hscan Hfuel.
  rewrite (invalid_bookmark_iff_left_to_skip fuel dto Hposition Htoken Hlocal Hlimit).
  assert (Hinit : currentPageBookmark (initialPaging dto) = fst (splitBookmark (bookmark dto))
                  /\ positionsToSkip (initialPaging dto)
                     = Number (snd (splitBookmark (bookmark dto)))
                  /\ positionsRequired (initialPaging dto) = limit dto).
  { unfold initialPaging. destruct (splitBookmark (bookmark dto)). repeat split. }
  destruct Hinit as (Hcursor & Hskip & Hrequired).
  destruct (skip_through_pages _ _ _ Hscan fuel (initialPaging dto) Hcursor
              ltac:(rewrite Hskip; exact Hlocal) ltac:(rewrite Hrequired; exact Hlimit))
    as [Hpast Hwithin].
  rewrite Hskip in Hpast, Hwithin. split.
  - intros (s & Hloop & Hpos).
    destruct (Z_lt_le_dec (countPositions pages)
                (Number (snd (splitBookmark (bookmark dto))))) as [Hlt | Hle];
      [exact Hlt |].
    rewrite (Hwithin Hle s Hloop) in Hpos. lia.
  - intros Hlt. destruct (Hpast Hlt Hfuel) as (s & Hloop & Hleft).
    exists s. split; [exact Hloop | lia].
Qed.

(** C7, as the code has it.  With collaborators that do not raise this
    error themselves, [getUserPositions] raises "Invalid bookmark" if and
    only if the paging loop ends with a counter of positions to skip
    other than zero (line 120), whatever its sign and whether or not the
    chain cursor is exhausted.  For a bookmark whose local part is a
    count, zero or more, and a limit other than zero, that is if and only
    if the loop ends with the chain cursor exhausted and the counter
    strictly positive; and, when the scan from the chain cursor of the
    bookmark ends after finitely many pages, if and only if the local
    part is larger than the number of positions on those pages. *)
Theorem invalid_bookmark_iff_skips_past_data
    (fuel : nat) (dto : GetUserPositionsDto) :
  (forall poolHash upper lower id,
      getDexPosition poolHash upper lower id <> Throws invalidBookmark) ->
  (forall key, fetchTokenClass key <> Throws invalidBookmark) ->
  (getUserPositions fuel dto = Some (Throws invalidBookmark)
   <-> exists s,
         pagingLoop fuel (user dto) (initialPaging dto) = Some (Returns s)
         /\ positionsToSkip s <> 0%Z)
  /\ ((0 <= Number (snd (splitBookmark (bookmark dto))))%Z ->
      limit dto <> 0%Z ->
      (getUserPositions fuel dto = Some (Throws invalidBookmark)
       <-> exists s,
             pagingLoop fuel (user dto) (initialPaging dto) = Some (Returns s)
             /\ currentPageBookmark s = ""
             /\ (0 < positionsToSkip s)%Z)
      /\ (forall pages,
             scan (user dto) (fst (splitBookmark (bookmark dto))) pages ->
             (length pages <= fuel)%nat ->
             getUserPositions fuel dto = Some (Throws invalidBookmark)
             <-> (countPositions pages
                  < Number (snd (splitBookmark (bookmark dto))))%Z)).
Proof.
  intros Hposition Htoken.
  split; [apply invalid_bookmark_iff_nonzero; assumption |].
  intros Hlocal Hlimit. split.
  - rewrite (invalid_bookmark_iff_left_to_skip fuel dto Hposition Htoken Hlocal Hlimit).
    split.
    + intros (s & Hloop & Hpos). exists s. split; [exact Hloop |].
      split; [| exact Hpos].
      apply (pagingLoop_skipping _ _ _ _ Hloop (initialPaging_skipping _ Hlocal Hlimit)).
      exact Hpos.
    + intros (s & Hloop & _ & Hpos). exists s. split; assumption.
  - intros pages Hscan Hfuel.
    apply invalid_bookmark_iff_past_the_end; assumption.
Qed.

End PagingFacts.

(** ** Protocol-fee configuration *)

Section FeeConfigFacts.

Import FeeConfig.
Variable validateTokenOrder : string -> string -> Completion (string * string).
Variable createCompositeKey : string -> string -> Q -> string.
Variable poolNotFoundMessage : string -> string.
Variable feeOutOfRangeMessage : string.

Local Open Scope Q_scope.

Local Abbreviation configure :=
  (configurePoolDexFee validateTokenOrder createCompositeKey poolNotFoundMessage
     feeOutOfRangeMessage).

Lemma in_range_spec (f : Q) : Qle_bool 0 f && Qle_bool f 1 = true <-> 0 <= f /\ f <= 1.
Proof. rewrite andb_true_iff, !Qle_bool_iff. reflexivity. Qed.

(** C8.  [configurePoolDexFee] fails with NotFound when the protocol-fee
    configuration is absent, and with Unauthorized when it exists but
    the caller is not among its authorities; for an authorised caller
    and an existing pool it fails with a Validation error when the
    requested fee is outside [[0, 1]], and otherwise stores the pool with
    the new protocol fee and returns that fee.  A call that fails leaves
    the context as it was. *)
Theorem configurePoolDexFee_outcomes (ctx : Context) (dto : ConfigurePoolDexFeeDto) :
  (feeConfig ctx = None -> configure ctx dto = (Throws configNotDefined, ctx))
  /\ (forall config,
        feeConfig ctx = Some config ->
        callingUser ctx ∉ authorities config ->
        configure ctx dto = (Throws (notAuthorized (callingUser ctx)), ctx))
  /\ (forall config t0 t1 pool,
        feeConfig ctx = Some config ->
        callingUser ctx ∈ authorities config ->
        validateTokenOrder (dtoToken0 dto) (dtoToken1 dto) = Returns (t0, t1) ->
        pools ctx !! createCompositeKey t0 t1 (dtoFee dto) = Some pool ->
        (~ (0 <= protocolFee dto /\ protocolFee dto <= 1) ->
         configure ctx dto
         = (Throws (mkError ValidationFailedError feeOutOfRangeMessage), ctx))
        /\ (0 <= protocolFee dto /\ protocolFee dto <= 1 ->
            exists ctx',
              configure ctx dto = (Returns (mkResDto (protocolFee dto)), ctx')
              /\ pools ctx' !! createCompositeKey t0 t1 (dtoFee dto)
                 = Some (set_protocolFees (protocolFee dto) pool)
              /\ protocolFees (set_protocolFees (protocolFee dto) pool) = protocolFee dto
              /\ (forall key, key <> createCompositeKey t0 t1 (dtoFee dto) ->
                              pools ctx' !! key = pools ctx !! key))).
Proof.
  unfold configurePoolDexFee, fetchDexProtocolFeeConfig. repeat split.
  - intros ->. reflexivity.
  - intros config -> Hnot. rewrite bool_decide_eq_false_2 by assumption. reflexivity.
  - rename H into Hconfig, H0 into Hauth, H1 into Horder, H2 into Hpool.
    intros Hout. rewrite Hconfig, bool_decide_eq_true_2 by assumption. simpl.
    rewrite Horder. unfold getObjectByKey. rewrite Hpool. unfold configureProtocolFee.
    destruct (Qle_bool 0 (protocolFee dto) && Qle_bool (protocolFee dto) 1) eqn:Hrange;
      [| reflexivity].
    apply in_range_spec in Hrange. contradiction.
  - rename H into Hconfig, H0 into Hauth, H1 into Horder, H2 into Hpool.
    intros Hin. rewrite Hconfig, bool_decide_eq_true_2 by assumption. simpl.
    rewrite Horder. unfold getObjectByKey. rewrite Hpool. unfold configureProtocolFee.
    rewrite (proj2 (in_range_spec _) Hin).
    eexists. split; [reflexivity |]. unfold putChainObject. simpl.
    split; [apply lookup_insert_eq |]. split; [reflexivity |].
    intros key Hkey. apply lookup_insert_ne. congruence.
Qed.

End FeeConfigFacts.

(** ** Argument checking *)

Section FormatFacts.

Import Format.

Lemma requirePosititve_returns (params : list JsValue) :
  requirePosititve params = Returns tt
  <-> Forall (fun v => isNegativeDecimal v = false) params.
Proof.
  induction params as [| v rest IH]; simpl.
  - split; [constructor | reflexivity].
  - rewrite Forall_cons. destruct v as [b | | | | |]; simpl;
      try (rewrite IH; tauto).
    destruct (ltZero b); [| rewrite IH; tauto].
    split; [discriminate | intros [Hfalse _]; discriminate].
Qed.

Lemma requirePosititve_throws (params : list JsValue) :
  requirePosititve params = Throws uintOutOfBounds
  <-> Exists (fun v => isNegativeDecimal v = true) params.
Proof.
  induction params as [| v rest IH]; simpl.
  - split; [discriminate | intros H; inversion H].
  - rewrite Exists_cons. destruct v as [b | | | | |]; simpl;
      try (rewrite IH; split; [tauto | intros [H | H]; [discriminate | exact H]]).
    destruct (ltZero b); [tauto |].
    rewrite IH. split; [tauto | intros [H | H]; [discriminate | exact H]].
Qed.

Lemma requirePosititve_total (params : list JsValue) :
  requirePosititve params = Returns tt \/ requirePosititve params = Throws uintOutOfBounds.
Proof.
  induction params as [| v rest IH]; simpl; [left; reflexivity |].
  destruct v as [b | | | | |]; try exact IH.
  destruct (ltZero b); [right; reflexivity | exact IH].
Qed.

(** C9, as the code has it.  [requirePosititve] passes over every
    argument that is not a [BigNumber]; it returns when no argument is a
    decimal below zero, zero itself included among the accepted values;
    and when some argument is a decimal below zero it throws, the error
    being a ConflictError with the message "Uint Out of Bounds error
    :Uint". *)
Theorem requirePosititve_outcomes (params : list JsValue) :
  requirePosititve (List.filter isBigNumber params) = requirePosititve params
  /\ (requirePosititve params = Returns tt
      <-> Forall (fun v => isNegativeDecimal v = false) params)
  /\ (requirePosititve params = Throws uintOutOfBounds
      <-> Exists (fun v => isNegativeDecimal v = true) params)
  /\ (forall e, requirePosititve params = Throws e ->
                errKind e = ConflictError
                /\ errMessage e = "Uint Out of Bounds error :Uint")
  /\ requirePosititve [JsBigNumber (Finite 0)] = Returns tt.
Proof.
  split; [| split; [apply requirePosititve_returns | split; [| split]]].
  - induction params as [| v rest IH]; simpl; [reflexivity |].
    destruct v as [b | | | | |]; simpl; try exact IH.
    destruct (ltZero b); [reflexivity | exact IH].
  - apply requirePosititve_throws.
  - intros e He. destruct (requirePosititve_total params) as [Hok | Hthrow].
    + congruence.
    + rewrite Hthrow in He. injection He as <-. split; reflexivity.
  - reflexivity.
Qed.

End FormatFacts.

(** ** Accounts of a run of the swap engine *)

Section SwapAccounts.

Context {Ledger : Type} `{Api : DexApi Ledger}.
Variable pool : Pool.
Variable sqrtPriceLimit : Q.
Variables exactInput zeroForOne : bool.

Local Open Scope Q_scope.

Local Abbreviation iteration := (swapIteration pool sqrtPriceLimit exactInput zeroForOne).
Local Abbreviation run := (processSwapSteps pool sqrtPriceLimit exactInput zeroForOne).
Local Abbreviation starts := (iterationStarts pool sqrtPriceLimit exactInput zeroForOne).
Local Abbreviation fees := (afterFees pool sqrtPriceLimit exactInput zeroForOne).
Local Abbreviation next := (nextTick pool zeroForOne).
Local Abbreviation stepOf := (iterationStep pool sqrtPriceLimit zeroForOne).
Local Abbreviation total := (totalOver pool sqrtPriceLimit zeroForOne).

Lemma afterFees_calculated (t : Z) (s : SwapState) :
  amountCalculated (fees t s) =
  if exactInput
  then amountCalculated s - stepAmountOut (stepResult pool sqrtPriceLimit zeroForOne t s)
  else amountCalculated s
       + (stepAmountIn (stepResult pool sqrtPriceLimit zeroForOne t s)
          + stepFeeAmount (stepResult pool sqrtPriceLimit zeroForOne t s)).
Proof.
  unfold afterFees, applyProtocolFee, updateFeeGrowth, adjustAmounts.
  destruct (isGreaterThan (protocolFees pool) 0), exactInput; simpl;
    destruct (isGreaterThan (liquidity s) 0); reflexivity.
Qed.

Lemma afterFees_tick (t : Z) (s : SwapState) : tick (fees t s) = tick s.
Proof.
  unfold afterFees, applyProtocolFee, updateFeeGrowth, adjustAmounts.
  destruct (isGreaterThan (protocolFees pool) 0), exactInput; simpl;
    destruct (isGreaterThan (liquidity s) 0); reflexivity.
Qed.

Lemma moveTick_calculated (ledger : Ledger) (p0 p1 : Q) (t : Z) (i : bool)
    (s : SwapState) :
  amountCalculated (finalState (moveTick pool zeroForOne ledger p0 p1 t i s))
  = amountCalculated s.
Proof.
  unfold moveTick.
  destruct (isEqualTo (sqrtPrice s) p1).
  - destruct i; [| reflexivity].
    destruct (crossingFeeGrowth pool zeroForOne s) as [a b].
    destruct (fetchOrCreateAndCrossTick ledger (genPoolHash pool) t a b) as [[ln | e] l'];
      reflexivity.
  - destruct (negb (isEqualTo (sqrtPrice s) p0)); reflexivity.
Qed.

(** The fields of the state after an iteration that has passed the
    bounds test, whether or not the tick crossing throws. *)
Lemma iteration_accounts (ledger : Ledger) (state : SwapState) :
  outOfBounds (next state) = false ->
  let s' := finalState (iteration ledger state) in
  amountSpecifiedRemaining s' = amountSpecifiedRemaining (fees (next state) state)
  /\ amountCalculated s' = amountCalculated (fees (next state) state)
  /\ protocolFee s' = protocolFee (fees (next state) state)
  /\ sqrtPrice s' = sqrtPrice (fees (next state) state).
Proof.
  intros Hin. cbv zeta. rewrite swapIteration_eq, Hin.
  destruct (moveTick_keeps pool zeroForOne ledger (sqrtPrice state)
              (tickToSqrtPrice (next state)) (next state)
              (nextInitialised pool zeroForOne state) (fees (next state) state))
    as [Hprice Hremaining].
  destruct (moveTick_fees pool zeroForOne ledger (sqrtPrice state)
              (tickToSqrtPrice (next state)) (next state)
              (nextInitialised pool zeroForOne state) (fees (next state) state))
    as [_ Hprotocol].
  repeat split; try assumption. apply moveTick_calculated.
Qed.

(** X1.  The amounts of a completed run add up: for an exact-input swap
    the amount remaining has gone down by the sum of [amountIn +
    feeAmount] over the steps and the amount calculated by the sum of
    [amountOut]; for an exact-output swap the amount remaining has gone
    up by the sum of [amountOut] and the amount calculated by the sum of
    [amountIn + feeAmount]. *)
Theorem amounts_over_run
    (fuel : nat) (ledger : Ledger) (state : SwapState) (r : SwapRun Ledger) :
  run fuel ledger state = Some r ->
  thrown r = None ->
  let paidIn := total (fun step => stepAmountIn step + stepFeeAmount step)
                  (starts fuel ledger state) in
  let paidOut := total stepAmountOut (starts fuel ledger state) in
  if exactInput
  then amountSpecifiedRemaining (finalState r) == amountSpecifiedRemaining state - paidIn
       /\ amountCalculated (finalState r) == amountCalculated state - paidOut
  else amountSpecifiedRemaining (finalState r) == amountSpecifiedRemaining state + paidOut
       /\ amountCalculated (finalState r) == amountCalculated state + paidIn.
Proof.
  revert ledger state.
  induction fuel as [| fuel IH]; intros ledger state Hrun Hnone; simpl in *.
  - destruct (loopCondition sqrtPriceLimit state); [discriminate |].
    injection Hrun as <-. simpl. destruct exactInput; split; ring.
  - destruct (loopCondition sqrtPriceLimit state).
    + destruct (thrown (iteration ledger state)) eqn:Hthrown.
      * injection Hrun as <-. congruence.
      * pose proof (completed_iteration_in_bounds _ _ _ _ _ _ Hthrown) as Hin.
        destruct (iteration_accounts ledger state Hin) as (Hrem & Hcalc & _).
        specialize (IH _ _ Hrun Hnone). cbv zeta in IH. simpl.
        rewrite Hrem, Hcalc, afterFees_remaining, afterFees_calculated in IH.
        unfold iterationStep. fold (next state).
        destruct exactInput; destruct IH as [IHrem IHcalc]; split;
          first [rewrite IHrem | rewrite IHcalc]; ring.
    + injection Hrun as <-. simpl. destruct exactInput; split; ring.
Qed.

Lemma totalOver_fees_nonneg (l : list (Ledger * SwapState)) :
  (forall p t q a f, 0 <= stepFeeAmount (computeSwapStep p t q a f)) ->
  0 <= total stepFeeAmount l.
Proof.
  intros Hfee. unfold totalOver.
  induction l as [| x l IH]; simpl; [apply Qle_refl |].
  assert (Hx : 0 <= stepFeeAmount (stepOf (snd x))) by apply Hfee.
  lra.
Qed.

(** X2.  Over a completed run the protocol fee of the swap grows by the
    pool's fraction of all the fees of the steps, and not at all in a
    pool whose fraction is not positive; with fees that are not negative
    and a fraction of at most one it never decreases and takes at most
    the fees. *)
Theorem protocol_fee_over_run
    (fuel : nat) (ledger : Ledger) (state : SwapState) (r : SwapRun Ledger) :
  run fuel ledger state = Some r ->
  thrown r = None ->
  let allFees := total stepFeeAmount (starts fuel ledger state) in
  protocolFee (finalState r)
  == protocolFee state
     + (if isGreaterThan (protocolFees pool) 0 then allFees * protocolFees pool else 0)
  /\ ((forall p t l a f, 0 <= stepFeeAmount (computeSwapStep p t l a f)) ->
      protocolFees pool <= 1 ->
      protocolFee state <= protocolFee (finalState r)
      /\ protocolFee (finalState r) <= protocolFee state + allFees).
Proof.
  intros Hrun Hnone allFees.
  assert (Hsum : protocolFee (finalState r)
                 == protocolFee state
                    + (if isGreaterThan (protocolFees pool) 0
                       then allFees * protocolFees pool else 0)).
  { subst allFees. revert ledger state Hrun.
    induction fuel as [| fuel IH]; intros ledger state Hrun; simpl in *.
    - destruct (loopCondition sqrtPriceLimit state); [discriminate |].
      injection Hrun as <-. simpl. destruct (isGreaterThan _ _); ring.
    - destruct (loopCondition sqrtPriceLimit state).
      + destruct (thrown (iteration ledger state)) eqn:Hthrown.
        * injection Hrun as <-. congruence.
        * pose proof (completed_iteration_in_bounds _ _ _ _ _ _ Hthrown) as Hin.
          destruct (iteration_accounts ledger state Hin) as (_ & _ & Hprot & _).
          rewrite (IH _ _ Hrun). simpl. rewrite Hprot, afterFees_protocolFee.
          unfold iterationStep. fold (next state).
          destruct (isGreaterThan (protocolFees pool) 0); ring.
      + injection Hrun as <-. simpl. destruct (isGreaterThan _ _); ring. }
  split; [exact Hsum |].
  intros Hfee Hfrac.
  assert (Hall : 0 <= allFees) by (apply totalOver_fees_nonneg; exact Hfee).
  rewrite Hsum. destruct (isGreaterThan (protocolFees pool) 0) eqn:Hgt.
  - apply isGreaterThan_spec in Hgt. split; nra.
  - split; lra.
Qed.

(** X3.  A run that returns has left the loop by its condition: the
    amount remaining is zero to 18 decimals, or the price stands at the
    limit. *)
Theorem returned_run_has_ended
    (fuel : nat) (ledger : Ledger) (state : SwapState) (r : SwapRun Ledger) :
  run fuel ledger state = Some r ->
  thrown r = None ->
  f18 (amountSpecifiedRemaining (finalState r)) == 0
  \/ sqrtPrice (finalState r) == sqrtPriceLimit.
Proof.
  revert ledger state.
  induction fuel as [| fuel IH]; intros ledger state Hrun Hnone; simpl in *.
  - destruct (loopCondition sqrtPriceLimit state) eqn:Hcond; [discriminate |].
    injection Hrun as <-. simpl. unfold loopCondition in Hcond.
    apply andb_false_iff in Hcond as [H | H]; apply negb_false_iff, isEqualTo_spec in H;
      [left | right]; exact H.
  - destruct (loopCondition sqrtPriceLimit state) eqn:Hcond.
    + destruct (thrown (iteration ledger state)) eqn:Hthrown.
      * injection Hrun as <-. congruence.
      * eapply IH; eassumption.
    + injection Hrun as <-. simpl. unfold loopCondition in Hcond.
      apply andb_false_iff in Hcond as [H | H]; apply negb_false_iff, isEqualTo_spec in H;
        [left | right]; exact H.
Qed.

(** A state in which the loop does not start is returned as it is,
    with the ledger, whatever the fuel. *)
Lemma nothing_to_swap (fuel : nat) (ledger : Ledger) (state : SwapState) :
  f18 (amountSpecifiedRemaining state) == 0 \/ sqrtPrice state == sqrtPriceLimit ->
  run fuel ledger state = Some (mkSwapRun None state ledger).
Proof.
  intros Hend.
  assert (Hcond : loopCondition sqrtPriceLimit state = false).
  { unfold loopCondition. apply andb_false_iff.
    destruct Hend as [H | H]; apply isEqualTo_spec in H; rewrite H; auto. }
  destruct fuel; simpl; rewrite Hcond; reflexivity.
Qed.

(** What an iteration that throws leaves behind. *)
Lemma thrown_iteration (ledger : Ledger) (state : SwapState) (e : ChainError) :
  thrown (iteration ledger state) = Some e ->
  (outOfBounds (next state) = true
   /\ e = insufficientLiquidity
   /\ finalState (iteration ledger state) = state
   /\ finalLedger (iteration ledger state) = ledger)
  \/ (outOfBounds (next state) = false
      /\ reachesNextTick pool sqrtPriceLimit zeroForOne exactInput state = true
      /\ nextInitialised pool zeroForOne state = true
      /\ crossingCall pool sqrtPriceLimit zeroForOne exactInput ledger state
         = (Throws e, finalLedger (iteration ledger state))
      /\ finalState (iteration ledger state) = fees (next state) state).
Proof.
  rewrite swapIteration_eq.
  destruct (outOfBounds (next state)) eqn:Hout.
  - simpl. intros [= <-]. left. repeat split.
  - intros Hthrown. right. split; [reflexivity |].
    unfold reachesNextTick, crossingCall. fold (next state).
    unfold moveTick in *.
    destruct (isEqualTo (sqrtPrice (fees (next state) state))
                (tickToSqrtPrice (next state))).
    + destruct (nextInitialised pool zeroForOne state); [| discriminate].
      unfold crossingFeeGrowth in *. simpl fst. simpl snd.
      destruct (fetchOrCreateAndCrossTick _ _ _ _ _) as [[ln | e'] l']; [discriminate |].
      simpl in Hthrown. injection Hthrown as ->. repeat split.
    + destruct (negb _); discriminate.
Qed.

(** X4.  A run throws nothing of its own but the Conflict error of the
    bounds test, which leaves the state and the ledger of the iteration
    it stopped in; every other error is one that
    [fetchOrCreateAndCrossTick] threw while an initialised tick was
    crossed, and then the amounts and fees of that step are booked in the
    state while its liquidity and tick pointer are not moved. *)
Theorem thrown_run
    (fuel : nat) (ledger : Ledger) (state : SwapState) (r : SwapRun Ledger)
    (e : ChainError) :
  run fuel ledger state = Some r ->
  thrown r = Some e ->
  exists l s,
    (l, s) ∈ starts fuel ledger state
    /\ ((e = insufficientLiquidity /\ outOfBounds (next s) = true
         /\ finalState r = s /\ finalLedger r = l)
        \/ (outOfBounds (next s) = false
            /\ nextInitialised pool zeroForOne s = true
            /\ crossingCall pool sqrtPriceLimit zeroForOne exactInput l s
               = (Throws e, finalLedger r)
            /\ finalState r = fees (next s) s
            /\ liquidity (finalState r) = liquidity s
            /\ tick (finalState r) = tick s)).
Proof.
  revert ledger state.
  induction fuel as [| fuel IH]; intros ledger state Hrun Hthrown; simpl in *.
  - destruct (loopCondition sqrtPriceLimit state); [discriminate |].
    injection Hrun as <-. discriminate.
  - destruct (loopCondition sqrtPriceLimit state).
    + destruct (thrown (iteration ledger state)) as [e' |] eqn:Hiter.
      * injection Hrun as <-. rewrite Hiter in Hthrown. injection Hthrown as ->.
        exists ledger, state. split; [apply list_elem_of_here |].
        destruct (thrown_iteration _ _ _ Hiter)
          as [(Hout & He & Hs & Hl) | (Hin & _ & Hinit & Hcall & Hs)].
        -- left. repeat split; assumption.
        -- right. repeat split; try assumption.
           ++ rewrite Hs. apply afterFees_liquidity.
           ++ rewrite Hs. apply afterFees_tick.
      * destruct (IH _ _ Hrun Hthrown) as (l & s & Hin & Hcases).
        exists l, s. split; [apply list_elem_of_further; exact Hin | exact Hcases].
    + injection Hrun as <-. discriminate.
Qed.

(** X5.  The price target of a step is the price of the next tick or
    the limit, whichever the swap meets first: going down it is the
    larger of the two, going up the smaller, so that no step is asked to
    go beyond the limit. *)
Theorem step_target_within_limit (state : SwapState) :
  let sqrtPriceNext := tickToSqrtPrice (next state) in
  let target := stepTarget sqrtPriceLimit zeroForOne sqrtPriceNext in
  stepOf state
  = computeSwapStep (sqrtPrice state) target (liquidity state)
      (amountSpecifiedRemaining state) (fee pool)
  /\ (target = sqrtPriceNext \/ target = sqrtPriceLimit)
  /\ (if zeroForOne
      then sqrtPriceLimit <= target /\ sqrtPriceNext <= target
      else target <= sqrtPriceLimit /\ target <= sqrtPriceNext).
Proof.
  cbv zeta. split; [reflexivity |]. unfold stepTarget.
  destruct zeroForOne.
  - destruct (isLessThan _ _) eqn:Hcmp.
    + apply isLessThan_spec in Hcmp. split; [right; reflexivity |]. split; lra.
    + apply isGreaterThan_false in Hcmp. split; [left; reflexivity |]. split; lra.
  - destruct (isGreaterThan _ _) eqn:Hcmp.
    + apply isGreaterThan_spec in Hcmp. split; [right; reflexivity |]. split; lra.
    + apply isGreaterThan_false in Hcmp. split; [left; reflexivity |]. split; lra.
Qed.

(** X6.  An iteration whose step ends short of the next tick crosses
    nothing: it does not throw, the ledger and the liquidity stay as
    they are, and the tick pointer is recomputed from the new price when
    the price has moved and left alone when it has not. *)
Theorem tick_not_reached (ledger : Ledger) (state : SwapState) :
  outOfBounds (next state) = false ->
  reachesNextTick pool sqrtPriceLimit zeroForOne exactInput state = false ->
  let r := iteration ledger state in
  thrown r = None
  /\ finalLedger r = ledger
  /\ liquidity (finalState r) = liquidity state
  /\ sqrtPrice (finalState r) = stepSqrtPrice (stepOf state)
  /\ tick (finalState r)
     = (if isEqualTo (stepSqrtPrice (stepOf state)) (sqrtPrice state) then tick state
        else sqrtPriceToTick (stepSqrtPrice (stepOf state))).
Proof.
  intros Hin Hshort. cbv zeta. rewrite swapIteration_eq, Hin.
  unfold reachesNextTick in Hshort. fold (next state) in Hshort.
  unfold moveTick. rewrite Hshort. rewrite afterFees_sqrtPrice.
  unfold iterationStep. fold (next state).
  destruct (isEqualTo _ (sqrtPrice state)); simpl;
    rewrite ?afterFees_liquidity, ?afterFees_sqrtPrice, ?afterFees_tick;
    repeat split; reflexivity.
Qed.

(** What a completed iteration adds to the liquidity. *)
Lemma iteration_liquidity (ledger : Ledger) (state : SwapState) :
  thrown (iteration ledger state) = None ->
  liquidity (finalState (iteration ledger state))
  == liquidity state
     + liquidityChange pool sqrtPriceLimit zeroForOne exactInput (ledger, state).
Proof.
  intros Hnone. pose proof (completed_iteration_in_bounds _ _ _ _ _ _ Hnone) as Hin.
  rewrite swapIteration_eq, Hin in Hnone |- *.
  unfold liquidityChange, reachesNextTick, crossingCall. simpl fst. simpl snd.
  fold (next state). unfold moveTick in *.
  destruct (isEqualTo (sqrtPrice (fees (next state) state))
              (tickToSqrtPrice (next state))).
  - destruct (nextInitialised pool zeroForOne state); simpl andb.
    + unfold crossingFeeGrowth in *. simpl fst. simpl snd.
      destruct (fetchOrCreateAndCrossTick _ _ _ _ _) as [[ln | e'] l'];
        [| discriminate].
      simpl. rewrite afterFees_liquidity. reflexivity.
    + simpl. rewrite afterFees_liquidity. ring.
  - simpl andb. destruct (negb _); simpl; rewrite afterFees_liquidity; ring.
Qed.

(** X7.  The liquidity at the end of a completed run is the liquidity at
    its start plus the net liquidity of every initialised tick that was
    crossed, taken negatively when [zeroForOne]. *)
Theorem liquidity_over_run
    (fuel : nat) (ledger : Ledger) (state : SwapState) (r : SwapRun Ledger) :
  run fuel ledger state = Some r ->
  thrown r = None ->
  liquidity (finalState r)
  == liquidity state
     + totalLiquidityChange pool sqrtPriceLimit zeroForOne exactInput
         (starts fuel ledger state).
Proof.
  revert ledger state.
  induction fuel as [| fuel IH]; intros ledger state Hrun Hnone; simpl in *.
  - destruct (loopCondition sqrtPriceLimit state); [discriminate |].
    injection Hrun as <-. simpl. ring.
  - destruct (loopCondition sqrtPriceLimit state).
    + destruct (thrown (iteration ledger state)) eqn:Hthrown.
      * injection Hrun as <-. congruence.
      * simpl. rewrite (IH _ _ Hrun Hnone), (iteration_liquidity _ _ Hthrown). ring.
    + injection Hrun as <-. simpl. ring.
Qed.

(** An iteration that meets no initialised tick leaves the ledger and
    the liquidity alone and can throw the error of the bounds test
    only. *)
Lemma iteration_without_crossing (ledger : Ledger) (state : SwapState) :
  nextInitialised pool zeroForOne state = false ->
  finalLedger (iteration ledger state) = ledger
  /\ liquidity (finalState (iteration ledger state)) = liquidity state
  /\ (thrown (iteration ledger state) = None
      \/ thrown (iteration ledger state) = Some insufficientLiquidity).
Proof.
  intros Hinit. rewrite swapIteration_eq.
  destruct (outOfBounds (next state)); [simpl; auto |].
  unfold moveTick. rewrite Hinit.
  destruct (isEqualTo _ (tickToSqrtPrice (next state)));
    [| destruct (negb _)]; simpl; rewrite afterFees_liquidity; auto.
Qed.

(** X8.  A run that meets no initialised tick never touches the ledger
    nor the liquidity, and the only error it can end with is the
    Conflict error of the bounds test. *)
Theorem run_without_initialised_ticks
    (fuel : nat) (ledger : Ledger) (state : SwapState) (r : SwapRun Ledger) :
  run fuel ledger state = Some r ->
  Forall (fun x => nextInitialised pool zeroForOne (snd x) = false)
    (starts fuel ledger state) ->
  finalLedger r = ledger
  /\ liquidity (finalState r) = liquidity state
  /\ (thrown r = None \/ thrown r = Some insufficientLiquidity).
Proof.
  revert ledger state.
  induction fuel as [| fuel IH]; intros ledger state Hrun Hall; simpl in *.
  - destruct (loopCondition sqrtPriceLimit state); [discriminate |].
    injection Hrun as <-. simpl. auto.
  - destruct (loopCondition sqrtPriceLimit state).
    + apply Forall_cons in Hall as [Hhead Htail]. simpl in Hhead.
      destruct (iteration_without_crossing ledger state Hhead) as (Hl & Hq & Ht).
      destruct (thrown (iteration ledger state)) eqn:Hthrown.
      * injection Hrun as <-. rewrite Hthrown. destruct Ht as [Ht | Ht]; [discriminate |].
        auto.
      * destruct (IH _ _ Hrun Htail) as (IHl & IHq & IHt).
        rewrite IHl, IHq, Hl, Hq. auto.
    + injection Hrun as <-. simpl. auto.
Qed.

(** A decimal below one unit of the last place kept truncates to
    zero. *)
Lemma truncateTo_small (dp : nat) (x : Q) :
  Qabs x < 1 # pow10 dp -> truncateTo dp x == 0.
Proof.
  unfold truncateTo. generalize (pow10 dp). intros P Hsmall.
  assert (Hzero : roundDown (x * inject_Z (Z.pos P)) = 0%Z).
  { unfold roundDown. apply Z.quot_small_iff; [discriminate |].
    destruct x as [n d]. unfold Qlt in Hsmall. simpl in *.
    rewrite Z.abs_mul, Pos.mul_1_r. simpl Z.abs. lia. }
  rewrite Hzero. reflexivity.
Qed.

(** X9.  What is left of the amount below 10^-18 is not swapped: the
    run returns at once with the state and the ledger as they are,
    without an iteration and so without the bounds test.  ([f18] as the
    specification describes it.) *)
Theorem dust_is_not_swapped (fuel : nat) (ledger : Ledger) (state : SwapState) :
  Qabs (amountSpecifiedRemaining state) < 1 # pow10 18 ->
  run fuel ledger state = Some (mkSwapRun None state ledger)
  /\ starts fuel ledger state = [].
Proof.
  intros Hdust. apply truncateTo_small in Hdust.
  split; [apply nothing_to_swap; left; exact Hdust |].
  assert (Hcond : loopCondition sqrtPriceLimit state = false).
  { unfold loopCondition. apply andb_false_iff. left.
    apply negb_false_iff, isEqualTo_spec. exact Hdust. }
  destruct fuel; simpl; rewrite Hcond; reflexivity.
Qed.

(** X10.  Every iteration of a completed run was entered with the loop
    condition true and found its next tick within the bounds. *)
Theorem completed_run_stays_in_bounds
    (fuel : nat) (ledger : Ledger) (state : SwapState) (r : SwapRun Ledger) :
  run fuel ledger state = Some r ->
  thrown r = None ->
  Forall (fun x => loopCondition sqrtPriceLimit (snd x) = true
                   /\ outOfBounds (next (snd x)) = false)
    (starts fuel ledger state).
Proof.
  revert ledger state.
  induction fuel as [| fuel IH]; intros ledger state Hrun Hnone; simpl in *.
  - destruct (loopCondition sqrtPriceLimit state); [discriminate | constructor].
  - destruct (loopCondition sqrtPriceLimit state) eqn:Hcond; [| constructor].
    destruct (thrown (iteration ledger state)) eqn:Hthrown.
    + injection Hrun as <-. congruence.
    + constructor; [| apply IH; assumption].
      split; [exact Hcond |]. eapply completed_iteration_in_bounds. exact Hthrown.
Qed.

End SwapAccounts.

(** ** The positions a call returns *)

Section PagingResults.

Import Paging.
Context `{Api : PositionsApi}.

Local Abbreviation pageAt := getObjectsByPartialCompositeKeyWithPagination.

Lemma fetchAll_app (x y : list PositionInfo) :
  fetchAll (x ++ y)
  = match fetchAll x with
    | Throws e => Throws e
    | Returns a =>
        match fetchAll y with
        | Throws e => Throws e
        | Returns b => Returns (a ++ b)
        end
    end.
Proof.
  induction x as [| info x IH]; simpl.
  - destruct (fetchAll y); reflexivity.
  - destruct (positionDataOf info); [| reflexivity].
    rewrite IH. destruct (fetchAll x); [| reflexivity].
    destruct (fetchAll y); reflexivity.
Qed.

Lemma fetchAll_length (infos : list PositionInfo) (data : list DexPositionData) :
  fetchAll infos = Returns data -> length data = length infos.
Proof.
  revert data. induction infos as [| info infos IH]; simpl; intros data.
  - intros [= <-]. reflexivity.
  - destruct (positionDataOf info); [| discriminate].
    destruct (fetchAll infos) as [d |]; [| discriminate].
    intros [= <-]. simpl. f_equal. apply IH. reflexivity.
Qed.

Lemma slice_of_nat {A} (k : nat) (l : list A) : slice (Z.of_nat k) l = drop k l.
Proof.
  unfold slice. replace (Z.of_nat k <? 0)%Z with false by (symmetry; apply Z.ltb_ge; lia).
  rewrite Nat2Z.id. reflexivity.
Qed.

(** The [for] loop fetches the entries it is given, in order, until the
    number required is reached; the flag it leaves says whether it got
    to the last of them. *)
Lemma fetchSelected_fetches (selected : list PositionInfo) :
  forall (len index : Z) (s : PagingState) (r : nat),
    positionsRequired s = Z.of_nat (S r) ->
    (index + Z.of_nat (length selected))%Z = len ->
    match fetchAll (take (S r) selected) with
    | Throws e => fetchSelected len index selected s = Throws e
    | Returns data =>
        fetchSelected len index selected s
        = Returns (mkPaging (currentPageBookmark s) (positionsToSkip s)
                     (Z.of_nat (S r - length data)) (newLocalBookmark s)
                     (match selected with
                      | [] => isLastIteration s
                      | _ => bool_decide (length selected <= S r)%nat
                      end)
                     (userPositions s ++ data))
    end.
Proof.
  induction selected as [| info rest IH]; intros len index s r Hreq Hlen.
  - simpl. destruct s as [c k q n i p]. simpl in *. rewrite app_nil_r.
    rewrite Hreq. reflexivity.
  - simpl take. simpl fetchAll. simpl fetchSelected. unfold positionDataOf.
    destruct (parseTickRange (infoTickRange info)) as [lower upper].
    destruct (getDexPosition _ _ _ _) as [position | e]; [| reflexivity].
    simpl positionsRequired.
    destruct r as [| r].
    + replace (positionsRequired s - 1 =? 0)%Z with true
        by (symmetry; apply Z.eqb_eq; lia).
      rewrite take_0. simpl. f_equal. f_equal; [lia |].
      simpl in Hlen. destruct rest as [| info' rest'].
      * rewrite bool_decide_eq_true_2 by (simpl; lia). apply Z.eqb_eq. simpl in Hlen. lia.
      * rewrite bool_decide_eq_false_2 by (simpl; lia). apply Z.eqb_neq.
        simpl in Hlen. lia.
    + replace (positionsRequired s - 1 =? 0)%Z with false
        by (symmetry; apply Z.eqb_neq; lia).
      specialize (IH len (index + 1)%Z
                    (mkPaging (currentPageBookmark s) (positionsToSkip s)
                       (positionsRequired s - 1) (newLocalBookmark s)
                       (index =? len - 1)%Z (userPositions s ++ [position])) r).
      simpl in IH. specialize (IH ltac:(lia) ltac:(simpl in Hlen; lia)).
      destruct (fetchAll (take (S r) rest)) as [data | e]; [| exact IH].
      rewrite IH. f_equal. rewrite <- app_assoc. simpl. f_equal.
      destruct rest as [| info' rest'].
      * rewrite bool_decide_eq_true_2 by (simpl; lia). apply Z.eqb_eq.
        simpl in Hlen. lia.
      * apply bool_decide_ext. simpl. lia.
Qed.

Lemma loop_goes_on (fuel : nat) (user : string) (s s1 : PagingState) :
  pagingIteration user s = Returns (s1, false) ->
  pagingCondition s1 = true ->
  pagingLoop (S fuel) user s = pagingLoop fuel user s1.
Proof. intros Hpass Hcond. simpl. rewrite Hpass, Hcond. reflexivity. Qed.

Lemma loop_stops (fuel : nat) (user : string) (s s1 : PagingState) (b : bool) :
  pagingIteration user s = Returns (s1, b) ->
  b = true \/ pagingCondition s1 = false ->
  pagingLoop (S fuel) user s = Some (Returns s1).
Proof.
  intros Hpass Hstop. simpl. rewrite Hpass.
  destruct b; [reflexivity |]. destruct Hstop as [H | H]; [discriminate |].
  rewrite H. reflexivity.
Qed.

Lemma loop_throws (fuel : nat) (user : string) (s : PagingState) (e : ChainError) :
  pagingIteration user s = Throws e ->
  pagingLoop (S fuel) user s = Some (Throws e).
Proof. intros Hpass. simpl. rewrite Hpass. reflexivity. Qed.

(** A pass that finds fewer positions to skip than the page holds
    fetches the entries of the page from there on. *)
Lemma pass_reads_entries (user : string) (s : PagingState) (k r : nat) :
  positionsToSkip s = Z.of_nat k ->
  positionsRequired s = Z.of_nat (S r) ->
  (k < length (flattenPage (pageAt user (currentPageBookmark s))))%nat ->
  let entries := flattenPage (pageAt user (currentPageBookmark s)) in
  let whole := bool_decide (length entries - k <= S r)%nat in
  match fetchAll (take (S r) (drop k entries)) with
  | Throws e => pagingIteration user s = Throws e
  | Returns data =>
      pagingIteration user s
      = Returns (mkPaging
                   (if whole then metadataBookmark (pageAt user (currentPageBookmark s))
                    else currentPageBookmark s)
                   0 (Z.of_nat (S r - length data))
                   (positionsToSkip s + positionsRequired s) whole
                   (userPositions s ++ data), false)
  end.
Proof.
  intros Hskip Hreq Hless entries whole. unfold pagingIteration.
  fold entries.
  replace (Z.of_nat (length entries) =? 0)%Z with false
    by (symmetry; apply Z.eqb_neq; subst entries; lia).
  replace (positionsToSkip s >=? Z.of_nat (length entries))%Z with false
    by (symmetry; apply not_true_iff_false; rewrite Z.geb_le; subst entries; lia).
  rewrite Hskip, slice_of_nat.
  pose proof (fetchSelected_fetches (drop k entries)
                (Z.of_nat (length (drop k entries))) 0
                (mkPaging (currentPageBookmark s) 0 (positionsRequired s)
                   (Z.of_nat k + positionsRequired s) (isLastIteration s)
                   (userPositions s)) r Hreq ltac:(lia)) as Hfetch.
  destruct (fetchAll (take (S r) (drop k entries))) as [data | e].
  - rewrite Hfetch. simpl.
    assert (Hlen : length (drop k entries) = (length entries - k)%nat)
      by apply length_drop.
    destruct (drop k entries) as [| info rest] eqn:Hdrop.
    + simpl in Hlen. subst entries. lia.
    + subst whole. rewrite Hlen. reflexivity.
  - rewrite Hfetch. reflexivity.
Qed.

Lemma condition_goes_on (s : PagingState) :
  positionsRequired s <> 0%Z ->
  nonEmpty (currentPageBookmark s) = true ->
  pagingCondition s = true.
Proof.
  intros Hreq Hcur. unfold pagingCondition. rewrite Hcur, andb_true_r.
  apply negb_true_iff, Z.eqb_neq. exact Hreq.
Qed.

(** The loop over a finite scan: it fetches the entries that follow the
    first [k] of the scan, [S r] of them or as many as there are; it
    leaves to skip what the scan could not take up; and unless it was
    made to skip all there is, its cursor and local bookmark stand for
    the entries that follow. *)
Lemma paging_run (user cursor : string) (pages : list Page) :
  scan user cursor pages ->
  forall (fuel : nat) (s : PagingState) (k r : nat),
    currentPageBookmark s = cursor ->
    positionsToSkip s = Z.of_nat k ->
    positionsRequired s = Z.of_nat (S r) ->
    (length pages <= fuel)%nat ->
    match fetchAll (take (S r) (drop k (flat_map flattenPage pages))) with
    | Throws e => pagingLoop fuel user s = Some (Throws e)
    | Returns data =>
        exists s',
          pagingLoop fuel user s = Some (Returns s')
          /\ userPositions s' = userPositions s ++ data
          /\ positionsToSkip s'
             = Z.of_nat (k - length (flat_map flattenPage pages))
          /\ positionsRequired s' = Z.of_nat (S r - length data)
          /\ (0 <= newLocalBookmark s' <= Z.of_nat (k + S r))%Z
          /\ currentPageBookmark s' ∈ cursor :: map metadataBookmark pages
          /\ ((k = 0 \/ k < length (flat_map flattenPage pages))%nat ->
              continues user s' (drop (k + S r) (flat_map flattenPage pages)))
    end.
Proof.
  induction 1 as [cursor Hlast | cursor pages Hmore Hscan IH];
    intros fuel s k r Hcursor Hskip Hreq Hfuel; subst cursor;
    (destruct fuel as [| fuel]; [simpl in Hfuel; lia |]).
  - (* the last page of the scan *)
    simpl flat_map. rewrite app_nil_r.
    set (entries := flattenPage (pageAt user (currentPageBookmark s))) in *.
    destruct (le_lt_dec (length entries) k) as [Hge | Hlt].
    + rewrite (drop_ge _ _ Hge). simpl take. simpl fetchAll.
      destruct (length entries) as [| n] eqn:Hlen.
      * pose proof (pass_over_empty_end user s Hlen Hlast) as Hpass.
        eexists. split; [eapply loop_stops; [exact Hpass | left; reflexivity] |].
        simpl. rewrite app_nil_r, Hskip, Hreq.
        split; [reflexivity |]. split; [f_equal; lia |]. split; [reflexivity |].
        split; [lia |]. split; [rewrite <- Hlast; set_solver |].
        intros _. right. left. repeat split. apply drop_ge. lia.
      * assert (Hpass := pass_skips_page user s). fold entries in Hpass.
        rewrite Hlen in Hpass. specialize (Hpass ltac:(discriminate) ltac:(lia)).
        eexists. split.
        { eapply loop_stops; [exact Hpass | right].
          unfold pagingCondition. simpl. rewrite Hlast. apply andb_false_r. }
        simpl. rewrite app_nil_r, Hskip, Hreq.
        split; [reflexivity |]. split; [lia |]. split; [reflexivity |].
        split; [lia |]. split; [set_solver |].
        intros [Hzero | Hless]; lia.
    + pose proof (pass_reads_entries user s k r Hskip Hreq Hlt) as Hpass.
      cbv zeta in Hpass. fold entries in Hpass.
      destruct (fetchAll (take (S r) (drop k entries))) as [data |] eqn:Hdata;
        [| apply loop_throws; exact Hpass].
      pose proof (fetchAll_length _ _ Hdata) as Hcount.
      rewrite length_take, length_drop in Hcount.
      eexists. split.
      { eapply loop_stops; [exact Hpass | right].
        unfold pagingCondition. simpl. case_bool_decide as Hwhole.
        - rewrite Hlast. apply andb_false_r.
        - replace (Z.of_nat (S r - length data) =? 0)%Z with true
            by (symmetry; apply Z.eqb_eq; lia).
          reflexivity. }
      simpl. rewrite Hskip, Hreq.
      split; [reflexivity |]. split; [f_equal; lia |]. split; [reflexivity |].
      split; [lia |]. split; [case_bool_decide; set_solver |].
      intros _. case_bool_decide as Hwhole.
      * right. left. repeat split; [exact Hlast |]. apply drop_ge. lia.
      * left. split; [reflexivity |].
        exists [pageAt user (currentPageBookmark s)].
        split; [apply scan_last; exact Hlast |].
        simpl. rewrite app_nil_r. fold entries.
        split; [lia |]. f_equal. lia.
  - (* a page with more pages after it *)
    simpl flat_map.
    set (entries := flattenPage (pageAt user (currentPageBookmark s))) in *.
    set (later := flat_map flattenPage pages) in *.
    simpl in Hfuel. rewrite length_app.
    destruct (le_lt_dec (length entries) k) as [Hge | Hlt].
    + rewrite (drop_app_ge _ _ _ Hge).
      destruct (length entries) as [| n] eqn:Hlen.
      * pose proof (pass_over_empty_page user s Hlen Hmore) as Hpass.
        set (s1 := mkPaging _ _ _ _ _ _) in Hpass.
        rewrite (loop_goes_on fuel user s s1 Hpass)
          by (apply condition_goes_on; [simpl; lia | exact Hmore]).
        specialize (IH fuel s1 k r eq_refl Hskip Hreq ltac:(lia)).
        rewrite Nat.sub_0_r. fold later in IH.
        destruct (fetchAll (take (S r) (drop k later))); [| exact IH].
        destruct IH as (s' & Hloop & Hdata & Hleft & Hleft' & Hlocal & Hcur & Hnext).
        exists s'. split; [exact Hloop |]. split; [exact Hdata |].
        split; [exact Hleft |]. split; [exact Hleft' |]. split; [exact Hlocal |].
        split; [apply list_elem_of_further; exact Hcur |].
        intros Hwithin. rewrite drop_app_ge by lia. rewrite Hlen, Nat.sub_0_r.
        apply Hnext. lia.
      * assert (Hpass := pass_skips_page user s). fold entries in Hpass.
        rewrite Hlen in Hpass. specialize (Hpass ltac:(discriminate) ltac:(lia)).
        set (s1 := mkPaging _ _ _ _ _ _) in Hpass.
        rewrite (loop_goes_on fuel user s s1 Hpass)
          by (apply condition_goes_on; [simpl; lia | exact Hmore]).
        specialize (IH fuel s1 (k - S n)%nat r eq_refl ltac:(simpl; lia) Hreq ltac:(lia)).
        fold later in IH.
        destruct (fetchAll (take (S r) (drop (k - S n) later))); [| exact IH].
        destruct IH as (s' & Hloop & Hdata & Hleft & Hleft' & Hlocal & Hcur & Hnext).
        exists s'. split; [exact Hloop |]. split; [exact Hdata |].
        split; [rewrite Hleft; f_equal; lia |]. split; [exact Hleft' |].
        split; [lia |]. split; [apply list_elem_of_further; exact Hcur |].
        intros Hwithin. rewrite drop_app_ge by lia. rewrite Hlen.
        replace (k + S r - S n)%nat with (k - S n + S r)%nat by lia.
        apply Hnext. lia.
    + rewrite drop_app_le by lia.
      pose proof (pass_reads_entries user s k r Hskip Hreq Hlt) as Hpass.
      cbv zeta in Hpass. fold entries in Hpass.
      assert (Hsize : length (drop k entries) = (length entries - k)%nat)
        by apply length_drop.
      destruct (le_lt_dec (S r) (length entries - k)) as [Hfits | Hmore'].
      * (* the page holds all that is required *)
        rewrite take_app_le by lia.
        destruct (fetchAll (take (S r) (drop k entries))) as [data |] eqn:Hdata;
          [| apply loop_throws; exact Hpass].
        pose proof (fetchAll_length _ _ Hdata) as Hcount.
        rewrite length_take, length_drop in Hcount.
        eexists. split.
        { eapply loop_stops; [exact Hpass | right].
          unfold pagingCondition. simpl.
          replace (Z.of_nat (S r - length data) =? 0)%Z with true
            by (symmetry; apply Z.eqb_eq; lia).
          reflexivity. }
        simpl. rewrite Hskip, Hreq.
        split; [reflexivity |]. split; [f_equal; lia |]. split; [reflexivity |].
        split; [lia |]. split; [case_bool_decide; set_solver |].
        intros _. case_bool_decide as Hwhole.
        -- right. right. split; [reflexivity |]. split; [exact Hmore |].
           exists pages. split; [exact Hscan |]. fold later.
           rewrite drop_app_ge by lia.
           replace (k + S r - length entries)%nat with 0%nat by lia. reflexivity.
        -- left. split; [reflexivity |].
           exists (pageAt user (currentPageBookmark s) :: pages).
           split; [apply scan_more; assumption |].
           simpl. fold entries. fold later. rewrite length_app.
           split; [lia |]. f_equal. lia.
      * (* the page is read to its end and more is required *)
        rewrite take_app_ge by lia. rewrite fetchAll_app.
        rewrite take_ge in Hpass by lia.
        destruct (fetchAll (drop k entries)) as [data |] eqn:Hdata;
          [| apply loop_throws; exact Hpass].
        pose proof (fetchAll_length _ _ Hdata) as Hcount. rewrite Hsize in Hcount.
        rewrite bool_decide_eq_true_2 in Hpass by lia.
        set (s1 := mkPaging _ _ _ _ _ _) in Hpass.
        rewrite (loop_goes_on fuel user s s1 Hpass)
          by (apply condition_goes_on; [simpl; lia | exact Hmore]).
        specialize (IH fuel s1 0%nat (r - (length entries - k))%nat eq_refl eq_refl
                      ltac:(simpl; lia) ltac:(lia)).
        fold later in IH. rewrite drop_0 in IH. rewrite Hsize.
        replace (S r - (length entries - k))%nat
          with (S (r - (length entries - k)))%nat by lia.
        destruct (fetchAll (take (S (r - (length entries - k))) later)) as [more |];
          [| exact IH].
        destruct IH as (s' & Hloop & Hmoredata & Hleft & Hleft' & Hlocal & Hcur & Hnext).
        exists s'. split; [exact Hloop |].
        split; [rewrite Hmoredata; simpl; rewrite <- app_assoc; reflexivity |].
        split; [rewrite Hleft; f_equal; lia |].
        split; [rewrite Hleft', length_app; f_equal; lia |].
        split; [lia |]. split; [apply list_elem_of_further; exact Hcur |].
        intros _. rewrite drop_app_ge by lia.
        replace (k + S r - length entries)%nat
          with (0 + S (r - (length entries - k)))%nat by lia.
        apply Hnext. left. reflexivity.
Qed.

(** A pass that ends in [break] leaves no cursor. *)
Lemma break_exhausts (user : string) (s s' : PagingState) :
  pagingIteration user s = Returns (s', true) ->
  currentPageBookmark s' = "".
Proof.
  unfold pagingIteration. intros Hrun.
  destruct (_ =? 0)%Z.
  - destruct (nonEmpty _); [discriminate |]. injection Hrun as <-. reflexivity.
  - destruct (_ >=? _)%Z; [discriminate |].
    destruct (fetchSelected _ _ _ _); discriminate.
Qed.

(** The loop ends when all required positions are fetched or no cursor
    is left (line 117). *)
Lemma loop_end (fuel : nat) (user : string) (s s' : PagingState) :
  pagingLoop fuel user s = Some (Returns s') ->
  positionsRequired s' = 0%Z \/ currentPageBookmark s' = "".
Proof.
  revert s. induction fuel as [| fuel IH]; intros s Hrun; simpl in Hrun; [discriminate |].
  destruct (pagingIteration user s) as [[s1 b] | e] eqn:Hpass; [| discriminate].
  destruct b.
  - injection Hrun as <-. right. eapply break_exhausts. exact Hpass.
  - destruct (pagingCondition s1) eqn:Hcond; [eapply IH; exact Hrun |].
    injection Hrun as <-. unfold pagingCondition in Hcond.
    apply andb_false_iff in Hcond as [Hreq | Hcur].
    + left. apply negb_false_iff, Z.eqb_eq in Hreq. exact Hreq.
    + right. apply nonEmpty_false. exact Hcur.
Qed.

(** A request over a finite scan: what it answers, and the state in
    which its loop ends. *)
Lemma request_answer (fuel : nat) (dto : GetUserPositionsDto) (pages : list Page)
    (k r : nat) :
  scan (user dto) (fst (splitBookmark (bookmark dto))) pages ->
  Number (snd (splitBookmark (bookmark dto))) = Z.of_nat k ->
  limit dto = Z.of_nat (S r) ->
  (length pages <= fuel)%nat ->
  match expectedPositions k (S r) pages with
  | Throws e => getUserPositions fuel dto = Some (Throws e)
  | Returns found =>
      exists s',
        getUserPositions fuel dto = Some (Returns (mkResDto found (newBookmark s')))
        /\ positionsRequired s'
           = Z.of_nat (S r - Nat.min (S r) (length (flat_map flattenPage pages) - k))
        /\ (0 <= newLocalBookmark s' <= Z.of_nat (k + S r))%Z
        /\ currentPageBookmark s'
           ∈ fst (splitBookmark (bookmark dto)) :: map metadataBookmark pages
        /\ (positionsRequired s' = 0%Z \/ currentPageBookmark s' = "")
        /\ ((k = 0 \/ k < length (flat_map flattenPage pages))%nat ->
            continues (user dto) s' (drop (k + S r) (flat_map flattenPage pages)))
  end.
Proof.
  intros Hscan Hlocal Hlimit Hfuel.
  pose proof (paging_run _ _ _ Hscan fuel (initialPaging dto) k r) as Hrun.
  unfold getUserPositions, expectedPositions, positionsFor.
  unfold initialPaging in *.
  destruct (splitBookmark (bookmark dto)) as [chain local]. simpl in *.
  specialize (Hrun eq_refl Hlocal Hlimit Hfuel).
  destruct (length (flat_map flattenPage pages) <? k)%nat eqn:Hpast.
  - apply Nat.ltb_lt in Hpast. rewrite drop_ge in Hrun by lia. simpl in Hrun.
    destruct Hrun as (s' & -> & _ & Hleft & _). unfold finishPaging.
    replace (positionsToSkip s' =? 0)%Z with false
      by (symmetry; apply Z.eqb_neq; lia).
    reflexivity.
  - apply Nat.ltb_ge in Hpast.
    destruct (fetchAll (take (S r) (drop k (flat_map flattenPage pages))))
      as [data | e] eqn:Hdata; [| rewrite Hrun; reflexivity].
    destruct Hrun as (s' & Hloop & Hfound & Hleft & Hreq & Hbounds & Hcur & Hnext).
    rewrite Hloop. unfold finishPaging.
    replace (positionsToSkip s' =? 0)%Z with true
      by (symmetry; apply Z.eqb_eq; lia).
    simpl. rewrite Hfound.
    destruct (addMetaDataToUserPositions data) as [found | e]; [| reflexivity].
    exists s'. split; [reflexivity |].
    apply fetchAll_length in Hdata. rewrite length_take, length_drop in Hdata.
    split; [rewrite Hreq, Hdata; reflexivity |].
    split; [exact Hbounds |]. split; [exact Hcur |].
    split; [eapply loop_end; exact Hloop |]. exact Hnext.
Qed.

(** X11.  Over a finite scan of the user's index, a request with a
    positive limit answers with the positions of the entries that follow
    the ones its bookmark counts as consumed, in the order of the scan and
    no more than the limit, each with its token metadata; it raises
    "Invalid bookmark" when the bookmark counts more entries than the
    scan holds, and otherwise the first error of [getDexPosition] or
    [fetchTokenClass]. *)
Theorem request_returns_next_positions
    (fuel : nat) (dto : GetUserPositionsDto) (pages : list Page) (k r : nat) :
  scan (user dto) (fst (splitBookmark (bookmark dto))) pages ->
  Number (snd (splitBookmark (bookmark dto))) = Z.of_nat k ->
  limit dto = Z.of_nat (S r) ->
  (length pages <= fuel)%nat ->
  match expectedPositions k (S r) pages with
  | Throws e => getUserPositions fuel dto = Some (Throws e)
  | Returns found =>
      exists next, getUserPositions fuel dto = Some (Returns (mkResDto found next))
  end.
Proof.
  intros Hscan Hlocal Hlimit Hfuel.
  pose proof (request_answer fuel dto pages k r Hscan Hlocal Hlimit Hfuel) as Hanswer.
  destruct (expectedPositions k (S r) pages) as [found | e]; [| exact Hanswer].
  destruct Hanswer as (s' & Hrun & _). eauto.
Qed.

(** X12.  A request that asks for more than is left of the scan answers
    with all that is left and the empty bookmark. *)
Theorem request_past_the_end_exhausts
    (fuel : nat) (dto : GetUserPositionsDto) (pages : list Page) (k r : nat) :
  scan (user dto) (fst (splitBookmark (bookmark dto))) pages ->
  Number (snd (splitBookmark (bookmark dto))) = Z.of_nat k ->
  limit dto = Z.of_nat (S r) ->
  (length pages <= fuel)%nat ->
  (k = 0 \/ k < length (flat_map flattenPage pages))%nat ->
  (length (flat_map flattenPage pages) < k + S r)%nat ->
  match positionsFor (drop k (flat_map flattenPage pages)) with
  | Throws e => getUserPositions fuel dto = Some (Throws e)
  | Returns found => getUserPositions fuel dto = Some (Returns (mkResDto found ""))
  end.
Proof.
  intros Hscan Hlocal Hlimit Hfuel Hwithin Hpast.
  pose proof (request_answer fuel dto pages k r Hscan Hlocal Hlimit Hfuel) as Hanswer.
  unfold expectedPositions in Hanswer.
  replace (length (flat_map flattenPage pages) <? k)%nat with false in Hanswer
    by (symmetry; apply Nat.ltb_ge; lia).
  rewrite take_ge in Hanswer by (rewrite length_drop; lia).
  destruct (positionsFor (drop k (flat_map flattenPage pages))) as [found | e];
    [| exact Hanswer].
  destruct Hanswer as (s' & -> & Hreq & _ & _ & Hend & Hnext).
  do 3 f_equal. unfold newBookmark.
  destruct Hend as [Hzero | Hcur]; [lia |].
  destruct (Hnext Hwithin) as [(_ & pages' & _ & Hless & Hrest)
                              | [(Hlast & _) | (_ & Hmore & _)]].
  - apply (f_equal length) in Hrest. rewrite !length_drop in Hrest. lia.
  - rewrite Hcur, Hlast. reflexivity.
  - rewrite Hcur in Hmore. discriminate.
Qed.

(** X13.  The bookmark that a request hands back, unless it is empty,
    makes the next request go on where this one stopped: for a codec that
    gives back the cursors of the scan and the counts it was given, the
    next request answers with the positions of the entries after those
    that the bookmark and the limit of this request cover. *)
Theorem next_request_resumes
    (fuel : nat) (dto : GetUserPositionsDto) (pages : list Page) (k r : nat)
    (res : GetUserPositionsResDto) :
  scan (user dto) (fst (splitBookmark (bookmark dto))) pages ->
  Number (snd (splitBookmark (bookmark dto))) = Z.of_nat k ->
  limit dto = Z.of_nat (S r) ->
  (length pages <= fuel)%nat ->
  (k = 0 \/ k < length (flat_map flattenPage pages))%nat ->
  (forall c l,
      c ∈ fst (splitBookmark (bookmark dto)) :: map metadataBookmark pages ->
      splitBookmark (genBookMark c l) = (c, l)) ->
  (forall n, (0 <= n <= Z.of_nat (k + S r))%Z -> Number (pretty n) = n) ->
  Number "" = 0%Z ->
  getUserPositions fuel dto = Some (Returns res) ->
  nextBookMark res <> "" ->
  exists enough,
    forall fuel' r', (enough <= fuel')%nat ->
      match positionsFor (take (S r') (drop (k + S r) (flat_map flattenPage pages))) with
      | Throws e =>
          getUserPositions fuel'
            (mkDto (user dto) (Z.of_nat (S r')) (nextBookMark res))
          = Some (Throws e)
      | Returns found =>
          exists next,
            getUserPositions fuel'
              (mkDto (user dto) (Z.of_nat (S r')) (nextBookMark res))
            = Some (Returns (mkResDto found next))
      end.
Proof.
  intros Hscan Hlocal Hlimit Hfuel Hwithin Hsplit Hnumber Hempty Hret Hnext.
  pose proof (request_answer fuel dto pages k r Hscan Hlocal Hlimit Hfuel) as Hanswer.
  destruct (expectedPositions k (S r) pages) as [found | e];
    [| rewrite Hanswer in Hret; discriminate].
  destruct Hanswer as (s' & Hrun & _ & Hbounds & Hcur & _ & Hrest).
  rewrite Hrun in Hret. injection Hret as <-. simpl in *.
  specialize (Hrest Hwithin). unfold newBookmark in *.
  destruct Hrest as [(Hlast & pages' & Hscan' & Hless & Hrest)
                    | [(Hlast & Hend & _) | (Hlast & Hmore & pages' & Hscan' & Hrest)]].
  - rewrite Hlast, andb_false_r in *. exists (length pages'). intros fuel' r' Hfuel'.
    set (dto' := mkDto _ _ _).
    assert (Hcodec : splitBookmark (bookmark dto')
                     = (currentPageBookmark s', pretty (newLocalBookmark s')))
      by (apply Hsplit; exact Hcur).
    pose proof (request_answer fuel' dto' pages' (Z.to_nat (newLocalBookmark s')) r')
      as Hanswer.
    rewrite Hcodec in Hanswer. simpl in Hanswer.
    specialize (Hanswer Hscan' ltac:(rewrite Hnumber; lia) eq_refl Hfuel').
    unfold expectedPositions in Hanswer.
    replace (length (flat_map flattenPage pages') <? Z.to_nat (newLocalBookmark s'))%nat
      with false in Hanswer by (symmetry; apply Nat.ltb_ge; lia).
    rewrite Hrest in Hanswer.
    destruct (positionsFor _) as [found' | e]; [| exact Hanswer].
    destruct Hanswer as (s2 & Hrun' & _). eauto.
  - rewrite Hend, Hlast in Hnext. elim Hnext. reflexivity.
  - rewrite Hlast, Hmore in *. simpl in *.
    exists (length pages'). intros fuel' r' Hfuel'.
    set (dto' := mkDto _ _ _).
    assert (Hcodec : splitBookmark (bookmark dto') = (currentPageBookmark s', ""))
      by (apply Hsplit; exact Hcur).
    pose proof (request_answer fuel' dto' pages' 0 r') as Hanswer.
    rewrite Hcodec in Hanswer. simpl in Hanswer.
    specialize (Hanswer Hscan' Hempty eq_refl Hfuel').
    unfold expectedPositions in Hanswer. simpl in Hanswer.
    rewrite Hrest in Hanswer.
    destruct (positionsFor _) as [found' | e]; [| exact Hanswer].
    destruct Hanswer as (s2 & Hrun' & _). eauto.
Qed.

(** The [for] loop takes one off the counter of required positions for
    every position it adds, and stops at zero. *)
Lemma fetchSelected_count (len index : Z) (selected : list PositionInfo)
    (s s' : PagingState) :
  fetchSelected len index selected s = Returns s' ->
  (0 < positionsRequired s)%Z ->
  (0 <= positionsRequired s')%Z
  /\ (Z.of_nat (length (userPositions s')) + positionsRequired s'
      = Z.of_nat (length (userPositions s)) + positionsRequired s)%Z.
Proof.
  revert index s. induction selected as [| info rest IH]; intros index s Hrun Hpos;
    simpl in Hrun.
  - injection Hrun as <-. lia.
  - destruct (parseTickRange (infoTickRange info)) as [lower upper].
    destruct (getDexPosition _ _ _ _) as [position | e]; [| discriminate].
    simpl in Hrun.
    destruct (positionsRequired s - 1 =? 0)%Z eqn:Hzero.
    + injection Hrun as <-. simpl. rewrite length_app. simpl. lia.
    + apply Z.eqb_neq in Hzero. apply IH in Hrun; simpl in *; [| lia].
      rewrite length_app in Hrun. simpl in Hrun. lia.
Qed.

Lemma pagingIteration_count (user : string) (s s' : PagingState) (b : bool) :
  pagingIteration user s = Returns (s', b) ->
  (0 < positionsRequired s)%Z ->
  (0 <= positionsRequired s')%Z
  /\ (Z.of_nat (length (userPositions s')) + positionsRequired s'
      = Z.of_nat (length (userPositions s)) + positionsRequired s)%Z.
Proof.
  unfold pagingIteration. intros Hrun Hpos.
  destruct (_ =? 0)%Z.
  - destruct (nonEmpty _); injection Hrun as <- <-; simpl; lia.
  - destruct (_ >=? _)%Z.
    + injection Hrun as <- <-. simpl. lia.
    + destruct (fetchSelected _ _ _ _) as [s1 | e] eqn:Hfetch; [| discriminate].
      injection Hrun as <- <-. simpl.
      apply fetchSelected_count in Hfetch; simpl in *; [exact Hfetch | exact Hpos].
Qed.

Lemma pagingLoop_count (fuel : nat) (user : string) (s s' : PagingState) :
  pagingLoop fuel user s = Some (Returns s') ->
  (0 < positionsRequired s)%Z ->
  (0 <= positionsRequired s')%Z
  /\ (Z.of_nat (length (userPositions s')) + positionsRequired s'
      = Z.of_nat (length (userPositions s)) + positionsRequired s)%Z.
Proof.
  revert s. induction fuel as [| fuel IH]; intros s Hrun Hpos; simpl in Hrun;
    [discriminate |].
  destruct (pagingIteration user s) as [[s1 b] | e] eqn:Hpass; [| discriminate].
  pose proof (pagingIteration_count _ _ _ _ Hpass Hpos) as [Hge Hsum].
  destruct b; [injection Hrun as <-; tauto |].
  destruct (pagingCondition s1) eqn:Hcond; [| injection Hrun as <-; tauto].
  unfold pagingCondition in Hcond. apply andb_true_iff in Hcond as [Hreq _].
  apply negb_true_iff, Z.eqb_neq in Hreq.
  apply IH in Hrun; lia.
Qed.

Lemma addMetaData_length (data : list DexPositionData) (found : list IPosition) :
  addMetaDataToUserPositions data = Returns found ->
  length found = length data.
Proof.
  revert found. induction data as [| position rest IH]; intros found; simpl.
  - intros [= <-]. reflexivity.
  - destruct (fetchTokenClass (token0ClassKey position)); [| discriminate].
    destruct (fetchTokenClass (token1ClassKey position)); [| discriminate].
    destruct (addMetaDataToUserPositions rest) as [tail |]; [| discriminate].
    intros [= <-]. simpl. f_equal. apply IH. reflexivity.
Qed.

(** X14.  Whatever the ledger and the bookmark, a request with a
    positive limit that returns, returns no more positions than the
    limit. *)
Theorem never_more_than_limit (fuel : nat) (dto : GetUserPositionsDto)
    (res : GetUserPositionsResDto) :
  (0 < limit dto)%Z ->
  getUserPositions fuel dto = Some (Returns res) ->
  (Z.of_nat (length (positions res)) <= limit dto)%Z.
Proof.
  intros Hlimit. unfold getUserPositions.
  destruct (pagingLoop fuel (user dto) (initialPaging dto)) as [[s' | e] |] eqn:Hloop;
    [| discriminate | discriminate].
  intros Hfinish. apply pagingLoop_count in Hloop.
  - unfold finishPaging in Hfinish.
    destruct (negb _); [discriminate |].
    destruct (addMetaDataToUserPositions (userPositions s')) as [found |] eqn:Hmeta;
      [| discriminate].
    injection Hfinish as [= <-]. simpl.
    rewrite (addMetaData_length _ _ Hmeta).
    unfold initialPaging in Hloop.
    destruct (splitBookmark (bookmark dto)). simpl in Hloop. lia.
  - unfold initialPaging. destruct (splitBookmark (bookmark dto)). exact Hlimit.
Qed.

(** X15.  The errors of [getUserPositions]: "Invalid bookmark", or an
    error that [getDexPosition] or [fetchTokenClass] raised. *)
Theorem errors_of_getUserPositions (fuel : nat) (dto : GetUserPositionsDto)
    (e : ChainError) :
  getUserPositions fuel dto = Some (Throws e) ->
  e = invalidBookmark
  \/ (exists poolHash upper lower id, getDexPosition poolHash upper lower id = Throws e)
  \/ (exists key, fetchTokenClass key = Throws e).
Proof.
  unfold getUserPositions.
  destruct (pagingLoop fuel (user dto) (initialPaging dto)) as [[s' | e'] |] eqn:Hloop;
    [| | discriminate].
  - unfold finishPaging. destruct (negb _).
    + intros [= <-]. left. reflexivity.
    + destruct (addMetaDataToUserPositions (userPositions s')) as [found | e'] eqn:Hmeta;
        [discriminate |].
      intros [= <-]. right. right. eapply addMetaData_throws. exact Hmeta.
  - intros [= <-]. right. left. eapply pagingLoop_throws. exact Hloop.
Qed.

(** X16.  [addMetaDataToUserPositions] returns if and only if the token
    classes of both tokens of every position can be fetched: one class
    that cannot be fetched fails the whole list. *)
Theorem metadata_for_all_or_none (data : list DexPositionData) :
  (exists found, addMetaDataToUserPositions data = Returns found)
  <-> Forall (fun position =>
                (exists class0, fetchTokenClass (token0ClassKey position) = Returns class0)
                /\ (exists class1,
                       fetchTokenClass (token1ClassKey position) = Returns class1))
             data.
Proof.
  induction data as [| position rest IH]; simpl.
  - split; [constructor | eauto].
  - rewrite Forall_cons, <- IH.
    destruct (fetchTokenClass (token0ClassKey position)) as [class0 | e0].
    + destruct (fetchTokenClass (token1ClassKey position)) as [class1 | e1].
      * destruct (addMetaDataToUserPositions rest) as [tail | e2].
        -- split; eauto 7.
        -- split; [intros [found Hfound]; discriminate |].
           intros (_ & found & Hfound). discriminate.
      * split; [intros [found Hfound]; discriminate |].
        intros ((_ & class1 & Hclass) & _). discriminate.
    + split; [intros [found Hfound]; discriminate |].
      intros (((class0 & Hclass) & _) & _). discriminate.
Qed.

(** X17.  The positions come back from [addMetaDataToUserPositions] one
    for one and in their order, each with the pool, the ticks, the
    identifier, the class keys and the fee it had. *)
Theorem metadata_keeps_positions (data : list DexPositionData)
    (found : list IPosition) :
  addMetaDataToUserPositions data = Returns found ->
  map (fun i => (iPoolHash i, iTickUpper i, iTickLower i, iPositionId i,
                 iToken0ClassKey i, iToken1ClassKey i, iFee i)) found
  = map (fun p => (poolHash p, tickUpper p, tickLower p, positionId p,
                   token0ClassKey p, token1ClassKey p, positionFee p)) data.
Proof.
  revert found. induction data as [| position rest IH]; intros found; simpl.
  - intros [= <-]. reflexivity.
  - destruct (fetchTokenClass (token0ClassKey position)); [| discriminate].
    destruct (fetchTokenClass (token1ClassKey position)); [| discriminate].
    destruct (addMetaDataToUserPositions rest) as [tail |]; [| discriminate].
    intros [= <-]. simpl. f_equal. apply IH. reflexivity.
Qed.

End PagingResults.

(** ** Outcomes of the fee configuration *)

Section FeeConfigResults.

Import FeeConfig.
Variable validateTokenOrder : string -> string -> Completion (string * string).
Variable createCompositeKey : string -> string -> Q -> string.
Variable poolNotFoundMessage : string -> string.
Variable feeOutOfRangeMessage : string.

Local Open Scope Q_scope.

Local Abbreviation configure :=
  (configurePoolDexFee validateTokenOrder createCompositeKey poolNotFoundMessage
     feeOutOfRangeMessage).

(** X18.  Whatever makes [configurePoolDexFee] fail, the context is left
    as it was, and the checks come in one order: the configuration
    object, the caller, the order of the tokens, the pool, the range of
    the fee.  An error of [validateTokenOrder] is handed on as it is, and
    only to a caller who is authorised. *)
Theorem failed_configuration_changes_nothing
    (ctx : Context) (dto : ConfigurePoolDexFeeDto) (e : ChainError) :
  fst (configure ctx dto) = Throws e ->
  snd (configure ctx dto) = ctx
  /\ ((feeConfig ctx = None /\ e = configNotDefined)
      \/ (exists config,
             feeConfig ctx = Some config
             /\ (callingUser ctx ∉ authorities config)
             /\ e = notAuthorized (callingUser ctx))
      \/ (exists config,
             feeConfig ctx = Some config
             /\ (callingUser ctx ∈ authorities config)
             /\ validateTokenOrder (dtoToken0 dto) (dtoToken1 dto) = Throws e)
      \/ (exists config t0 t1,
             feeConfig ctx = Some config
             /\ (callingUser ctx ∈ authorities config)
             /\ validateTokenOrder (dtoToken0 dto) (dtoToken1 dto) = Returns (t0, t1)
             /\ getObjectByKey poolNotFoundMessage ctx
                  (createCompositeKey t0 t1 (dtoFee dto)) = Throws e)
      \/ (exists config t0 t1 pool,
             feeConfig ctx = Some config
             /\ (callingUser ctx ∈ authorities config)
             /\ validateTokenOrder (dtoToken0 dto) (dtoToken1 dto) = Returns (t0, t1)
             /\ pools ctx !! createCompositeKey t0 t1 (dtoFee dto) = Some pool
             /\ ~ (0 <= protocolFee dto /\ protocolFee dto <= 1)
             /\ e = mkError ValidationFailedError feeOutOfRangeMessage)).
Proof.
  unfold configurePoolDexFee, fetchDexProtocolFeeConfig, getObjectByKey.
  destruct (feeConfig ctx) as [config |]; [| intros [= <-]; auto].
  case_bool_decide as Hauth; simpl.
  - destruct (validateTokenOrder (dtoToken0 dto) (dtoToken1 dto)) as [[t0 t1] | e0].
    + destruct (pools ctx !! createCompositeKey t0 t1 (dtoFee dto)) as [pool |] eqn:Hpool.
      * unfold configureProtocolFee.
        destruct (Qle_bool 0 (protocolFee dto) && Qle_bool (protocolFee dto) 1)
          eqn:Hrange; [discriminate |].
        intros [= <-]. split; [reflexivity |]. do 4 right. exists config, t0, t1, pool.
        repeat split; try assumption.
        intros Hin. apply in_range_spec in Hin. congruence.
      * intros [= <-]. split; [reflexivity |]. do 3 right. left.
        exists config, t0, t1. rewrite Hpool. repeat split; assumption.
    + intros [= <-]. split; [reflexivity |]. do 2 right. left.
      exists config. repeat split; assumption.
  - intros [= <-]. split; [reflexivity |]. right. left.
    exists config. repeat split; assumption.
Qed.

(** X19.  The last configuration wins: after a call that went through,
    a second call for the same pool with a fee in range leaves the
    context that it would have left without the first. *)
Theorem last_configuration_wins
    (ctx : Context) (dto : ConfigurePoolDexFeeDto) (res : ConfigurePoolDexFeeResDto)
    (f : Q) :
  fst (configure ctx dto) = Returns res ->
  0 <= f /\ f <= 1 ->
  configure (snd (configure ctx dto))
    (mkDto (dtoToken0 dto) (dtoToken1 dto) (dtoFee dto) f)
  = configure ctx (mkDto (dtoToken0 dto) (dtoToken1 dto) (dtoFee dto) f).
Proof.
  intros Hfirst Hrange. apply in_range_spec in Hrange.
  unfold configurePoolDexFee, fetchDexProtocolFeeConfig in *.
  destruct (feeConfig ctx) as [config |] eqn:Hconfig; [| discriminate].
  destruct (negb (bool_decide (callingUser ctx ∈ authorities config))) eqn:Hauth;
    [discriminate |].
  simpl dtoToken0. simpl dtoToken1. simpl dtoFee. simpl protocolFee.
  destruct (validateTokenOrder (dtoToken0 dto) (dtoToken1 dto)) as [[t0 t1] | e0];
    [| discriminate].
  unfold getObjectByKey in *.
  destruct (pools ctx !! createCompositeKey t0 t1 (dtoFee dto)) as [pool |] eqn:Hpool;
    [| discriminate].
  unfold configureProtocolFee in *.
  destruct (Qle_bool 0 (protocolFee dto) && Qle_bool (protocolFee dto) 1);
    [| discriminate].
  rewrite Hrange. simpl. rewrite Hconfig, Hauth, lookup_insert_eq.
  unfold putChainObject, set_pools. simpl. rewrite insert_insert_eq. reflexivity.
Qed.

End FeeConfigResults.

(** ** The arguments of [requirePosititve] taken together *)

Section FormatResults.

Import Format.

(** X20.  Checking two lists of arguments in one call is checking the
    first and then, if it passes, the second. *)
Theorem requirePosititve_app (before after : list JsValue) :
  requirePosititve (before ++ after)
  = match requirePosititve before with
    | Throws e => Throws e
    | Returns _ => requirePosititve after
    end.
Proof.
  induction before as [| v rest IH]; simpl; [reflexivity |].
  destruct v as [b | | | | |]; try exact IH.
  destruct (ltZero b); [reflexivity | exact IH].
Qed.

(** X21.  The order of the arguments does not matter to
    [requirePosititve]. *)
Theorem requirePosititve_any_order (params params' : list JsValue) :
  params ≡ₚ params' ->
  requirePosititve params = requirePosititve params'.
Proof.
  induction 1 as [| v rest rest' _ IH | v w rest | ? ? ? _ IH1 _ IH2]; simpl.
  - reflexivity.
  - destruct v as [b | | | | |]; try exact IH.
    destruct (ltZero b); [reflexivity | exact IH].
  - destruct v as [b | | | | |], w as [c | | | | |]; try reflexivity;
      try (destruct (ltZero b); reflexivity);
      try (destruct (ltZero c); reflexivity).
    destruct (ltZero b), (ltZero c); reflexivity.
  - congruence.
Qed.

End FormatResults.

(** * Concrete cases *)

(** ** The swap engine on the example pool *)

Section SwapCases.

Local Open Scope Q_scope.

Local Abbreviation quarter := (Example.poolWith (1 # 4)).
Local Abbreviation iterate :=
  (swapIteration (Api := Example.api) quarter Example.priceLimit true true).
Local Abbreviation swap :=
  (processSwapSteps (Api := Example.api) quarter Example.priceLimit true true).

(** A swap of 1000 is one step; a quarter of the fee of 100 goes to the
    protocol, the rest, divided by the liquidity of 1000, to the fee
    growth. *)
Lemma protocol_fee_diverted_case :
  let state' := finalState (iterate Example.ledger (Example.stateWith 1000)) in
  protocolFee state' == 25
  /\ feeGrowthGlobalX state' == dividedBy 20 75 1000.
Proof.
  destruct (protocol_fee_diverted_before_fee_growth (Api := Example.api)
              quarter Example.priceLimit true true
              Example.ledger (Example.stateWith 1000))
    as (_ & _ & Hcase).
  - reflexivity.
  - vm_compute. reflexivity.
  - destruct Hcase as [Hprotocol Hgrowth]; [vm_compute; reflexivity .. |].
    split.
    + rewrite Hprotocol. reflexivity.
    + rewrite Hgrowth. reflexivity.
Defined.

(** The state in which that swap ends. *)
Lemma one_step_swap_state :
  finalState (iterate Example.ledger (Example.stateWith 1000)) = Example.afterOneStep.
Proof. vm_compute. reflexivity. Qed.

(** The step ends on the lowest tick, which is initialised: the tick is
    crossed downwards, its net liquidity of 500 leaves the pool, and the
    pointer goes one below it. *)
Lemma reached_tick_is_crossed_case :
  let r := iterate Example.ledger (Example.stateWith 1000) in
  thrown r = None
  /\ liquidity (finalState r) = 1000 + 500 * -1
  /\ tick (finalState r) = (-887273)%Z.
Proof.
  destruct (reached_tick_is_crossed (Api := Example.api)
              quarter Example.priceLimit true true
              Example.ledger (Example.stateWith 1000))
    as [Hinitialised _].
  - vm_compute. reflexivity.
  - vm_compute. reflexivity.
  - destruct Hinitialised as [_ Hcall]; [vm_compute; reflexivity |]. exact Hcall.
Defined.

(** A swap of 2000 needs a second step, and below the lowest tick there
    is none: the second iteration throws, with the state and the ledger
    that the first iteration left. *)
Lemma out_of_bounds_tick_aborts_case :
  swap 5%nat Example.ledger (Example.stateWith 2000)
  = Some (mkSwapRun (Some insufficientLiquidity)
            (finalState (iterate Example.ledger (Example.stateWith 2000)))
            (finalLedger (iterate Example.ledger (Example.stateWith 2000)))).
Proof.
  apply (out_of_bounds_tick_aborts (Api := Example.api)
           quarter Example.priceLimit true true 5 Example.ledger
           (finalLedger (iterate Example.ledger (Example.stateWith 2000)))
           (Example.stateWith 2000)
           (finalState (iterate Example.ledger (Example.stateWith 2000)))).
  - apply (second_iteration_start (Api := Example.api)); vm_compute; reflexivity.
  - vm_compute. reflexivity.
Defined.

(** C2 fails as stated: the run below finds the next tick out of bounds
    and throws, and by then the swap state has moved and the record of
    the crossed tick has been rewritten. *)
Lemma out_of_bounds_after_writes :
  exists r tickData,
    swap 5%nat Example.ledger (Example.stateWith 2000) = Some r
    /\ thrown r = Some insufficientLiquidity
    /\ tick (finalState r) = (-887273)%Z
    /\ tick (Example.stateWith 2000) = (-887212)%Z
    /\ amountCalculated (finalState r) == -890
    /\ amountCalculated (Example.stateWith 2000) == 0
    /\ finalLedger r !! ("GALA$USDC", (-887272)%Z) = Some tickData
    /\ 0 < TickStore.feeGrowthOutside0 tickData
    /\ Example.ledger !! ("GALA$USDC", (-887272)%Z) = Some Example.tickRecord
    /\ TickStore.feeGrowthOutside0 Example.tickRecord == 0.
Proof.
  eexists. eexists. split.
  - apply (run_throws_in_second (Api := Example.api) quarter Example.priceLimit
             true true 3 Example.ledger (Example.stateWith 2000));
      vm_compute; reflexivity.
  - cbn [thrown finalState finalLedger].
    repeat split; vm_compute; reflexivity.
Qed.

(** Over the one-step swap the fee growth goes up by the increment of
    its only iteration. *)
Lemma fee_growth_over_run_case :
  let r := iterate Example.ledger (Example.stateWith 1000) in
  feeGrowthGlobalX (Example.stateWith 1000) < feeGrowthGlobalX (finalState r).
Proof.
  destruct (run_single_iteration (Api := Example.api) quarter Example.priceLimit
              true true 4 Example.ledger (Example.stateWith 1000))
    as [Hrun Hstarts]; [vm_compute; reflexivity .. |].
  destruct (fee_growth_over_run (Api := Example.api)
              quarter Example.priceLimit true true 5 Example.ledger
              (Example.stateWith 1000)
              (iterate Example.ledger (Example.stateWith 1000)))
    as (_ & Hstrict & _).
  - intros p t l a f. discriminate.
  - discriminate.
  - exact Hrun.
  - vm_compute. reflexivity.
  - apply Hstrict. rewrite Hstarts. apply Exists_cons_hd.
    split; vm_compute; reflexivity.
Defined.

(** C4 fails as stated: in a pool that diverts the whole fee, the swap
    below completes after an iteration with liquidity 1000, and the fee
    growth at exit is what it was at entry. *)
Lemma fee_growth_unchanged_with_liquidity :
  exists r,
    processSwapSteps (Api := Example.api) (Example.poolWith 1) Example.priceLimit
      true true 5 Example.ledger (Example.stateWith 1000) = Some r
    /\ thrown r = None
    /\ Exists (fun x => 0 < liquidity (snd x))
         (iterationStarts (Api := Example.api) (Example.poolWith 1) Example.priceLimit
            true true 5 Example.ledger (Example.stateWith 1000))
    /\ feeGrowthGlobalX (finalState r) == feeGrowthGlobalX (Example.stateWith 1000)
    /\ ~ feeGrowthGlobalX (Example.stateWith 1000) < feeGrowthGlobalX (finalState r).
Proof.
  destruct (run_single_iteration (Api := Example.api) (Example.poolWith 1)
              Example.priceLimit true true 4 Example.ledger (Example.stateWith 1000))
    as [Hrun Hstarts]; [vm_compute; reflexivity .. |].
  eexists. split; [exact Hrun |]. rewrite Hstarts.
  split; [vm_compute; reflexivity |].
  split; [apply Exists_cons_hd; vm_compute; reflexivity |].
  split; [vm_compute; reflexivity |]. vm_compute. discriminate.
Qed.

(** With a step that neither moves the price nor takes any amount, in a
    pool without liquidity and without protocol fee, the iteration gives
    back what it was given and the loop does not end, whatever the
    fuel. *)
Lemma idle_step_never_ends (fuel : nat) :
  processSwapSteps (Api := Example.idleApi) (Example.poolWith 0) Example.priceLimit
    true true fuel Example.ledger Example.drained = None.
Proof.
  apply (idle_iteration_never_ends (Api := Example.idleApi)).
  - vm_compute. reflexivity.
  - rewrite (swapIteration_eq (Api := Example.idleApi)).
    replace (outOfBounds _) with false by (vm_compute; reflexivity).
    unfold moveTick.
    replace (isEqualTo _ _) with false by (vm_compute; reflexivity).
    replace (isEqualTo _ _) with true by (vm_compute; reflexivity).
    simpl. f_equal.
Qed.

(** The example pool meets the contracts under which a run is bounded:
    its lookup goes down by one tick spacing and its step reaches the
    target. *)
Lemma run_ends_case :
  tickDistance (Api := Example.api) true (Example.stateWith 2000) = 61%nat
  /\ is_Some (swap (S (tickDistance (Api := Example.api) true (Example.stateWith 2000)))
                Example.ledger (Example.stateWith 2000)).
Proof.
  split; [vm_compute; reflexivity |].
  apply (run_ends_under_contracts (Api := Example.api) quarter Example.priceLimit
           true true).
  - intros tick price. change (tick - 60 <= tick)%Z. lia.
  - intros price target liquidity remaining fee. left. apply Qeq_refl.
Qed.

(** The amounts of the one-step swap of 1000: all of it is paid in, 890
    come out. *)
Lemma amounts_over_run_case :
  let r := iterate Example.ledger (Example.stateWith 1000) in
  amountSpecifiedRemaining (finalState r) == 0
  /\ amountCalculated (finalState r) == -890.
Proof.
  destruct (run_single_iteration (Api := Example.api) quarter Example.priceLimit
              true true 4 Example.ledger (Example.stateWith 1000))
    as [Hrun Hstarts]; [vm_compute; reflexivity .. |].
  pose proof (amounts_over_run (Api := Example.api) quarter Example.priceLimit
                true true 5 Example.ledger (Example.stateWith 1000)
                (iterate Example.ledger (Example.stateWith 1000)) Hrun
                ltac:(vm_compute; reflexivity)) as Hsum.
  cbv zeta in Hsum. rewrite Hstarts in Hsum. destruct Hsum as [Hin Hout].
  split.
  - rewrite Hin. vm_compute. reflexivity.
  - rewrite Hout. vm_compute. reflexivity.
Defined.

(** Its protocol fee is a quarter of the fee of 100. *)
Lemma protocol_fee_over_run_case :
  let r := iterate Example.ledger (Example.stateWith 1000) in
  protocolFee (finalState r) == 25
  /\ protocolFee (finalState r) <= 100.
Proof.
  destruct (run_single_iteration (Api := Example.api) quarter Example.priceLimit
              true true 4 Example.ledger (Example.stateWith 1000))
    as [Hrun Hstarts]; [vm_compute; reflexivity .. |].
  pose proof (protocol_fee_over_run (Api := Example.api) quarter Example.priceLimit
                true true 5 Example.ledger (Example.stateWith 1000)
                (iterate Example.ledger (Example.stateWith 1000)) Hrun
                ltac:(vm_compute; reflexivity)) as Hfee.
  cbv zeta in Hfee. rewrite Hstarts in Hfee. destruct Hfee as [Hsum Hbounds].
  split.
  - rewrite Hsum. vm_compute. reflexivity.
  - destruct Hbounds as [_ Hle].
    + intros p t l a f. discriminate.
    + discriminate.
    + eapply Qle_trans; [exact Hle |]. vm_compute. discriminate.
Defined.

(** It ends with nothing left to swap. *)
Lemma returned_run_has_ended_case :
  let r := iterate Example.ledger (Example.stateWith 1000) in
  f18 (amountSpecifiedRemaining (finalState r)) == 0
  \/ sqrtPrice (finalState r) == Example.priceLimit.
Proof.
  destruct (run_single_iteration (Api := Example.api) quarter Example.priceLimit
              true true 4 Example.ledger (Example.stateWith 1000))
    as [Hrun Hstarts]; [vm_compute; reflexivity .. |].
  exact (returned_run_has_ended (Api := Example.api) quarter Example.priceLimit
           true true 5 Example.ledger (Example.stateWith 1000)
           (iterate Example.ledger (Example.stateWith 1000)) Hrun
           ltac:(vm_compute; reflexivity)).
Defined.

(** The swap of 2000 throws in its second iteration, with the state in
    which that iteration started. *)
Lemma thrown_run_case :
  let r := mkSwapRun (Some insufficientLiquidity)
             (finalState (iterate Example.ledger (Example.stateWith 2000)))
             (finalLedger (iterate Example.ledger (Example.stateWith 2000))) in
  exists l s,
    (l, s) ∈ iterationStarts (Api := Example.api) quarter Example.priceLimit true true
               5 Example.ledger (Example.stateWith 2000)
    /\ ((insufficientLiquidity = insufficientLiquidity
         /\ outOfBounds (Api := Example.api) (nextTick (Api := Example.api) quarter true s)
            = true
         /\ finalState r = s /\ finalLedger r = l)
        \/ (outOfBounds (Api := Example.api) (nextTick (Api := Example.api) quarter true s)
            = false
            /\ nextInitialised (Api := Example.api) quarter true s = true
            /\ crossingCall (Api := Example.api) quarter Example.priceLimit true true l s
               = (Throws insufficientLiquidity, finalLedger r)
            /\ finalState r
               = afterFees (Api := Example.api) quarter Example.priceLimit true true
                   (nextTick (Api := Example.api) quarter true s) s
            /\ liquidity (finalState r) = liquidity s
            /\ tick (finalState r) = tick s)).
Proof.
  apply (thrown_run (Api := Example.api) quarter Example.priceLimit true true
           5 Example.ledger (Example.stateWith 2000)).
  - apply (run_throws_in_second (Api := Example.api) quarter Example.priceLimit
             true true 3 Example.ledger (Example.stateWith 2000));
      vm_compute; reflexivity.
  - reflexivity.
Defined.

(** With the limit between the price and the next tick, the step stops
    at the limit: nothing is crossed and the tick pointer is the tick of
    the limit. *)
Lemma tick_not_reached_case :
  let r := swapIteration (Api := Example.api) quarter
             (Example.linearSqrtPrice (-887242)) true true
             Example.ledger (Example.stateWith 1000) in
  thrown r = None
  /\ finalLedger r = Example.ledger
  /\ liquidity (finalState r) = 1000
  /\ tick (finalState r) = (-887242)%Z.
Proof.
  destruct (tick_not_reached (Api := Example.api) quarter
              (Example.linearSqrtPrice (-887242)) true true
              Example.ledger (Example.stateWith 1000))
    as (Hthrown & Hledger & Hliquidity & _ & Htick);
    [vm_compute; reflexivity .. |].
  split; [exact Hthrown |]. split; [exact Hledger |]. split; [exact Hliquidity |].
  rewrite Htick. vm_compute. reflexivity.
Defined.

(** Over the one-step swap the liquidity goes down by the net liquidity
    of the tick it crosses. *)
Lemma liquidity_over_run_case :
  let r := iterate Example.ledger (Example.stateWith 1000) in
  liquidity (finalState r) == 500.
Proof.
  destruct (run_single_iteration (Api := Example.api) quarter Example.priceLimit
              true true 4 Example.ledger (Example.stateWith 1000))
    as [Hrun Hstarts]; [vm_compute; reflexivity .. |].
  pose proof (liquidity_over_run (Api := Example.api) quarter Example.priceLimit
                true true 5 Example.ledger (Example.stateWith 1000)
                (iterate Example.ledger (Example.stateWith 1000)) Hrun
                ltac:(vm_compute; reflexivity)) as Hsum.
  rewrite Hstarts in Hsum. cbv zeta. rewrite Hsum. vm_compute. reflexivity.
Defined.

(** Going up from the start there is no initialised tick before the
    limit: the ledger and the liquidity are untouched. *)
Lemma run_without_initialised_ticks_case :
  let r := swapIteration (Api := Example.api) quarter
             (Example.linearSqrtPrice (-887182)) true false
             Example.ledger (Example.stateWith 1000) in
  finalLedger r = Example.ledger
  /\ liquidity (finalState r) = 1000
  /\ (thrown r = None \/ thrown r = Some insufficientLiquidity).
Proof.
  destruct (run_single_iteration (Api := Example.api) quarter
              (Example.linearSqrtPrice (-887182)) true false 4
              Example.ledger (Example.stateWith 1000))
    as [Hrun Hstarts]; [vm_compute; reflexivity .. |].
  apply (run_without_initialised_ticks (Api := Example.api) quarter
           (Example.linearSqrtPrice (-887182)) true false 5
           Example.ledger (Example.stateWith 1000)).
  - exact Hrun.
  - rewrite Hstarts. apply Forall_cons. split; [| apply Forall_nil; exact I].
    vm_compute. reflexivity.
Defined.

(** An amount of 10^-19 is not swapped. *)
Lemma dust_is_not_swapped_case :
  swap 0%nat Example.ledger (Example.stateWith (1 # 10000000000000000000))
  = Some (mkSwapRun None (Example.stateWith (1 # 10000000000000000000)) Example.ledger)
  /\ iterationStarts (Api := Example.api) quarter Example.priceLimit true true 0
       Example.ledger (Example.stateWith (1 # 10000000000000000000)) = [].
Proof.
  apply (dust_is_not_swapped (Api := Example.api) quarter Example.priceLimit true true
           0 Example.ledger (Example.stateWith (1 # 10000000000000000000))).
  vm_compute. reflexivity.
Defined.

(** The one iteration of the swap of 1000 found the lowest tick, which
    is within the bounds. *)
Lemma completed_run_stays_in_bounds_case :
  loopCondition Example.priceLimit (Example.stateWith 1000) = true
  /\ outOfBounds (Api := Example.api)
       (nextTick (Api := Example.api) quarter true (Example.stateWith 1000)) = false.
Proof.
  destruct (run_single_iteration (Api := Example.api) quarter Example.priceLimit
              true true 4 Example.ledger (Example.stateWith 1000))
    as [Hrun Hstarts]; [vm_compute; reflexivity .. |].
  pose proof (completed_run_stays_in_bounds (Api := Example.api) quarter
                Example.priceLimit true true 5 Example.ledger (Example.stateWith 1000)
                (iterate Example.ledger (Example.stateWith 1000)) Hrun
                ltac:(vm_compute; reflexivity)) as Hall.
  rewrite Hstarts in Hall. apply Forall_cons in Hall as [Hfirst _]. exact Hfirst.
Defined.

End SwapCases.

(** ** Paging through the example ledger *)

Section PagingCases.

Import Paging.

Local Abbreviation positionsOf := (getUserPositions (Api := PagingExample.api) 10).
Local Abbreviation loopOf :=
  (fun dto => pagingLoop (Api := PagingExample.api) 10 (user dto)
                (initialPaging (Api := PagingExample.api) dto)).

(** Five positions from the start: three from the first page, none from
    the second, two of the four on the third, and a bookmark that names
    the third page and the two positions consumed there. *)
Lemma returned_bookmark_case :
  exists res,
    positionsOf (mkDto "alice" 5 "") = Some (Returns res)
    /\ map iPositionId (positions res) = ["a1"; "a2"; "a3"; "c1"; "c2"]
    /\ nextBookMark res = "k3|2".
Proof.
  assert (Hcall : { res | positionsOf (mkDto "alice" 5 "") = Some (Returns res)
                          /\ map iPositionId (positions res)
                             = ["a1"; "a2"; "a3"; "c1"; "c2"] }).
  { eexists. split; [vm_compute; reflexivity | reflexivity]. }
  destruct Hcall as (res & Hcall & Hids). exists res.
  split; [exact Hcall |]. split; [exact Hids |].
  destruct (returned_bookmark (Api := PagingExample.api) 10 _ res Hcall)
    as (s & Hloop & Hmark & _).
  vm_compute in Hloop. injection Hloop as <-. exact Hmark.
Defined.

(** C3 fails as stated: in the call above the final page is consumed in
    part, and the local part of the bookmark is 2, not the 0 + 5 of the
    request. *)
Lemma bookmark_not_from_request :
  exists res s,
    positionsOf (mkDto "alice" 5 "") = Some (Returns res)
    /\ loopOf (mkDto "alice" 5 "") = Some (Returns s)
    /\ isLastIteration s = false
    /\ currentPageBookmark s = "k3"
    /\ nextBookMark res = "k3|2"
    /\ genBookMark (PositionsApi := PagingExample.api) "k3"
         (pretty (Number (PositionsApi := PagingExample.api) "" + 5)%Z) = "k3|5"
    /\ nextBookMark res
       <> genBookMark (PositionsApi := PagingExample.api) (currentPageBookmark s)
            (pretty (Number (PositionsApi := PagingExample.api) "" + 5)%Z).
Proof.
  eexists. eexists.
  split; [vm_compute; reflexivity |].
  split; [vm_compute; reflexivity |].
  repeat split. discriminate.
Qed.

(** A bookmark that skips five positions on a last page of four. *)
Lemma invalid_bookmark_case :
  positionsOf (mkDto "alice" 5 "k3|5") = Some (Throws invalidBookmark).
Proof.
  destruct (invalid_bookmark_iff_skips_past_data (Api := PagingExample.api) 10
              (mkDto "alice" 5 "k3|5")) as [_ Hcount]; [discriminate | discriminate |].
  destruct Hcount as [_ Hdata]; [discriminate | discriminate |].
  apply (Hdata [PagingExample.pageOf "alice" "k3"]).
  - apply (scan_last (Api := PagingExample.api)). reflexivity.
  - simpl. lia.
  - reflexivity.
Defined.

(** C7 fails as stated: a user without positions asks with the bookmark
    "|-1", and the error is raised although the counter, which is still
    -1 when the loop ends, is not positive; and with a limit of 0 the
    bookmark "|5" raises it while the cursor "k2" is still to be read
    and the ledger holds seven positions, more than the five to skip. *)
Lemma invalid_bookmark_without_positive_counter :
  positionsOf (mkDto "bob" 5 "|-1") = Some (Throws invalidBookmark)
  /\ (exists s,
         loopOf (mkDto "bob" 5 "|-1") = Some (Returns s)
         /\ positionsToSkip s = (-1)%Z)
  /\ ~ (exists s,
           loopOf (mkDto "bob" 5 "|-1") = Some (Returns s)
           /\ currentPageBookmark s = ""
           /\ (0 < positionsToSkip s)%Z)
  /\ positionsOf (mkDto "alice" 0 "|5") = Some (Throws invalidBookmark)
  /\ (exists s,
         loopOf (mkDto "alice" 0 "|5") = Some (Returns s)
         /\ currentPageBookmark s = "k2"
         /\ positionsToSkip s = 2%Z)
  /\ ~ (exists s,
           loopOf (mkDto "alice" 0 "|5") = Some (Returns s)
           /\ currentPageBookmark s = ""
           /\ (0 < positionsToSkip s)%Z).
Proof.
  split; [vm_compute; reflexivity |].
  split; [eexists; split; [vm_compute; reflexivity | reflexivity] |].
  split.
  { intros (s & Hloop & _ & Hpos). vm_compute in Hloop. injection Hloop as <-.
    simpl in Hpos. lia. }
  split; [vm_compute; reflexivity |].
  split; [eexists; split; [vm_compute; reflexivity | split; reflexivity] |].
  intros (s & Hloop & Hcursor & _). vm_compute in Hloop. injection Hloop as <-.
  discriminate.
Qed.

(** The local part can be that of the request after more than one pass:
    two positions asked for from the second page, which is empty, take
    two passes, and the bookmark handed back has the local part 0 + 2. *)
Lemma bookmark_sum_after_two_passes :
  exists res,
    positionsOf (mkDto "alice" 2 "k2|") = Some (Returns res)
    /\ nextBookMark res = "k3|2"
    /\ pagingLoop (Api := PagingExample.api) 1 "alice"
         (initialPaging (Api := PagingExample.api) (mkDto "alice" 2 "k2|")) = None
    /\ (Number (PositionsApi := PagingExample.api) "" + 2 = 2)%Z.
Proof.
  eexists. split; [vm_compute; reflexivity |].
  split; [reflexivity |]. split; [vm_compute; reflexivity | reflexivity].
Qed.

(** The same bookmark read against the ledger: it asks to skip five of
    the four positions that are left from the third page on. *)
Lemma invalid_bookmark_past_the_end_case :
  positionsOf (mkDto "alice" 5 "k3|5") = Some (Throws invalidBookmark)
  <-> (4 < 5)%Z.
Proof.
  apply (invalid_bookmark_iff_past_the_end (Api := PagingExample.api) 10
           (mkDto "alice" 5 "k3|5")
           [getObjectsByPartialCompositeKeyWithPagination
              (PositionsApi := PagingExample.api) "alice" "k3"]);
    try discriminate.
  - apply (scan_last (Api := PagingExample.api)). reflexivity.
  - simpl. lia.
Qed.

(** A bookmark that skips exactly the four positions of the last page. *)
Lemma bookmark_at_page_end_case :
  positionsOf (mkDto "alice" 5 "k3|4") = Some (Returns (mkResDto [] "|9")).
Proof.
  apply (bookmark_at_page_end (Api := PagingExample.api) 9 (mkDto "alice" 5 "k3|4")
           "k3" "4"); reflexivity.
Defined.

(** C10 fails as stated: a user without positions asks from the start;
    the local part, 0, is the number of positions on the page, the page
    reports no further cursor, and the bookmark handed back is the empty
    one, not the pair of an empty chain part and 0 + 5. *)
Lemma empty_page_gives_empty_bookmark :
  let dto := mkDto "bob" 5 "" in
  let page := getObjectsByPartialCompositeKeyWithPagination (PositionsApi := PagingExample.api)
                "bob" "" in
  splitBookmark (PositionsApi := PagingExample.api) (bookmark dto) = ("", "")
  /\ Number (PositionsApi := PagingExample.api) "" = Z.of_nat (length (flattenPage page))
  /\ metadataBookmark page = ""
  /\ positionsOf dto = Some (Returns (mkResDto [] ""))
  /\ positionsOf dto
     <> Some (Returns (mkResDto []
                (genBookMark (PositionsApi := PagingExample.api) ""
                   (pretty (Number (PositionsApi := PagingExample.api) "" + limit dto)%Z)))).
Proof.
  repeat split. discriminate.
Qed.

(** The three pages of the user's index, in the order of the scan. *)
Lemma pages_from_start :
  scan (Api := PagingExample.api) "alice" ""
    [PagingExample.pageOf "alice" ""; PagingExample.pageOf "alice" "k2";
     PagingExample.pageOf "alice" "k3"].
Proof.
  apply (scan_more (Api := PagingExample.api)); [reflexivity |].
  apply (scan_more (Api := PagingExample.api)); [reflexivity |].
  apply (scan_last (Api := PagingExample.api)). reflexivity.
Qed.

(** Five positions from the start are the first five of the scan. *)
Lemma request_returns_next_positions_case :
  exists res,
    positionsOf (mkDto "alice" 5 "") = Some (Returns res)
    /\ map iPositionId (positions res) = ["a1"; "a2"; "a3"; "c1"; "c2"].
Proof.
  pose proof (request_returns_next_positions (Api := PagingExample.api) 10
                (mkDto "alice" 5 "") _ 0 4 pages_from_start eq_refl eq_refl
                ltac:(simpl; lia)) as Hanswer.
  destruct (expectedPositions (Api := PagingExample.api) 0 5 _) as [found | e] eqn:Hfound;
    vm_compute in Hfound; [| discriminate].
  injection Hfound as <-. destruct Hanswer as [next Hanswer].
  eexists. split; [exact Hanswer | reflexivity].
Defined.

(** Five positions after the first two of the last page: the two that
    are left, and the empty bookmark. *)
Lemma request_past_the_end_exhausts_case :
  exists found,
    positionsOf (mkDto "alice" 5 "k3|2") = Some (Returns (mkResDto found ""))
    /\ map iPositionId found = ["c3"; "c4"].
Proof.
  pose proof (request_past_the_end_exhausts (Api := PagingExample.api) 10
                (mkDto "alice" 5 "k3|2") [PagingExample.pageOf "alice" "k3"] 2 4
                ltac:(apply (scan_last (Api := PagingExample.api)); reflexivity)
                eq_refl eq_refl ltac:(simpl; lia) ltac:(right; simpl; lia)
                ltac:(simpl; lia)) as Hanswer.
  destruct (positionsFor (Api := PagingExample.api) _) as [found | e] eqn:Hfound;
    vm_compute in Hfound; [| discriminate].
  injection Hfound as <-.
  eexists. split; [exact Hanswer | reflexivity].
Defined.

(** The bookmark of the first five positions, "k3|2", makes the next
    request begin with the sixth. *)
Lemma next_request_resumes_case :
  exists enough,
    forall fuel, (enough <= fuel)%nat ->
      exists res,
        getUserPositions (Api := PagingExample.api) fuel (mkDto "alice" 1 "k3|2")
        = Some (Returns res)
        /\ map iPositionId (positions res) = ["c3"].
Proof.
  assert (Hcall : { res | positionsOf (mkDto "alice" 5 "") = Some (Returns res)
                          /\ nextBookMark res = "k3|2" }).
  { eexists. split; [vm_compute; reflexivity | reflexivity]. }
  destruct Hcall as (res & Hcall & Hmark).
  destruct (next_request_resumes (Api := PagingExample.api) 10
              (mkDto "alice" 5 "") _ 0 4 res pages_from_start eq_refl eq_refl
              ltac:(simpl; lia) ltac:(left; reflexivity))
    as [enough Hnext].
  - intros c l Hin. simpl in Hin.
    repeat (apply elem_of_cons in Hin as [-> | Hin]; [reflexivity |]).
    inversion Hin.
  - intros n Hn.
    assert (Hcases : (n = 0 \/ n = 1 \/ n = 2 \/ n = 3 \/ n = 4 \/ n = 5)%Z)
      by (simpl in Hn; lia).
    destruct Hcases as [-> | [-> | [-> | [-> | [-> | ->]]]]]; reflexivity.
  - reflexivity.
  - exact Hcall.
  - rewrite Hmark. discriminate.
  - exists enough. intros fuel Hfuel. specialize (Hnext fuel 0%nat Hfuel).
    rewrite Hmark in Hnext.
    destruct (positionsFor (Api := PagingExample.api) _) as [found | e] eqn:Hfound;
      vm_compute in Hfound; [| discriminate].
    injection Hfound as <-. destruct Hnext as [next Hnext].
    eexists. split; [exact Hnext | reflexivity].
Defined.

(** The five positions asked for are no more than five. *)
Lemma never_more_than_limit_case :
  exists res,
    positionsOf (mkDto "alice" 5 "") = Some (Returns res)
    /\ (Z.of_nat (length (positions res)) <= 5)%Z.
Proof.
  assert (Hcall : { res | positionsOf (mkDto "alice" 5 "") = Some (Returns res) }).
  { eexists. vm_compute. reflexivity. }
  destruct Hcall as (res & Hcall). exists res. split; [exact Hcall |].
  apply (never_more_than_limit (Api := PagingExample.api) 10 (mkDto "alice" 5 "") res);
    [reflexivity | exact Hcall].
Defined.

(** The error of the bookmark that skips too much is the function's
    own. *)
Lemma errors_of_getUserPositions_case :
  invalidBookmark = invalidBookmark
  \/ (exists poolHash upper lower id,
         getDexPosition (PositionsApi := PagingExample.api) poolHash upper lower id
         = Throws invalidBookmark)
  \/ (exists key,
         fetchTokenClass (PositionsApi := PagingExample.api) key = Throws invalidBookmark).
Proof.
  apply (errors_of_getUserPositions (Api := PagingExample.api) 10
           (mkDto "alice" 5 "k3|5")).
  vm_compute. reflexivity.
Defined.

(** A position keeps its pool, ticks, identifier, class keys and fee. *)
Lemma metadata_keeps_positions_case :
  exists found,
    addMetaDataToUserPositions (Api := PagingExample.api)
      [mkPositionData "poolA" 60 (-60) 1 "a1" "GALA" "USDC" (3 # 1000)]
    = Returns found
    /\ map (fun i => (iPoolHash i, iTickUpper i, iTickLower i, iPositionId i,
                      iToken0ClassKey i, iToken1ClassKey i, iFee i)) found
       = [("poolA", 60%Z, (-60)%Z, "a1", "GALA", "USDC", (3 # 1000)%Q)].
Proof.
  assert (Hcall : { found | addMetaDataToUserPositions (Api := PagingExample.api)
                               [mkPositionData "poolA" 60 (-60) 1 "a1" "GALA" "USDC"
                                  (3 # 1000)]
                             = Returns found }).
  { eexists. reflexivity. }
  destruct Hcall as [found Hcall]. exists found. split; [exact Hcall |].
  exact (metadata_keeps_positions (Api := PagingExample.api) _ _ Hcall).
Defined.

End PagingCases.

(** ** Configuring the fee of the example pool *)

Section FeeConfigCases.

Import FeeConfig FeeConfigExample.
Local Open Scope Q_scope.

Lemma configurePoolDexFee_case :
  fst (configure unconfigured (request (1 # 10))) = Throws configNotDefined
  /\ fst (configure (contextOf "mallory") (request (1 # 10)))
     = Throws (notAuthorized "mallory")
  /\ configure (contextOf "admin") (request (11 # 10))
     = (Throws (mkError ValidationFailedError outOfRange), contextOf "admin")
  /\ exists ctx',
       configure (contextOf "admin") (request (1 # 10))
       = (Returns (mkResDto (1 # 10)), ctx')
       /\ protocolFees <$> pools ctx' !! "GALA$USDC" = Some (1 # 10).
Proof.
  split; [| split; [| split]].
  - destruct (configurePoolDexFee_outcomes orderOf keyOf notFound outOfRange
                unconfigured (request (1 # 10))) as (Habsent & _).
    unfold configure. rewrite Habsent; reflexivity.
  - destruct (configurePoolDexFee_outcomes orderOf keyOf notFound outOfRange
                (contextOf "mallory") (request (1 # 10))) as (_ & Hcaller & _).
    unfold configure. rewrite (Hcaller (mkFeeConfig ["admin"])); [reflexivity .. |].
    simpl. intros Hin. apply list_elem_of_singleton in Hin. discriminate.
  - destruct (configurePoolDexFee_outcomes orderOf keyOf notFound outOfRange
                (contextOf "admin") (request (11 # 10))) as (_ & _ & Hpool).
    destruct (Hpool (mkFeeConfig ["admin"]) "GALA" "USDC" (Example.poolWith 0))
      as [Houtside _]; [reflexivity | apply list_elem_of_here | reflexivity .. |].
    apply Houtside. intros [_ Hle]. apply Hle. reflexivity.
  - destruct (configurePoolDexFee_outcomes orderOf keyOf notFound outOfRange
                (contextOf "admin") (request (1 # 10))) as (_ & _ & Hpool).
    destruct (Hpool (mkFeeConfig ["admin"]) "GALA" "USDC" (Example.poolWith 0))
      as [_ Hinside]; [reflexivity | apply list_elem_of_here | reflexivity .. |].
    destruct Hinside as (ctx' & Hcall & Hstored & _); [split; discriminate |].
    exists ctx'. split; [exact Hcall |].
    change (keyOf "GALA" "USDC" (dtoFee (request (1 # 10)))) with "GALA$USDC" in Hstored.
    rewrite Hstored. reflexivity.
Defined.

(** A caller who is not an authority: the error, and the context as it
    was. *)
Lemma failed_configuration_changes_nothing_case :
  snd (configure (contextOf "mallory") (request (1 # 10))) = contextOf "mallory".
Proof.
  apply (failed_configuration_changes_nothing orderOf keyOf notFound outOfRange
           (contextOf "mallory") (request (1 # 10)) (notAuthorized "mallory")).
  reflexivity.
Defined.

(** A fee of 1/10 and then one of 2/10 leave what the fee of 2/10 alone
    leaves. *)
Lemma last_configuration_wins_case :
  configure (snd (configure (contextOf "admin") (request (1 # 10)))) (request (2 # 10))
  = configure (contextOf "admin") (request (2 # 10)).
Proof.
  apply (last_configuration_wins orderOf keyOf notFound outOfRange
           (contextOf "admin") (request (1 # 10)) (mkResDto (1 # 10)) (2 # 10)).
  - reflexivity.
  - split; discriminate.
Defined.

End FeeConfigCases.

(** ** Checking arguments *)

Section FormatCases.

Import Format.

(** C9 fails as stated: the error for a negative decimal is a
    ConflictError, not a ValidationFailed error. *)
Lemma negative_decimal_is_conflict :
  exists e,
    requirePosititve [JsString "1"; JsBigNumber (Finite 5); JsBigNumber (Finite (-1))]
    = Throws e
    /\ errKind e = ConflictError
    /\ errKind e <> ValidationFailedError.
Proof.
  eexists. split; [reflexivity |]. split; [reflexivity | discriminate].
Qed.

(** A negative decimal is found wherever it stands among the
    arguments. *)
Lemma requirePosititve_any_order_case :
  requirePosititve [JsBigNumber (Finite (-1)); JsString "1"; JsBigNumber (Finite 5)]
  = requirePosititve [JsString "1"; JsBigNumber (Finite 5); JsBigNumber (Finite (-1))].
Proof.
  apply requirePosititve_any_order.
  apply (Permutation_cons_append [JsString "1"; JsBigNumber (Finite 5)]).
Defined.

End FormatCases.
